(** * Station-orientation analysis (seismic/analyze_station_orientations.py)

    A shallow embedding of the orientation-estimation pipeline:
    the back-azimuth wrap, the angle sweep over one station's events,
    the per-station job, and the orchestrator that assembles the
    result mapping.

    Python floats are IEEE-754 binary64 numbers; they are modelled with
    the Standard Library's executable specification [SpecFloat] at
    precision 53 and maximal exponent 1024. *)

From Stdlib Require Import ZArith Lia List Bool SpecFloat.
From stdpp Require Import gmap strings list pretty.

Local Open Scope Z_scope.

(** * Part I: the model *)

(** ** Binary64 arithmetic *)

Module B64.

Definition prec : Z := 53.

Definition emax : Z := 1024.

Abbreviation float := spec_float.

Definition add : float -> float -> float := SFadd prec emax.

Definition sub : float -> float -> float := SFsub prec emax.

Definition mul : float -> float -> float := SFmul prec emax.

Definition div : float -> float -> float := SFdiv prec emax.

Definition ltb : float -> float -> bool := SFltb.

Definition leb : float -> float -> bool := SFleb.

(** Conversion of an integer literal, rounded to nearest even. *)
Definition of_Z (z : Z) : float := binary_normalize prec emax z 0 false.

Definition nan : float := S754_nan.

(** [np.isfinite]. *)
Definition isfinite (x : float) : bool :=
  match x with
  | S754_zero _ | S754_finite _ _ _ => true
  | S754_infinity _ | S754_nan => false
  end.

(** [np.isnan]. *)
Definition isnan (x : float) : bool :=
  match x with S754_nan => true | _ => false end.

Definition valid (x : float) : bool := valid_binary prec emax x.

(** A well-formed finite double: neither an infinity nor a NaN. *)
Definition number (x : float) : bool := valid x && isfinite x.

(** The value of a finite float, counted in units of [2^-1074] (the
    smallest positive subnormal), so that every valid finite binary64
    number has an integer value. *)
Definition val (x : float) : Z :=
  match x with
  | S754_finite s m e => cond_Zopp s (Zpos m * 2 ^ (e + 1074))
  | _ => 0
  end.

(** Number of binary digits of a positive mantissa. *)
Definition digits (p : positive) : Z := Zpos (digits2_pos p).

(** Canonical exponent (shifted by 1074) of a non-negative scaled value. *)
Definition cexp (V : Z) : Z := Z.max (Zdigits2 V - prec) 0.

(** A non-negative scaled value is representable when it is a multiple of
    the unit in the last place of its binade. *)
Definition repr (V : Z) : Prop := V mod 2 ^ cexp V = 0.

(** [N] is one of the two neighbours of [V] on the grid of its binade,
    and [V] itself when [V] lies on that grid. *)
Definition rounded (V N : Z) : Prop :=
  (N = V / 2 ^ cexp V * 2 ^ cexp V \/ N = (V / 2 ^ cexp V + 1) * 2 ^ cexp V)
  /\ (V mod 2 ^ cexp V = 0 -> N = V).

(** After [k] right shifts of [m0] the record holds the quotient, and its
    two sticky bits are clear exactly when nothing was lost. *)
Definition shr_inv (m0 k : Z) (r : shr_record) : Prop :=
  shr_m r = m0 / 2 ^ k /\ (shr_r r || shr_s r = false <-> m0 mod 2 ^ k = 0).

(** *** Rounding a positive value

    Scaled values at or above [top] overflow to infinity. *)

Definition top : Z := 2 ^ 2098.

Definition rounds_to (sx : bool) (V : Z) (x : float) : Prop :=
  exists N, rounded V N /\
    ((N < top /\ exists m e, x = S754_finite sx m e /\
        bounded prec emax m e = true /\ Zpos m * 2 ^ (e + 1074) = N)
     \/ (top <= N /\ x = S754_infinity sx)).

(** *** Valid floats and the order on their values *)

Definition mag (m : positive) (e : Z) : Z := Zpos m * 2 ^ (e + 1074).

(** *** Addition and subtraction *)

Definition signed (V N : Z) : Z := if V <? 0 then - N else N.

(** [r] is the outcome of rounding the exact scaled value [V]. *)
Definition sum_spec (V : Z) (r : float) : Prop :=
  exists N, rounded (Z.abs V) N /\
    ((N < top /\ isfinite r = true /\ valid r = true /\ val r = signed V N)
     \/ (top <= N /\ isfinite r = false)).

End B64.

(** ** The back-azimuth wrap (lines 80-84) *)

Module Wrap.
Import B64.

Definition zero : float := of_Z 0.

Definition f360 : float := of_Z 360.

(** [while cond(x): x = body(x)], cut off after [fuel] tests of the
    condition; [None] stands for a loop that is still running. *)
Fixpoint while_loop (fuel : nat) (cond : float -> bool) (body : float -> float)
    (x : float) : option float :=
  match fuel with
  | O => None
  | S fuel' => if cond x then while_loop fuel' cond body (body x) else Some x
  end.

(** The two adjustment loops applied to an already shifted back-azimuth. *)
Definition wrap_azimuth (fuel : nat) (v : float) : option float :=
  match while_loop fuel (fun x => ltb x zero) (fun x => add x f360) v with
  | None => None
  | Some v1 => while_loop fuel (fun x => leb f360 x) (fun x => sub x f360) v1
  end.

(** [tr.stats.back_azimuth += correction] followed by the two loops. *)
Definition rotate_azimuth (fuel : nat) (back_azimuth correction : float) : option float :=
  wrap_azimuth fuel (add back_azimuth correction).

(** Magnitude bound [2^55] under which every adjustment step is exact. *)
Definition band : float := of_Z (2 ^ 55).

Definition in_band (x : float) : bool := leb (SFopp band) x && leb x band.

(** Number of loop tests that suffice for a shifted value [v]. *)
Definition wrap_fuel (v : float) : nat := Z.to_nat (Z.abs (val v) / val f360) + 2.

Definition huge : float := of_Z (10 ^ 300).

(** *** Exact adjustment steps *)

Definition lim : Z := 2 ^ 1130.

End Wrap.

(** ** The angle sweep over one station (lines 61-106) *)

Module Sweep.
Import B64 Wrap.

(** Event identifiers and the header fields of an obspy trace that the
    analysis reads; [samples] stands for the waveform data. *)
Definition evid := string.

Record trace := mk_trace {
  back_azimuth : float;
  starttime : Z;
  endtime : Z;
  onset : Z;
  samples : list float
}.

(** A stream by value: the list of its traces, each an object of its
    own. A stream that holds one trace object twice is described by the
    store model of [Heap]. *)
Definition stream := list trace.

(** [db_evid]: event streams keyed by event ID, in iteration order. *)
Definition event_db := list (evid * stream).

Definition set_back_azimuth (b : float) (tr : trace) : trace :=
  {| back_azimuth := b; starttime := starttime tr; endtime := endtime tr;
     onset := onset tr; samples := samples tr |}.

Section Evaluator.

(** External collaborators: the receiver-function transform of
    [seismic.receiver_fn.generate_rf] and the [rf]/[numpy] chain of lines
    94-99 (select the R component, trim, detrend, taper, stack, trim,
    mean). [None] is Python's [None]. *)
Variable rf_trace : Type.

Variable config : Type.

Variable transform_stream_to_rf :
  evid -> stream -> config -> config -> option (list rf_trace).

Variable arrival_strength : list rf_trace -> float.

(** Lines 79-83 for one trace of the copied stream. *)
Definition rotate_trace (fuel : nat) (correction : float) (tr : trace) : option trace :=
  match rotate_azimuth fuel (back_azimuth tr) correction with
  | Some b => Some (set_back_azimuth b tr)
  | None => None
  end.

(** Lines 77-84: the rotated deep copy of one stream. *)
Fixpoint rotate_stream (fuel : nat) (correction : float) (s : stream) : option stream :=
  match s with
  | [] => Some []
  | tr :: rest =>
      match rotate_trace fuel correction tr with
      | None => None
      | Some tr' =>
          match rotate_stream fuel correction rest with
          | None => None
          | Some rest' => Some (tr' :: rest')
          end
      end
  end.

(** Lines 76-92: the loop over events, accumulating [rf_stream_all]. *)
Fixpoint collect_rf (fuel : nat) (correction : float) (cf cp : config)
    (db_evid : event_db) (rf_stream_all : list rf_trace) : option (list rf_trace) :=
  match db_evid with
  | [] => Some rf_stream_all
  | (ev, s) :: rest =>
      match rotate_stream fuel correction s with
      | None => None
      | Some stream_rot =>
          match transform_stream_to_rf ev stream_rot cf cp with
          | None => collect_rf fuel correction cf cp rest rf_stream_all
          | Some rf_3ch =>
              collect_rf fuel correction cf cp rest (rf_stream_all ++ rf_3ch)
          end
      end
  end.

(** Lines 93-102: the metric of one candidate angle. *)
Definition ampl_of (rf_stream_all : list rf_trace) : float :=
  if (0 <? length rf_stream_all)%nat then arrival_strength rf_stream_all else nan.

(** One iteration of the loop over [angles] (lines 75-103). *)
Definition sweep_angle (fuel : nat) (db_evid : event_db) (cf cp : config)
    (correction : float) : option float :=
  match collect_rf fuel correction cf cp db_evid [] with
  | None => None
  | Some rf_stream_all => Some (ampl_of rf_stream_all)
  end.

(** [_run_single_station]. *)
Fixpoint run_single_station (fuel : nat) (db_evid : event_db) (angles : list float)
    (cf cp : config) : option (list float) :=
  match angles with
  | [] => Some []
  | correction :: rest =>
      match sweep_angle fuel db_evid cf cp correction with
      | None => None
      | Some ampl_mean =>
          match run_single_station fuel db_evid rest cf cp with
          | None => None
          | Some ampls => Some (ampl_mean :: ampls)
          end
      end
  end.

(** What the sweep computes, stated without the loop: the rotated
    collection and the concatenation of the receiver functions that the
    transform returned. *)
Fixpoint rotate_db (fuel : nat) (correction : float) (db_evid : event_db)
    : option event_db :=
  match db_evid with
  | [] => Some []
  | (ev, s) :: rest =>
      match rotate_stream fuel correction s with
      | None => None
      | Some s' =>
          match rotate_db fuel correction rest with
          | None => None
          | Some rest' => Some ((ev, s') :: rest')
          end
      end
  end.

Definition contribution (cf cp : config) (e : evid * stream) : list rf_trace :=
  match transform_stream_to_rf (fst e) (snd e) cf cp with
  | Some rf_3ch => rf_3ch
  | None => []
  end.

Definition aggregate (cf cp : config) (db_rot : event_db) : list rf_trace :=
  flat_map (contribution cf cp) db_rot.

End Evaluator.

(** Back-azimuths the wrap is proved to handle, and the fuel they need. *)
Definition trace_ok (tr : trace) : bool :=
  valid (back_azimuth tr) && in_band (back_azimuth tr).

Definition db_ok (db_evid : event_db) : bool :=
  forallb (fun e => forallb trace_ok (snd e)) db_evid.

Definition angle_ok (a : float) : bool := valid a && in_band a.

Definition stream_fuel (correction : float) (s : stream) : nat :=
  list_max (map (fun tr => wrap_fuel (add (back_azimuth tr) correction)) s).

Definition sweep_fuel (db_evid : event_db) (correction : float) : nat :=
  list_max (map (fun e => stream_fuel correction (snd e)) db_evid).

Definition job_fuel (db_evid : event_db) (angles : list float) : nat :=
  list_max (map (sweep_fuel db_evid) angles).

Definition wrapped (tr : trace) : Prop :=
  leb zero (back_azimuth tr) = true /\ ltb (back_azimuth tr) f360 = true.

End Sweep.

(** ** The angle sweep over a store of waveform records *)

Module Heap.
Import B64 Wrap Sweep.

(** Trace objects live in a store; a stream object is the list of
    references to its traces, so that in-place updates and aliasing
    are visible. *)
Abbreviation loc := positive.

Abbreviation heap := (gmap positive trace).

Definition stream_ref := list loc.


#[export] Instance trace_inhabited : Inhabited trace :=
  populate (mk_trace nan 0 0 0 []).







Section StoreEvaluator.

Variable rf_trace : Type.

Variable config : Type.

Variable transform_stream_to_rf :
  evid -> stream -> config -> config -> option (list rf_trace).

Variable arrival_strength : list rf_trace -> float.

(** Lines 78-83: [for tr in stream_rot], updating each trace in place. *)
Fixpoint rotate_in_place (fuel : nat) (correction : float) (s : stream_ref)
    (h : heap) : option heap :=
  match s with
  | [] => Some h
  | l :: rest =>
      match rotate_trace fuel correction (h !!! l) with
      | None => None
      | Some tr' => rotate_in_place fuel correction rest (<[l := tr']> h)
      end
  end.




End StoreEvaluator.


End Heap.

(** ** The orchestrator (lines 109-241) *)

Module Orient.
Import B64 Wrap Sweep.

(** Modelled from the spec: [NetworkEventDataset]
    (seismic/network_event_dataset.py is not among the sources). "Station
    Event Collection: mapping from event ID to Event Waveform Record, all
    observed at one station. Grouped by station code within a
    network-scoped dataset."  Station codes are the keys of a dictionary,
    hence unique. *)
Record dataset := mk_dataset {
  network : string;
  db_sta : gmap string event_db
}.

(** [ned.by_station()]. *)
Definition by_station (ned : dataset) : list (string * event_db) :=
  map_to_list (db_sta ned).

(** [len(ned)]: the number of event streams of the dataset. *)
Definition ned_len (ned : dataset) : nat :=
  list_sum (map (fun p => length (snd p)) (by_station ned)).

(** [set([evid for _, evid, _ in ned])]. *)
Definition ned_evids (ned : dataset) : gset string :=
  list_to_set (flat_map (fun p => map fst (snd p)) (by_station ned)).

(** Python exceptions that the orchestrator can meet, and the outcome of a
    run: a value, an exception, or a loop that is still running when the
    fuel is spent. *)
Inductive exn := IndexError | FitError.

Inductive outcome (A : Type) :=
  | Ret (a : A)
  | Raise (e : exn)
  | Diverge.

Arguments Ret {A} a.

Arguments Raise {A} e.

Arguments Diverge {A}.

Definition bind {A B : Type} (m : outcome A) (k : A -> outcome B) : outcome B :=
  match m with
  | Ret a => k a
  | Raise e => Raise e
  | Diverge => Diverge
  end.

(** The result mapping: [results[code][key] = value]. *)
Inductive value :=
  | VList (items : list string)
  | VFloat (x : float).

Definition set_field (code key : string) (v : value)
    (results : gmap string (gmap string value)) : gmap string (gmap string value) :=
  <[code := <[key := v]> (default ∅ (results !! code))]> results.

Definition field (results : gmap string (gmap string value)) (code key : string)
    : option value :=
  match results !! code with
  | Some e => e !! key
  | None => None
  end.

(** ['.'.join([ned.network, sta])]. *)
Definition full_code (net sta : string) : string := net +:+ "." +:+ sta.

Inductive log_entry :=
  | LogTrimming
  | LogDownsampling
  | LogCurating
  | LogCuration (line : string)
  | LogDiscarded (discarded total : nat)
  | LogAnalysing
  | LogInsufficient (sta : string) (n_valid : nat)
  | LogEstimate (sta : string) (angle_max ph_uncertainty : float) (N : nat).

(** *** Candidate grids *)

(** [np.linspace(start, stop, num, endpoint)]. *)
Definition linspace (start stop : float) (num : nat) (endpoint : bool) : list float :=
  let dv := of_Z (Z.of_nat (if endpoint then num - 1 else num)) in
  let delta := sub stop start in
  let step := div delta dv in
  let y := map (fun i => of_Z (Z.of_nat i)) (seq 0 num) in
  let y := if SFeqb step zero
           then map (fun v => mul (div v dv) delta) y
           else map (fun v => mul v step) y in
  let y := map (fun v => add v start) y in
  if endpoint && (1 <? num)%nat then firstn (num - 1) y ++ [stop] else y.

Definition angles : list float :=
  linspace (of_Z (-180)) (of_Z 180) 20 false.

Definition angles_fine : list float :=
  linspace (of_Z (-180)) (of_Z 180) 361 true.

(** [np.hstack((angles, angles[0] + 360))]. *)
Definition x_grid : list float :=
  angles ++ [add (nth 0 angles nan) f360].

(** *** Date ranges (lines 139-156) *)

(** Times are [UTCDateTime] values in nanoseconds. *)
Definition first_or (cur : option Z) (s : stream) (f : trace -> Z) : outcome Z :=
  match cur with
  | Some t => Ret t
  | None => match s with
            | tr0 :: _ => Ret (f tr0)
            | [] => Raise IndexError
            end
  end.

(** One iteration of the loop over the events of a station. *)
Definition span_event (sp : option Z * option Z) (s : stream)
    : outcome (option Z * option Z) :=
  bind (first_or (fst sp) s starttime) (fun start_time =>
  bind (first_or (snd sp) s endtime) (fun end_time =>
  Ret (Some (fold_left (fun t tr => Z.min t (starttime tr)) s start_time),
       Some (fold_left (fun t tr => Z.max t (endtime tr)) s end_time)))).

Fixpoint span_events (sp : option Z * option Z) (db_evid : event_db)
    : outcome (option Z * option Z) :=
  match db_evid with
  | [] => Ret sp
  | (_, s) :: rest => bind (span_event sp s) (fun sp' => span_events sp' rest)
  end.

Definition station_span (db_evid : event_db) : outcome (option Z * option Z) :=
  span_events (None, None) db_evid.

(** The span [sp] covers the time window of the trace [tr]. *)
Definition within (sp : option Z * option Z) (tr : trace) : Prop :=
  match fst sp, snd sp with
  | Some lo, Some hi => lo <= starttime tr /\ endtime tr <= hi
  | _, _ => False
  end.

Section Analysis.

(** External collaborators. *)
Variable rf_trace : Type.

Variable config : Type.

Variable curation : Type.

Variable transform_stream_to_rf :
  evid -> stream -> config -> config -> option (list rf_trace).

Variable arrival_strength : list rf_trace -> float.

(** [str] of a [UTCDateTime]. *)
Variable utc_str : Z -> string.

(** [Stream.trim(t0, t1)] and the low-pass filter with Lanczos
    interpolation of lines 167-168. *)
Variable stream_trim : stream -> Z -> Z -> stream.

Variable downsample : stream -> stream.

(** [curate_seismograms] discards events of the dataset in place and is
    handed the logger: what it leaves is the new station table of the
    same dataset object, and the lines are what it logs. *)
Variable curate_seismograms :
  dataset -> curation -> gmap string event_db * list string.

(** [scipy.optimize.curve_fit] on the cosine model: the two fitted
    parameters and the phase variance [cov[1, 1]], or [None] when it
    raises. *)
Variable curve_fit : list float -> list float -> option (float * float * float).

Variable np_cos : float -> float.

(** [str(start_time)]. *)
Definition py_str (t : option Z) : string :=
  match t with
  | Some t => utc_str t
  | None => "None"
  end.

Definition date_range_of (sp : option Z * option Z) : value :=
  VList [py_str (fst sp); py_str (snd sp)].

(** The loop of lines 140-156 over [ned.by_station()]. *)
Fixpoint date_ranges (net : string) (stations : list (string * event_db))
    (results : gmap string (gmap string value))
    : outcome (gmap string (gmap string value)) :=
  match stations with
  | [] => Ret results
  | (sta, db_evid) :: rest =>
      bind (station_span db_evid) (fun sp =>
      date_ranges net rest
        (set_field (full_code net sta) "date_range" (date_range_of sp) results))
  end.

(** *** Preparation of the dataset (lines 158-174) *)

Definition second : Z := 1000000000.

(** The callable of line 162. *)
Definition trim_window (s : stream) : outcome stream :=
  match s with
  | tr0 :: _ => Ret (stream_trim s (onset tr0 - 10 * second) (onset tr0 + 30 * second))
  | [] => Raise IndexError
  end.

Definition is_ret {A : Type} (m : outcome A) : bool :=
  match m with Ret _ => true | _ => false end.

Definition get_ret {A : Type} (d : A) (m : outcome A) : A :=
  match m with Ret a => a | _ => d end.

Definition map_streams (f : stream -> stream) (ned : dataset) : dataset :=
  {| network := network ned;
     db_sta := (fun db => map (fun e => (fst e, f (snd e))) db) <$> db_sta ned |}.

Definition all_streams (ned : dataset) : list stream :=
  flat_map (fun p => map snd (snd p)) (by_station ned).

(** [ned.apply(callable)]: the callable updates every stream in place;
    an exception of the callable ends the run. *)
Definition ned_apply (f : stream -> outcome stream) (ned : dataset) : outcome dataset :=
  match find (fun s => negb (is_ret (f s))) (all_streams ned) with
  | Some s => match f s with Raise e => Raise e | _ => Diverge end
  | None => Ret (map_streams (fun s => get_ret s (f s)) ned)
  end.

(** *** Curve fitting and estimation (lines 189-238) *)

(** [np.argmax] over doubles: the first maximum, a NaN counting as
    maximal. *)
Fixpoint argmax_from (mp : float) (max_ind i : nat) (l : list float) : nat :=
  match l with
  | [] => max_ind
  | v :: rest =>
      if negb (leb v mp)
      then if isnan v then i else argmax_from v i (S i) rest
      else argmax_from mp max_ind (S i) rest
  end.

Definition np_argmax (l : list float) : nat :=
  match l with
  | [] => 0%nat
  | v :: rest => if isnan v then 0%nat else argmax_from v 0 1 rest
  end.

(** [x[mask]] with a boolean mask; numpy raises [IndexError] when the
    lengths differ. *)
Fixpoint mask_select (xs : list float) (mask : list bool) : option (list float) :=
  match xs, mask with
  | [], [] => Some []
  | x :: xs', b :: mask' =>
      match mask_select xs' mask' with
      | Some r => Some (if b then x :: r else r)
      | None => None
      end
  | _, _ => None
  end.

Definition pi_180 : float := S754_finite false 5030569068109113 (-58).

(** [np.deg2rad]. *)
Definition deg2rad (x : float) : float := mul x pi_180.

(** [_amp*np.cos(np.deg2rad(_x + _ph))]. *)
Definition cosine_model (amp ph x : float) : float :=
  mul amp (np_cos (deg2rad (add x ph))).

Definition y_fitted (A_fit ph_fit : float) : list float :=
  map (cosine_model A_fit ph_fit) angles_fine.

(** [angles_fine[np.argmax(y_fitted)]]. *)
Definition angle_max (A_fit ph_fit : float) : float :=
  nth (np_argmax (y_fitted A_fit ph_fit)) angles_fine nan.

(** [np.array(ampls + [ampls[0]])]. *)
Definition closed_curve (ampls : list float) : outcome (list float) :=
  match ampls with
  | a0 :: _ => Ret (ampls ++ [a0])
  | [] => Raise IndexError
  end.

(** [np.sum(np.isfinite(y))]. *)
Definition n_valid (y : list float) : nat :=
  length (filter (fun b : bool => b) (map isfinite y)).

(** The body of the loop of lines 191-238 for one station. The cubic
    spline of lines 203-209 and the plot of lines 220-237 only feed the
    optional figure and are left out; the spline is periodic exactly
    when [y[0]] is finite, in which case the closing sample is kept too. *)
Definition estimate_station (net : string)
    (st : gmap string (gmap string value) * list log_entry)
    (m : string * nat * list float)
    : outcome (gmap string (gmap string value) * list log_entry) :=
  let '(sta, N, ampls) := m in
  bind (closed_curve ampls) (fun y =>
  let mask := map isfinite y in
  if (n_valid y <? 5)%nat
  then Ret (fst st, snd st ++ [LogInsufficient sta (n_valid y)])
  else
    match mask_select x_grid mask, mask_select y mask with
    | Some x_valid, Some y_valid =>
        match curve_fit x_valid y_valid with
        | None => Raise FitError
        | Some (A_fit, ph_fit, cov11) =>
            let ph_uncertainty := SFsqrt prec emax cov11 in
            let a := angle_max A_fit ph_fit in
            Ret (set_field (full_code net sta) "azimuth_correction" (VFloat a) (fst st),
                 snd st ++ [LogEstimate sta a ph_uncertainty N])
        end
    | _, _ => Raise IndexError
    end).

Fixpoint estimate_all (net : string)
    (st : gmap string (gmap string value) * list log_entry)
    (sta_ori_metrics : list (string * nat * list float))
    : outcome (gmap string (gmap string value) * list log_entry) :=
  match sta_ori_metrics with
  | [] => Ret st
  | m :: rest => bind (estimate_station net st m) (fun st' => estimate_all net st' rest)
  end.

(** *** Dispatch (lines 178-187) *)

(** [job_runner(jobs)]: the curves of the stations, in submission order;
    the jobs are run one after the other here. *)
Fixpoint run_jobs (fuel : nat) (cf cp : config) (jobs : list (string * event_db))
    : outcome (list (list float)) :=
  match jobs with
  | [] => Ret []
  | (_, db_evid) :: rest =>
      match run_single_station rf_trace config transform_stream_to_rf
              arrival_strength fuel db_evid angles cf cp with
      | None => Diverge
      | Some ampls => bind (run_jobs fuel cf cp rest) (fun r => Ret (ampls :: r))
      end
  end.

Definition sta_metrics (jobs : list (string * event_db)) (sta_ampls : list (list float))
    : list (string * nat * list float) :=
  map (fun p => (fst (fst p), length (snd (fst p)), snd p)) (combine jobs sta_ampls).

(** *** The orchestrator *)

Record run := mk_run {
  results : gmap string (gmap string value);
  ned_after : dataset;
  log : list log_entry
}.

Definition analyze_station_orientations (fuel : nat) (ned : dataset)
    (curation_opts : curation) (config_filtering config_processing : config)
    : outcome run :=
  if (ned_len ned =? 0)%nat
  then Ret {| results := ∅; ned_after := ned; log := [] |}
  else
    bind (date_ranges (network ned) (by_station ned) ∅) (fun res =>
    let evids_orig := ned_evids ned in
    bind (ned_apply trim_window ned) (fun ned1 =>
    let ned2 := map_streams downsample ned1 in
    let ned3 := {| network := network ned2;
                   db_sta := fst (curate_seismograms ned2 curation_opts) |} in
    let evids_to_keep := ned_evids ned3 in
    let evids_discarded := evids_orig ∖ evids_to_keep in
    let lg := [LogTrimming; LogDownsampling; LogCurating]
              ++ map LogCuration (snd (curate_seismograms ned2 curation_opts))
              ++ [LogDiscarded (size evids_discarded) (size evids_orig);
                  LogAnalysing] in
    bind (run_jobs fuel config_filtering config_processing (by_station ned3))
      (fun sta_ampls =>
    bind (estimate_all (network ned3) (res, lg)
            (sta_metrics (by_station ned3) sta_ampls)) (fun st =>
    Ret {| results := fst st; ned_after := ned3; log := snd st |})))).

(** The angle that the fit of a closed curve [y] yields, when it succeeds. *)
Definition fitted_angle (y : list float) : option float :=
  match mask_select x_grid (map isfinite y), mask_select y (map isfinite y) with
  | Some x_valid, Some y_valid =>
      match curve_fit x_valid y_valid with
      | Some (A_fit, ph_fit, _) => Some (angle_max A_fit ph_fit)
      | None => None
      end
  | _, _ => None
  end.

Definition station_of (m : string * nat * list float) : string := fst (fst m).

Definition job_curve (fuel : nat) (cf cp : config) (db_evid : event_db)
    : option (list float) :=
  run_single_station rf_trace config transform_stream_to_rf arrival_strength
                     fuel db_evid angles cf cp.

(** The curated dataset that the stations are analysed on. *)
Definition curated (ned1 : dataset) (curation_opts : curation) : dataset :=
  {| network := network (map_streams downsample ned1);
     db_sta := fst (curate_seismograms (map_streams downsample ned1) curation_opts) |}.

End Analysis.

End Orient.

(** ** Sample data *)

Module Demo.
Import B64 Wrap Sweep Heap Orient.

(** A double given by its signed mantissa and its exponent. *)
Definition fl (m e : Z) : float :=
  match m with
  | Z0 => S754_zero false
  | Zpos p => S754_finite false p e
  | Zneg p => S754_finite true p e
  end.

(** Stand-ins for the external collaborators: a receiver function is
    summarised by one number, the transform has no result for the event
    [quiet], the strength of an aggregate is its first entry, and the
    curation keeps every event and logs one line. *)
Definition demo_transform (ev : evid) (s : stream) (cf cp : unit)
    : option (list float) :=
  if String.eqb ev "quiet" then None else Some (map back_azimuth s).

Definition demo_strength (rfs : list float) : float := hd nan rfs.

Definition demo_utc (t : Z) : string := pretty t.

Definition demo_trim (s : stream) (t0 t1 : Z) : stream := s.

Definition demo_downsample (s : stream) : stream := s.

Definition demo_curate (ned : dataset) (opts : unit)
    : gmap string event_db * list string :=
  (db_sta ned, ["all events kept"]).

(** A fit that returns the amplitude -0.5 and the phase 0.074. *)
Definition fit_A : float := fl (-4503599627370496) (-53).

Definition fit_ph : float := fl 5332261958806667 (-56).

Definition demo_fit (xs ys : list float) : option (float * float * float) :=
  Some (fit_A, fit_ph, of_Z 4).

(** The cosine on the 361 arguments [deg2rad (x + fit_ph)], [x] in
    [angles_fine], as the C library computes it: argument mantissa and
    exponent, value mantissa and exponent. *)
Definition cos_rows : list (Z * Z * Z * Z) := [
  (-7071329454285939, -51, -9007191742355093, -53); (-7032028133441337, -51, -9005616876304893, -53);
  (-6992726812596734, -51, -9001298812114801, -53); (-6953425491752132, -51, -8994238865108999, -53);
  (-6914124170907529, -51, -8984439185815737, -53); (-6874822850062927, -51, -8971902759312258, -53);
  (-6835521529218324, -51, -8956633404315519, -53); (-6796220208373722, -51, -8938635772018970, -53);
  (-6756918887529120, -51, -8917915344675755, -53); (-6717617566684517, -51, -8894478433928765, -53);
  (-6678316245839915, -51, -8868332178888054, -53); (-6639014924995312, -51, -8839484543956190, -53);
  (-6599713604150710, -51, -8807944316402228, -53); (-6560412283306107, -51, -8773721103685017, -53);
  (-6521110962461505, -51, -8736825330526679, -53); (-6481809641616902, -51, -8697268235737134, -53);
  (-6442508320772300, -51, -8655061868790656, -53); (-6403206999927698, -51, -8610219086155477, -53);
  (-6363905679083095, -51, -8562753547377589, -53); (-6324604358238493, -51, -8512679710919915, -53);
  (-6285303037393890, -51, -8460012829758113, -53); (-6246001716549288, -51, -8404768946734383, -53);
  (-6206700395704685, -51, -8346964889670652, -53); (-6167399074860083, -51, -8286618266242664, -53);
  (-6128097754015480, -51, -8223747458616504, -53); (-6088796433170878, -51, -8158371617849220, -53);
  (-6049495112326276, -51, -8090510658055218, -53); (-6010193791481673, -51, -8020185250340235, -53);
  (-5970892470637071, -51, -7947416816504721, -53); (-5931591149792468, -51, -7872227522518542, -53);
  (-5892289828947866, -51, -7794640271769025, -53); (-5852988508103263, -51, -7714678698084350, -53);
  (-5813687187258661, -51, -7632367158534470, -53); (-5774385866414058, -51, -7547730726011697, -53);
  (-5735084545569456, -51, -7460795181593274, -53); (-5695783224724854, -51, -7371587006688191, -53);
  (-5656481903880251, -51, -7280133374970703, -53); (-5617180583035649, -51, -7186462144102965, -53);
  (-5577879262191046, -51, -7090601847249309, -53); (-5538577941346444, -51, -6992581684384781, -53);
  (-5499276620501841, -51, -6892431513400526, -53); (-5459975299657239, -51, -6790181841008810, -53);
  (-5420673978812636, -51, -6685863813450350, -53); (-5381372657968034, -51, -6579509207006900, -53);
  (-5342071337123431, -51, -6471150418321855, -53); (-5302770016278829, -51, -6360820454531951, -53);
  (-5263468695434227, -51, -6248552923212945, -53); (-5224167374589624, -51, -6134382022142434, -53);
  (-5184866053745022, -51, -6018342528882889, -53); (-5145564732900419, -51, -5900469790188049, -53);
  (-5106263412055817, -51, -5780799711235987, -53); (-5066962091211214, -51, -5659368744692015, -53);
  (-5027660770366612, -51, -5536213879604877, -53); (-4988359449522010, -51, -5411372630139503, -53);
  (-4949058128677408, -51, -5284883024149845, -53); (-4909756807832805, -51, -5156783591595217, -53);
  (-4870455486988203, -51, -5027113352803707, -53); (-4831154166143600, -51, -4895911806586190, -53);
  (-4791852845298998, -51, -4763218918204627, -53); (-4752551524454395, -51, -4629075107198237, -53);
  (-4713250203609793, -51, -8987042470142683, -54); (-4673948882765190, -51, -8713197185693043, -54);
  (-4634647561920588, -51, -8436697776974012, -54); (-4595346241075986, -51, -8157628468383988, -54);
  (-4556044920231383, -51, -7876074267137766, -54); (-4516743599386781, -51, -7592120937372536, -54);
  (-8954884557084357, -52, -7305854974023252, -54); (-8876281915395152, -52, -7017363576475474, -54);
  (-8797679273705947, -52, -6726734622003575, -54); (-8719076632016742, -52, -6434056639002471, -54);
  (-8640473990327537, -52, -6139418780021021, -54); (-8561871348638332, -52, -5842910794605292, -54);
  (-8483268706949127, -52, -5544623001959978, -54); (-8404666065259922, -52, -5244646263436298, -54);
  (-8326063423570717, -52, -4943071954854746, -54); (-8247460781881513, -52, -4639991938671135, -54);
  (-8168858140192308, -52, -8670997071988782, -55); (-8090255498503103, -52, -8059368996929330, -55);
  (-8011652856813898, -52, -7445285960000554, -55); (-7933050215124693, -52, -6828935016844256, -55);
  (-7854447573435488, -52, -6210503913928449, -55); (-7775844931746283, -52, -5590181031357957, -55);
  (-7697242290057078, -52, -4968155325492013, -55); (-7618639648367873, -52, -8689232542772647, -56);
  (-7540037006678668, -52, -7439507610154254, -56); (-7461434364989464, -52, -6187516531449695, -56);
  (-7382831723300259, -52, -4933640675269821, -56); (-7304229081611054, -52, -7356523968694021, -57);
  (-7225626439921849, -52, -4843525718383288, -57); (-7147023798232644, -52, -4658104166436895, -58);
  (-7068421156543439, -52, 5956192120735204, -62); (-6989818514854234, -52, 5402514786915114, -58);
  (-6911215873165029, -52, 5215560953972424, -57); (-6832613231475824, -52, 7728275804096437, -57);
  (-6754010589786620, -52, 5119318273272501, -56); (-6675407948097415, -52, 6372939250558811, -56);
  (-6596805306408210, -52, 7624618968813352, -56); (-6518202664719005, -52, 8873976154268650, -56);
  (-6439600023029800, -52, 5060315120311610, -55); (-6360997381340595, -52, 5682100742482875, -55);
  (-6282394739651390, -52, 6302155541724234, -55); (-6203792097962185, -52, 6920290643337232, -55);
  (-6125189456272980, -52, 7536317757381909, -55); (-6046586814583776, -52, 8150049236031730, -55);
  (-5967984172894571, -52, 8761298130732964, -55); (-5889381531205366, -52, 4684939124575488, -54);
  (-5810778889516161, -52, 4987802105943123, -54); (-5732176247826956, -52, 5289145754471365, -54);
  (-5653573606137751, -52, 5588878277965689, -54); (-5574970964448546, -52, 5886908374995865, -54);
  (-5496368322759341, -52, 6183145262707256, -54); (-5417765681070136, -52, 6477498704474153, -54);
  (-5339163039380932, -52, 6769879037386724, -54); (-5260560397691727, -52, 7060197199563220, -54);
  (-5181957756002522, -52, 7348364757279063, -54); (-5103355114313317, -52, 7634293931904631, -54);
  (-5024752472624112, -52, 7917897626643475, -54); (-4946149830934907, -52, 8199089453062847, -54);
  (-4867547189245702, -52, 8477783757408453, -54); (-4788944547556497, -52, 8753895646695417, -54);
  (-4710341905867292, -52, 4513670507283753, -53); (-4631739264178088, -52, 4649018283458369, -53);
  (-4553136622488883, -52, 4782949923627794, -53); (-8949067961599356, -53, 4915424630917006, -53);
  (-8791862678220946, -53, 5046402052246853, -53); (-8634657394842536, -53, 5175842290625991, -53);
  (-8477452111464126, -53, 5303705917303894, -53); (-8320246828085716, -53, 5429953983781234, -53);
  (-8163041544707307, -53, 5554548033673968, -53); (-8005836261328897, -53, 5677450114427530, -53);
  (-7848630977950487, -53, 5798622788877543, -53); (-7691425694572077, -53, 5918029146653545, -53);
  (-7534220411193667, -53, 6035632815422239, -53); (-7377015127815258, -53, 6151397971966868, -53);
  (-7219809844436848, -53, 6265289353099306, -53); (-7062604561058438, -53, 6377272266401569, -53);
  (-6905399277680028, -53, 6487312600793462, -53); (-6748193994301619, -53, 6595376836923145, -53);
  (-6590988710923209, -53, 6701432057377452, -53); (-6433783427544799, -53, 6805445956708851, -53);
  (-6276578144166389, -53, 6907386851276002, -53); (-6119372860787979, -53, 7007223688894895, -53);
  (-5962167577409570, -53, 7104926058297649, -53); (-5804962294031160, -53, 7200464198396083, -53);
  (-5647757010652750, -53, 7293809007347223, -53); (-5490551727274340, -53, 7384932051418010, -53);
  (-5333346443895931, -53, 7473805573646491, -53); (-5176141160517521, -53, 7560402502296860, -53);
  (-5018935877139110, -53, 7644696459105766, -53); (-4861730593760701, -53, 7726661767317390, -53);
  (-4704525310382291, -53, 7806273459504837, -53); (-4547320027003881, -53, 7883507285175449, -53);
  (-8780229487250943, -54, 7958339718157747, -53); (-8465818920494123, -54, 8030747963767726, -53);
  (-8151408353737303, -54, 8100709965752339, -53); (-7836997786980484, -54, 8168204413008044, -53);
  (-7522587220223664, -54, 8233210746072374, -53); (-7208176653466845, -54, 8295709163386547, -53);
  (-6893766086710025, -54, 8355680627327213, -53); (-6579355519953206, -54, 8413106870005500, -53);
  (-6264944953196386, -54, 8467970398831587, -53); (-5950534386439567, -54, 8520254501843118, -53);
  (-5636123819682747, -54, 8569943252795829, -53); (-5321713252925927, -54, 8617021516014835, -53);
  (-5007302686169108, -54, 8661474951005100, -53); (-4692892119412289, -54, 8703290016819697, -53);
  (-8756963105310939, -55, 8742453976184508, -53); (-8128141971797299, -55, 8778954899378119, -53);
  (-7499320838283660, -55, 8812781667865734, -53); (-6870499704770021, -55, 8843923977685984, -53);
  (-6241678571256382, -55, 8872372342589616, -53); (-5612857437742743, -55, 8898118096929094, -53);
  (-4984036304229104, -55, 8921153398298242, -53); (-8710430341430929, -56, 8941471229921114, -53);
  (-7452788074403651, -56, 8959065402789376, -53); (-6195145807376373, -56, 8973930557547533, -53);
  (-4937503540349095, -56, 8986062166125444, -53); (-7359722546643633, -57, 8995456533117614, -53);
  (-4844438012589076, -57, 9002110796908852, -53); (-4658306957069039, -58, 9006022930545947, -53);
  (5956193776641189, -62, 9007191742355094, -53); (5402831179149188, -58, 9005616876304893, -53);
  (5216700123629150, -57, 9001298812114801, -53); (7731984657683706, -57, 8994238865108999, -53);
  (5123634595869131, -56, 8984439185815737, -53); (6381276862896410, -56, 8971902759312258, -53);
  (7638919129923688, -56, 8956633404315520, -53); (8896561396950966, -56, 8938635772018970, -53);
  (5077101831989122, -55, 8917915344675755, -53); (5705922965502761, -55, 8894478433928766, -53);
  (6334744099016400, -55, 8868332178888054, -53); (6963565232530040, -55, 8839484543956190, -53);
  (7592386366043679, -55, 8807944316402228, -53); (8221207499557318, -55, 8773721103685017, -53);
  (8850028633070957, -55, 8736825330526679, -53); (4739424883292298, -54, 8697268235737135, -53);
  (5053835450049118, -54, 8655061868790657, -53); (5368246016805938, -54, 8610219086155477, -53);
  (5682656583562757, -54, 8562753547377590, -53); (5997067150319577, -54, 8512679710919915, -53);
  (6311477717076396, -54, 8460012829758114, -53); (6625888283833216, -54, 8404768946734384, -53);
  (6940298850590036, -54, 8346964889670653, -53); (7254709417346855, -54, 8286618266242665, -53);
  (7569119984103675, -54, 8223747458616505, -53); (7883530550860494, -54, 8158371617849221, -53);
  (8197941117617314, -54, 8090510658055218, -53); (8512351684374133, -54, 8020185250340236, -53);
  (8826762251130953, -54, 7947416816504721, -53); (4570586408943886, -53, 7872227522518543, -53);
  (4727791692322296, -53, 7794640271769026, -53); (4884996975700706, -53, 7714678698084352, -53);
  (5042202259079115, -53, 7632367158534471, -53); (5199407542457525, -53, 7547730726011699, -53);
  (5356612825835935, -53, 7460795181593275, -53); (5513818109214344, -53, 7371587006688192, -53);
  (5671023392592754, -53, 7280133374970705, -53); (5828228675971164, -53, 7186462144102966, -53);
  (5985433959349574, -53, 7090601847249311, -53); (6142639242727983, -53, 6992581684384782, -53);
  (6299844526106393, -53, 6892431513400529, -53); (6457049809484803, -53, 6790181841008811, -53);
  (6614255092863213, -53, 6685863813450353, -53); (6771460376241623, -53, 6579509207006901, -53);
  (6928665659620032, -53, 6471150418321859, -53); (7085870942998442, -53, 6360820454531953, -53);
  (7243076226376852, -53, 6248552923212946, -53); (7400281509755262, -53, 6134382022142436, -53);
  (7557486793133672, -53, 6018342528882889, -53); (7714692076512081, -53, 5900469790188052, -53);
  (7871897359890491, -53, 5780799711235989, -53); (8029102643268901, -53, 5659368744692018, -53);
  (8186307926647311, -53, 5536213879604879, -53); (8343513210025720, -53, 5411372630139504, -53);
  (8500718493404130, -53, 5284883024149845, -53); (8657923776782540, -53, 5156783591595218, -53);
  (8815129060160950, -53, 5027113352803706, -53); (8972334343539360, -53, 4895911806586190, -53);
  (4564769813458885, -52, 4763218918204626, -53); (4643372455148090, -52, 4629075107198238, -53);
  (4721975096837294, -52, 8987042470142685, -54); (4800577738526499, -52, 8713197185693049, -54);
  (4879180380215704, -52, 8436697776974014, -54); (4957783021904909, -52, 8157628468383987, -54);
  (5036385663594114, -52, 7876074267137768, -54); (5114988305283319, -52, 7592120937372534, -54);
  (5193590946972524, -52, 7305854974023250, -54); (5272193588661729, -52, 7017363576475473, -54);
  (5350796230350934, -52, 6726734622003573, -54); (5429398872040138, -52, 6434056639002473, -54);
  (5508001513729343, -52, 6139418780021023, -54); (5586604155418548, -52, 5842910794605294, -54);
  (5665206797107753, -52, 5544623001959980, -54); (5743809438796958, -52, 5244646263436300, -54);
  (5822412080486163, -52, 4943071954854748, -54); (5901014722175368, -52, 4639991938671134, -54);
  (5979617363864573, -52, 8670997071988778, -55); (6058220005553778, -52, 8059368996929327, -55);
  (6136822647242982, -52, 7445285960000558, -55); (6215425288932187, -52, 6828935016844260, -55);
  (6294027930621392, -52, 6210503913928453, -55); (6372630572310597, -52, 5590181031357961, -55);
  (6451233213999802, -52, 4968155325492018, -55); (6529835855689007, -52, 8689232542772656, -56);
  (6608438497378212, -52, 7439507610154262, -56); (6687041139067417, -52, 6187516531449687, -56);
  (6765643780756622, -52, 4933640675269814, -56); (6844246422445826, -52, 7356523968694039, -57);
  (6922849064135031, -52, 4843525718383306, -57); (7001451705824236, -52, 4658104166436931, -58);
  (7080054347513441, -52, -5956192120734640, -62); (7158656989202646, -52, -5402514786915079, -58);
  (7237259630891851, -52, -5215560953972406, -57); (7315862272581056, -52, -7728275804096420, -57);
  (7394464914270261, -52, -5119318273272508, -56); (7473067555959466, -52, -6372939250558818, -56);
  (7551670197648671, -52, -7624618968813359, -56); (7630272839337875, -52, -8873976154268641, -56);
  (7708875481027080, -52, -5060315120311606, -55); (7787478122716285, -52, -5682100742482871, -55);
  (7866080764405490, -52, -6302155541724230, -55); (7944683406094695, -52, -6920290643337228, -55);
  (8023286047783900, -52, -7536317757381905, -55); (8101888689473105, -52, -8150049236031733, -55);
  (8180491331162310, -52, -8761298130732967, -55); (8259093972851515, -52, -4684939124575489, -54);
  (8337696614540719, -52, -4987802105943121, -54); (8416299256229924, -52, -5289145754471363, -54);
  (8494901897919129, -52, -5588878277965687, -54); (8573504539608334, -52, -5886908374995863, -54);
  (8652107181297539, -52, -6183145262707254, -54); (8730709822986744, -52, -6477498704474151, -54);
  (8809312464675949, -52, -6769879037386726, -54); (8887915106365154, -52, -7060197199563222, -54);
  (8966517748054359, -52, -7348364757279065, -54); (4522560194871782, -51, -7634293931904633, -54);
  (4561861515716384, -51, -7917897626643473, -54); (4601162836560987, -51, -8199089453062849, -54);
  (4640464157405589, -51, -8477783757408451, -54); (4679765478250191, -51, -8753895646695411, -54);
  (4719066799094794, -51, -4513670507283752, -53); (4758368119939396, -51, -4649018283458368, -53);
  (4797669440783999, -51, -4782949923627795, -53); (4836970761628601, -51, -4915424630917005, -53);
  (4876272082473204, -51, -5046402052246854, -53); (4915573403317806, -51, -5175842290625990, -53);
  (4954874724162409, -51, -5303705917303895, -53); (4994176045007011, -51, -5429953983781233, -53);
  (5033477365851614, -51, -5554548033673969, -53); (5072778686696217, -51, -5677450114427533, -53);
  (5112080007540819, -51, -5798622788877545, -53); (5151381328385421, -51, -5918029146653545, -53);
  (5190682649230024, -51, -6035632815422241, -53); (5229983970074626, -51, -6151397971966868, -53);
  (5269285290919229, -51, -6265289353099308, -53); (5308586611763831, -51, -6377272266401569, -53);
  (5347887932608434, -51, -6487312600793464, -53); (5387189253453036, -51, -6595376836923146, -53);
  (5426490574297639, -51, -6701432057377454, -53); (5465791895142241, -51, -6805445956708852, -53);
  (5505093215986843, -51, -6907386851276002, -53); (5544394536831446, -51, -7007223688894896, -53);
  (5583695857676048, -51, -7104926058297650, -53); (5622997178520651, -51, -7200464198396085, -53);
  (5662298499365253, -51, -7293809007347223, -53); (5701599820209856, -51, -7384932051418011, -53);
  (5740901141054458, -51, -7473805573646492, -53); (5780202461899061, -51, -7560402502296862, -53);
  (5819503782743663, -51, -7644696459105767, -53); (5858805103588265, -51, -7726661767317390, -53);
  (5898106424432868, -51, -7806273459504838, -53); (5937407745277470, -51, -7883507285175449, -53);
  (5976709066122073, -51, -7958339718157748, -53); (6016010386966675, -51, -8030747963767726, -53);
  (6055311707811278, -51, -8100709965752340, -53); (6094613028655880, -51, -8168204413008044, -53);
  (6133914349500483, -51, -8233210746072375, -53); (6173215670345085, -51, -8295709163386548, -53);
  (6212516991189687, -51, -8355680627327213, -53); (6251818312034290, -51, -8413106870005501, -53);
  (6291119632878892, -51, -8467970398831587, -53); (6330420953723495, -51, -8520254501843119, -53);
  (6369722274568097, -51, -8569943252795830, -53); (6409023595412700, -51, -8617021516014836, -53);
  (6448324916257302, -51, -8661474951005100, -53); (6487626237101905, -51, -8703290016819698, -53);
  (6526927557946507, -51, -8742453976184508, -53); (6566228878791109, -51, -8778954899378119, -53);
  (6605530199635712, -51, -8812781667865734, -53); (6644831520480314, -51, -8843923977685984, -53);
  (6684132841324917, -51, -8872372342589616, -53); (6723434162169519, -51, -8898118096929094, -53);
  (6762735483014122, -51, -8921153398298242, -53); (6802036803858724, -51, -8941471229921114, -53);
  (6841338124703327, -51, -8959065402789377, -53); (6880639445547929, -51, -8973930557547533, -53);
  (6919940766392531, -51, -8986062166125444, -53); (6959242087237134, -51, -8995456533117614, -53);
  (6998543408081736, -51, -9002110796908852, -53); (7037844728926339, -51, -9006022930545947, -53);
  (7077146049770941, -51, -9007191742355094, -53)
].

Definition demo_cos (x : float) : float :=
  match find (fun r => SFeqb (fl (fst (fst (fst r))) (snd (fst (fst r)))) x) cos_rows with
  | Some r => fl (snd (fst r)) (snd r)
  | None => nan
  end.

(** Two stations of the network AU: one event with a usable receiver
    function at the first, one event without at the second. *)
Definition tr1 : trace := mk_trace (of_Z 350) 10 50 20 [].

Definition tr2 : trace := mk_trace (of_Z 10) 5 70 25 [].

Definition demo_ned : dataset :=
  {| network := "AU";
     db_sta := <["STA1" := [("ev1", [tr1])] ]> (<["STA2" := [("quiet", [tr2])] ]> ∅) |}.

(** A dataset with a station and no event. *)
Definition empty_ned : dataset :=
  {| network := "AU"; db_sta := <["STA1" := [] ]> ∅ |}.

Definition demo_run (ned : dataset) : outcome (run) :=
  analyze_station_orientations float unit unit demo_transform demo_strength
    demo_utc demo_trim demo_downsample demo_curate demo_fit demo_cos
    4 ned tt tt tt.

Definition blank_run : run := {| results := ∅; ned_after := empty_ned; log := [] |}.

Definition demo_out : run := get_ret blank_run (demo_run demo_ned).

(** The curve of the first station and its closure. *)
Definition demo_ampls : list float :=
  default [] (job_curve float unit demo_transform demo_strength 4 tt tt
                [("ev1", [tr1])]).

Definition demo_y : list float := demo_ampls ++ [nth 0 demo_ampls nan].



End Demo.

(** ** Vocabulary for further properties *)

Module Terms.
Import B64 Wrap Sweep Heap Orient.

(** Some trace of the collection starts (ends) at the time [t]. *)
Definition starts_in (db : event_db) (t : Z) : Prop :=
  exists e tr, In e db /\ In tr (snd e) /\ starttime tr = t.

Definition ends_in (db : event_db) (t : Z) : Prop :=
  exists e tr, In e db /\ In tr (snd e) /\ endtime tr = t.

(** The line that the loop of lines 191-238 logs for a station [sta]
    with [N] events: the shortage with the count of finite samples, or
    the estimate with its uncertainty and [N]. *)
Definition station_line (sta : string) (N : nat) (e : log_entry) : Prop :=
  (exists n, e = LogInsufficient sta n /\ (n < 5)%nat) \/
  (exists a u, e = LogEstimate sta a u N).

End Terms.

(** ** More sample data *)

Module Sample.
Import B64 Wrap Sweep Heap Orient Demo Terms.

(** A curve with four finite amplitudes, the first among them. *)
Definition four_finite : list float :=
  [of_Z 1; of_Z 2; of_Z 3; of_Z 4] ++ repeat nan 16.

(** A station whose first event has no trace. *)
Definition broken_ned : dataset :=
  {| network := "AU"; db_sta := <["STA1" := [("ev0", []); ("ev1", [tr1])] ]> ∅ |}.

(** One event of two traces and one event of one trace. *)
Definition tr3 : trace := mk_trace (of_Z 350) 3 40 20 [].

Definition tr4 : trace := mk_trace (of_Z 350) 12 90 20 [].

Definition three_traces : event_db := [("ev1", [tr1; tr3]); ("ev2", [tr4])].

(** A trace with the back-azimuth 1e300, and a store in which one
    stream holds the same trace object twice. *)
Definition tr_huge : trace := mk_trace huge 10 50 20 [].



End Sample.

(** * Part II: properties of the model *)

(** ** Binary64 arithmetic: facts *)

Module B64Facts.
Import B64.

(** *** Digits *)

Lemma digits_bounds (p : positive) :
  2 ^ (digits p - 1) <= Zpos p < 2 ^ digits p.
Proof.
  assert (Hstep : forall d, 1 <= d ->
            2 ^ (Z.succ d - 1) = 2 * 2 ^ (d - 1) /\ 2 ^ Z.succ d = 2 * 2 ^ d).
  { intros d Hd. split.
    - replace (Z.succ d - 1) with (Z.succ (d - 1)) by lia.
      apply Z.pow_succ_r. lia.
    - apply Z.pow_succ_r. lia. }
  unfold digits. induction p as [p IH|p IH|]; simpl digits2_pos.
  - rewrite Pos2Z.inj_succ, (Pos2Z.inj_xI p).
    destruct (Hstep (Zpos (digits2_pos p))) as [-> ->]; lia.
  - rewrite Pos2Z.inj_succ, (Pos2Z.inj_xO p).
    destruct (Hstep (Zpos (digits2_pos p))) as [-> ->]; lia.
  - simpl. lia.
Qed.

Lemma digits_pos (p : positive) : 1 <= digits p.
Proof. unfold digits. lia. Qed.

Lemma digits_unique (p : positive) (d : Z) :
  2 ^ (d - 1) <= Zpos p < 2 ^ d -> digits p = d.
Proof.
  intros [Hl Hu]. pose proof (digits_bounds p) as [Bl Bu].
  pose proof (digits_pos p) as Hp.
  destruct (Z.lt_trichotomy (digits p) d) as [Hlt|[Heq|Hgt]]; [|exact Heq|].
  - assert (2 ^ digits p <= 2 ^ (d - 1)) by (apply Z.pow_le_mono_r; lia). lia.
  - assert (0 <= d \/ d < 0) as [Hd|Hd] by lia.
    + assert (2 ^ d <= 2 ^ (digits p - 1)) by (apply Z.pow_le_mono_r; lia). lia.
    + rewrite (Z.pow_neg_r 2 d) in Hu by lia. lia.
Qed.

Lemma digits_le (p q : positive) : Zpos p <= Zpos q -> digits p <= digits q.
Proof.
  intros Hle. pose proof (digits_bounds p) as [Bl _].
  pose proof (digits_bounds q) as [_ Bu]. pose proof (digits_pos q).
  destruct (Z_le_gt_dec (digits p) (digits q)) as [H'|H']; [exact H'|].
  assert (2 ^ digits q <= 2 ^ (digits p - 1)) by (apply Z.pow_le_mono_r; lia). lia.
Qed.

Lemma digits_lt_pow (p : positive) (d : Z) : Zpos p < 2 ^ d -> digits p <= d.
Proof.
  intros Hlt. pose proof (digits_bounds p) as [Bl _]. pose proof (digits_pos p).
  destruct (Z_le_gt_dec (digits p) d) as [H'|H']; [exact H'|].
  assert (0 <= d \/ d < 0) as [Hd|Hd] by lia.
  - assert (2 ^ d <= 2 ^ (digits p - 1)) by (apply Z.pow_le_mono_r; lia). lia.
  - rewrite (Z.pow_neg_r 2 d) in Hlt by lia. lia.
Qed.

Lemma digits_mul_pow (p q : positive) (k : Z) :
  0 <= k -> Zpos q = Zpos p * 2 ^ k -> digits q = digits p + k.
Proof.
  intros Hk Hq. apply digits_unique. rewrite Hq.
  pose proof (digits_bounds p) as [Bl Bu]. pose proof (digits_pos p).
  replace (digits p + k - 1) with (digits p - 1 + k) by lia.
  rewrite !Z.pow_add_r by lia.
  assert (0 < 2 ^ k) by (apply Z.pow_pos_nonneg; lia). nia.
Qed.

(** *** Shifting mantissas *)

Lemma iter_xO_val (p d : positive) :
  Zpos (Pos.iter xO p d) = Zpos p * 2 ^ Zpos d.
Proof.
  induction d as [|d IH] using Pos.peano_ind.
  - simpl. lia.
  - rewrite Pos.iter_succ, Pos2Z.inj_succ, Z.pow_succ_r by lia.
    rewrite (Pos2Z.inj_xO (Pos.iter xO p d)), IH. lia.
Qed.

Lemma shl_align_spec (mx : positive) (ex ex' : Z) (mz : positive) (ez : Z) :
  shl_align mx ex ex' = (mz, ez) ->
  ez = Z.min ex ex' /\ Zpos mz = Zpos mx * 2 ^ (ex - ez).
Proof.
  unfold shl_align. destruct (ex' - ex) as [|d|d] eqn:Hd; intros [= <- <-].
  - split; [lia|]. rewrite Z.sub_diag. simpl. lia.
  - split; [lia|]. rewrite Z.sub_diag. simpl. lia.
  - split; [lia|]. rewrite iter_xO_val.
    replace (ex - ex') with (Zpos d) by lia. reflexivity.
Qed.

Lemma shr_1_spec (r : shr_record) :
  0 <= shr_m r ->
  shr_1 r = {| shr_m := Z.div2 (shr_m r); shr_r := Z.odd (shr_m r);
               shr_s := shr_r r || shr_s r |}.
Proof.
  destruct r as [m rr ss]. simpl. intros Hm.
  destruct m as [|[p|p|]|p]; try reflexivity. lia.
Qed.

Lemma shr_1_inv (m0 k : Z) (r : shr_record) :
  0 <= m0 -> 0 <= k -> shr_inv m0 k r -> shr_inv m0 (k + 1) (shr_1 r).
Proof.
  intros Hm0 Hk [Hq Hflag].
  assert (Hpk : 0 < 2 ^ k) by (apply Z.pow_pos_nonneg; lia).
  assert (Hnn : 0 <= shr_m r) by (rewrite Hq; apply Z.div_pos; lia).
  rewrite (shr_1_spec r Hnn). unfold shr_inv. simpl.
  rewrite Z.pow_add_r, Z.pow_1_r by lia. split.
  - rewrite Z.div2_div, Hq. apply Z.div_div; lia.
  - rewrite Z.rem_mul_r by lia. rewrite <- Hq.
    pose proof (Z.mod_pos_bound m0 (2 ^ k) Hpk) as Hb.
    rewrite (Zmod_odd (shr_m r)).
    destruct (Z.odd (shr_m r)); simpl.
    + split; [discriminate|]. nia.
    + rewrite Hflag. split; intros; lia.
Qed.

Lemma iter_shr_inv (m0 : Z) (p : positive) :
  forall (k : Z) (r : shr_record),
    0 <= m0 -> 0 <= k -> shr_inv m0 k r ->
    shr_inv m0 (k + Zpos p) (SpecFloat.iter_pos shr_1 p r).
Proof.
  induction p as [p IH|p IH|]; intros k r Hm0 Hk Hinv; simpl SpecFloat.iter_pos.
  - replace (k + Zpos p~1) with (k + 1 + Zpos p + Zpos p) by lia.
    apply IH; [lia|lia|]. apply IH; [lia|lia|]. now apply shr_1_inv.
  - replace (k + Zpos p~0) with (k + Zpos p + Zpos p) by lia.
    apply IH; [lia|lia|]. now apply IH.
  - now apply shr_1_inv.
Qed.

Lemma shr_exact_spec (m e n : Z) :
  0 <= m -> 0 <= n ->
  exists r, shr (shr_record_of_loc m loc_Exact) e n = (r, e + n) /\ shr_inv m n r.
Proof.
  intros Hm Hn.
  assert (H0 : shr_inv m 0 (shr_record_of_loc m loc_Exact)).
  { unfold shr_inv. simpl. rewrite Z.div_1_r, Z.mod_1_r. tauto. }
  destruct n as [|p|p]; [| |lia].
  - eexists. split; [|exact H0]. simpl. now rewrite Z.add_0_r.
  - eexists. split; [reflexivity|].
    apply (iter_shr_inv m p 0); [lia|lia|exact H0].
Qed.

Lemma round_nearest_even_spec (r : shr_record) :
  (round_nearest_even (shr_m r) (loc_of_shr_record r) = shr_m r \/
   round_nearest_even (shr_m r) (loc_of_shr_record r) = shr_m r + 1) /\
  (shr_r r || shr_s r = false ->
   round_nearest_even (shr_m r) (loc_of_shr_record r) = shr_m r).
Proof.
  destruct r as [m [|] [|]]; simpl; try destruct (Z.even m);
    (split; [tauto | intros; congruence || reflexivity]).
Qed.

Lemma fexp_eq (e : Z) : fexp prec emax e = Z.max (e - 53) (-1074).
Proof. reflexivity. Qed.

Lemma bounded_eq (m : positive) (e : Z) :
  bounded prec emax m e = (Z.max (digits m + e - 53) (-1074) =? e) && (e <=? 971).
Proof. reflexivity. Qed.

Lemma pow2_pos (k : Z) : 0 <= k -> 0 < 2 ^ k.
Proof. intros. apply Z.pow_pos_nonneg; lia. Qed.

Lemma Zdigits2_mul_pow (m : positive) (k : Z) :
  0 <= k -> Zdigits2 (Zpos m * 2 ^ k) = digits m + k.
Proof.
  intros Hk. pose proof (pow2_pos k Hk) as Hp.
  destruct (Zpos m * 2 ^ k) as [|q|q] eqn:E; try nia.
  simpl. fold (digits q). now apply digits_mul_pow.
Qed.

Lemma cexp_mul_pow (m : positive) (k : Z) :
  0 <= k -> cexp (Zpos m * 2 ^ k) = Z.max (digits m + k - 53) 0.
Proof. intros Hk. unfold cexp. now rewrite Zdigits2_mul_pow. Qed.

Lemma binary_round_aux_eq (sx : bool) (mx ex : Z) (r1 r2 : shr_record) (e1 e2 : Z) :
  shr_fexp prec emax mx ex loc_Exact = (r1, e1) ->
  shr_fexp prec emax (round_nearest_even (shr_m r1) (loc_of_shr_record r1))
           e1 loc_Exact = (r2, e2) ->
  binary_round_aux prec emax sx mx ex loc_Exact =
  match shr_m r2 with
  | 0 => S754_zero sx
  | Zpos m => if e2 <=? 971 then S754_finite sx m e2 else S754_infinity sx
  | Zneg _ => S754_nan
  end.
Proof. intros H1 H2. unfold binary_round_aux. rewrite H1, H2. reflexivity. Qed.

Lemma shr_fexp_spec (m : positive) (e : Z) :
  e <= Z.max (digits m + e - 53) (-1074) ->
  exists r,
    shr_fexp prec emax (Zpos m) e loc_Exact
      = (r, Z.max (digits m + e - 53) (-1074))
    /\ shr_inv (Zpos m) (Z.max (digits m + e - 53) (-1074) - e) r.
Proof.
  intros He. unfold shr_fexp. simpl Zdigits2. fold (digits m). rewrite fexp_eq.
  destruct (shr_exact_spec (Zpos m) e (Z.max (digits m + e - 53) (-1074) - e))
    as [r [Hr Hinv]]; [lia|lia|].
  exists r. split; [|exact Hinv]. rewrite Hr. f_equal. lia.
Qed.

Lemma binary_round_spec (sx : bool) (mx : positive) (ex : Z) :
  -1074 <= ex ->
  rounds_to sx (Zpos mx * 2 ^ (ex + 1074)) (binary_round prec emax sx mx ex).
Proof.
  intros Hex.
  unfold binary_round. rewrite fexp_eq. fold (digits mx).
  destruct (shl_align _ _ _) as [mz ez] eqn:Hal.
  apply shl_align_spec in Hal. destruct Hal as [Hez Hmz].
  set (f := Z.max (digits mx + ex - 53) (-1074)) in *.
  assert (Hez1 : -1074 <= ez <= ex) by lia.
  assert (Hezf : ez <= f) by lia.
  assert (Hdz : digits mz = digits mx + (ex - ez))
    by (apply digits_mul_pow; [lia|exact Hmz]).
  assert (HV : Zpos mx * 2 ^ (ex + 1074) = Zpos mz * 2 ^ (ez + 1074)).
  { rewrite Hmz, <- Z.mul_assoc, <- Z.pow_add_r by lia.
    replace (ex - ez + (ez + 1074)) with (ex + 1074) by lia. reflexivity. }
  rewrite HV.
  assert (Hf : Z.max (digits mz + ez - 53) (-1074) = f) by (unfold f; lia).
  destruct (shr_fexp_spec mz ez) as [r1 [Hs1 [Hq1 Hx1]]]; [lia|].
  rewrite Hf in Hs1, Hq1, Hx1.
  pose proof (round_nearest_even_spec r1) as [Hm' Hexact].
  remember (round_nearest_even (shr_m r1) (loc_of_shr_record r1)) as m' eqn:Em'.
  set (c := f + 1074).
  set (V := Zpos mz * 2 ^ (ez + 1074)).
  set (D := digits mz + ez + 1074).
  assert (Hc : cexp V = c).
  { unfold V. rewrite cexp_mul_pow by lia. unfold c. lia. }
  assert (HcD : c = Z.max (D - 53) 0) by (unfold c, D; lia).
  assert (HD1 : 1 <= D) by (pose proof (digits_pos mz); unfold D; lia).
  assert (Hpe : 0 < 2 ^ (ez + 1074)) by (apply pow2_pos; lia).
  assert (Hpn : 0 < 2 ^ (f - ez)) by (apply pow2_pos; lia).
  assert (Hpc : 0 < 2 ^ c) by (apply pow2_pos; lia).
  assert (H2c : 2 ^ c = 2 ^ (f - ez) * 2 ^ (ez + 1074)).
  { rewrite <- Z.pow_add_r by lia. unfold c. f_equal. lia. }
  assert (Hq : shr_m r1 = V / 2 ^ c).
  { rewrite Hq1, H2c. unfold V. symmetry. apply Z.div_mul_cancel_r; lia. }
  assert (Hmod : V mod 2 ^ c = (Zpos mz mod 2 ^ (f - ez)) * 2 ^ (ez + 1074)).
  { rewrite H2c. unfold V. apply Z.mul_mod_distr_r; lia. }
  assert (HVb : 2 ^ (D - 1) <= V < 2 ^ D).
  { pose proof (digits_bounds mz) as [Bl Bu]. pose proof (digits_pos mz).
    unfold V, D.
    replace (digits mz + ez + 1074 - 1) with (digits mz - 1 + (ez + 1074)) by lia.
    replace (digits mz + ez + 1074) with (digits mz + (ez + 1074)) by lia.
    rewrite (Z.pow_add_r 2 (digits mz - 1) (ez + 1074)),
      (Z.pow_add_r 2 (digits mz) (ez + 1074)) by lia. nia. }
  set (d1 := D - c).
  assert (Hd1 : 1 <= d1 <= 53) by (unfold d1; lia).
  assert (Hm1 : 2 ^ (d1 - 1) <= shr_m r1 < 2 ^ d1).
  { rewrite Hq. split.
    - apply Z.div_le_lower_bound; [lia|]. rewrite <- Z.pow_add_r by lia.
      replace (c + (d1 - 1)) with (D - 1) by (unfold d1; lia). lia.
    - apply Z.div_lt_upper_bound; [lia|]. rewrite <- Z.pow_add_r by lia.
      replace (c + d1) with D by (unfold d1; lia). lia. }
  assert (Hp1 : 0 < 2 ^ (d1 - 1)) by (apply pow2_pos; lia).
  destruct m' as [|pm|pm]; [lia| |lia].
  assert (Hrnd : rounded V (Zpos pm * 2 ^ c)).
  { unfold rounded. rewrite Hc, <- Hq. split.
    - destruct Hm' as [->| ->]; [left|right]; reflexivity.
    - intros Hz. rewrite Hmod in Hz.
      assert (Hz' : Zpos mz mod 2 ^ (f - ez) = 0) by nia.
      apply Hx1, Hexact in Hz'. rewrite Hz', Hq.
      assert (Hdm : V = 2 ^ c * (V / 2 ^ c) + V mod 2 ^ c) by (apply Z.div_mod; lia).
      nia. }
  assert (Hpd : 2 ^ d1 = 2 * 2 ^ (d1 - 1)).
  { replace d1 with (Z.succ (d1 - 1)) at 1 by lia. apply Z.pow_succ_r. lia. }
  destruct (Z.eq_dec (Zpos pm) (2 ^ d1)) as [Hcarry|Hnc].
  - assert (Hc1 : 1 <= c).
    { destruct (Z_le_gt_dec 1 c) as [?|Hc0]; [assumption|exfalso].
      assert (Hfe : f - ez = 0) by (unfold c in Hc0; lia).
      rewrite Hfe, Z.pow_0_r, Z.mod_1_r in Hx1.
      assert (Hz' : Zpos pm = shr_m r1) by (apply Hexact, Hx1; reflexivity). lia. }
    assert (Hd53 : d1 = 53) by (unfold d1; lia).
    rewrite Hd53 in Hcarry.
    assert (Hdp : digits pm = 54) by (apply digits_unique; rewrite Hcarry; simpl; lia).
    destruct (shr_fexp_spec pm f) as [r2 [Hs2 [Hq2 _]]]; [lia|].
    replace (Z.max (digits pm + f - 53) (-1074)) with (f + 1) in Hs2, Hq2 by lia.
    replace (f + 1 - f) with 1 in Hq2 by lia.
    rewrite Hcarry in Hq2. change (2 ^ 53 / 2 ^ 1) with 4503599627370496 in Hq2.
    rewrite (binary_round_aux_eq sx _ _ r1 r2 f (f + 1) Hs1); [|rewrite <- Em'; exact Hs2].
    rewrite Hq2. exists (Zpos pm * 2 ^ c). split; [exact Hrnd|].
    rewrite Hcarry, <- Z.pow_add_r by lia.
    destruct (Z.leb_spec (f + 1) 971) as [Hle|Hgt]; [left|right].
    + split; [apply Z.pow_lt_mono_r; unfold c; lia|].
      exists 4503599627370496%positive, (f + 1). split; [reflexivity|]. split.
      * rewrite bounded_eq. change (digits 4503599627370496) with 53.
        apply andb_true_intro. split; [apply Z.eqb_eq|apply Z.leb_le]; lia.
      * change (Zpos 4503599627370496) with (2 ^ 52).
        rewrite <- Z.pow_add_r by lia. f_equal. unfold c. lia.
    + split; [apply Z.pow_le_mono_r; unfold c; lia|reflexivity].
  - assert (Hdp : digits pm = d1) by (apply digits_unique; lia).
    destruct (shr_fexp_spec pm f) as [r2 [Hs2 [Hq2 _]]]; [unfold c, D, d1 in *; lia|].
    replace (Z.max (digits pm + f - 53) (-1074)) with f in Hs2, Hq2
      by (unfold c, D, d1 in *; lia).
    rewrite Z.sub_diag, Z.pow_0_r, Z.div_1_r in Hq2.
    rewrite (binary_round_aux_eq sx _ _ r1 r2 f f Hs1); [|rewrite <- Em'; exact Hs2].
    rewrite Hq2. exists (Zpos pm * 2 ^ c). split; [exact Hrnd|].
    destruct (Z.leb_spec f 971) as [Hle|Hgt]; [left|right].
    + split.
      * assert (Zpos pm * 2 ^ c < 2 ^ d1 * 2 ^ c) by nia.
        rewrite <- Z.pow_add_r in H by lia.
        assert (2 ^ (d1 + c) <= top) by (apply Z.pow_le_mono_r; unfold c; lia). lia.
      * exists pm, f. split; [reflexivity|]. split; [|reflexivity].
        rewrite bounded_eq. apply andb_true_intro.
        split; [apply Z.eqb_eq|apply Z.leb_le]; unfold c, D, d1 in *; lia.
    + split; [|reflexivity].
      assert (Hd53 : d1 = 53) by (unfold c, d1 in *; lia).
      rewrite Hd53 in Hm1, Hp1. 
      assert (top <= 2 ^ (53 - 1) * 2 ^ c).
      { rewrite <- Z.pow_add_r by lia. apply Z.pow_le_mono_r; unfold c; lia. }
      nia.
Qed.

(** *** Rounding never crosses a representable value *)

Lemma Zdigits2_le (a b : Z) : 0 < a -> a <= b -> Zdigits2 a <= Zdigits2 b.
Proof.
  intros Ha Hab. destruct a as [|p|p]; try lia. destruct b as [|q|q]; try lia.
  simpl. now apply digits_le.
Qed.

Lemma Zdigits2_bounds (a : Z) :
  0 < a -> 2 ^ (Zdigits2 a - 1) <= a < 2 ^ Zdigits2 a /\ 1 <= Zdigits2 a.
Proof.
  intros Ha. destruct a as [|p|p]; try lia. simpl.
  split; [apply digits_bounds|apply digits_pos].
Qed.

Lemma cexp_nonneg (V : Z) : 0 <= cexp V.
Proof. unfold cexp. lia. Qed.

Lemma cexp_le (a b : Z) : 0 < a -> a <= b -> cexp a <= cexp b.
Proof. intros Ha Hab. pose proof (Zdigits2_le a b Ha Hab). unfold cexp. lia. Qed.

Lemma cexp_lt_digits (V : Z) : 0 < V -> cexp V <= Zdigits2 V - 1.
Proof.
  intros HV. destruct (Zdigits2_bounds V HV) as [_ H1]. unfold cexp, prec. lia.
Qed.

(** A multiple of a larger power of two is a multiple of a smaller one. *)
Lemma mod_pow2_le (a j k : Z) :
  0 <= j <= k -> a mod 2 ^ k = 0 -> a mod 2 ^ j = 0.
Proof.
  intros Hjk Hk.
  assert (Hpk : 0 < 2 ^ k) by (apply pow2_pos; lia).
  apply Z.mod_divide in Hk; [|lia]. destruct Hk as [q Hq].
  apply Z.mod_divide; [pose proof (pow2_pos j); lia|].
  exists (q * 2 ^ (k - j)). rewrite Hq, <- Z.mul_assoc, <- Z.pow_add_r by lia.
  replace (k - j + j) with k by lia. reflexivity.
Qed.

Lemma rounded_zero (N : Z) : rounded 0 N -> N = 0.
Proof. intros [_ H]. apply H. reflexivity. Qed.

Lemma rounded_lower (V N : Z) : 0 <= V -> rounded V N -> V / 2 ^ cexp V * 2 ^ cexp V <= N.
Proof.
  intros HV [[->| ->] _]; [lia|].
  pose proof (pow2_pos (cexp V) (cexp_nonneg V)). nia.
Qed.

Lemma rounded_nonneg (V N : Z) : 0 <= V -> rounded V N -> 0 <= N.
Proof.
  intros HV HR. pose proof (rounded_lower V N HV HR) as HL.
  pose proof (pow2_pos (cexp V) (cexp_nonneg V)) as Hp.
  assert (0 <= V / 2 ^ cexp V) by (apply Z.div_pos; lia). nia.
Qed.

Lemma rounded_le (V N hi : Z) :
  0 < V -> rounded V N -> V <= hi -> repr hi -> N <= hi.
Proof.
  intros HV [Hcase Hex] Hle Hhi. unfold repr in Hhi.
  pose proof (cexp_nonneg V) as Hc0. pose proof (cexp_le V hi HV Hle) as Hcle.
  pose proof (pow2_pos (cexp V) Hc0) as Hp.
  apply (mod_pow2_le hi (cexp V) (cexp hi)) in Hhi; [|lia].
  apply Z.mod_divide in Hhi; [|lia]. destruct Hhi as [h Hh].
  assert (Hdm : V = 2 ^ cexp V * (V / 2 ^ cexp V) + V mod 2 ^ cexp V)
    by (apply Z.div_mod; lia).
  pose proof (Z.mod_pos_bound V (2 ^ cexp V) Hp) as Hmb.
  destruct (Z.eq_dec (V mod 2 ^ cexp V) 0) as [Hz|Hnz].
  - rewrite (Hex Hz). exact Hle.
  - assert (Hqh : V / 2 ^ cexp V < h) by nia.
    destruct Hcase as [->| ->]; nia.
Qed.

Lemma rounded_ge (V N lo : Z) :
  0 < lo -> rounded V N -> lo <= V -> repr lo -> lo <= N.
Proof.
  intros Hlo HR Hle Hrl. unfold repr in Hrl.
  assert (HV : 0 < V) by lia.
  pose proof (rounded_lower V N (Z.lt_le_incl _ _ HV) HR) as HL.
  pose proof (cexp_nonneg V) as Hc0. pose proof (cexp_le lo V Hlo Hle) as Hcle.
  pose proof (pow2_pos (cexp V) Hc0) as Hp.
  destruct (Zdigits2_bounds V HV) as [[HVl HVu] HD1].
  destruct (Zdigits2_bounds lo Hlo) as [[Hll Hlu] Hd1].
  pose proof (Zdigits2_le lo V Hlo Hle) as Hdle.
  enough (lo <= V / 2 ^ cexp V * 2 ^ cexp V) by lia.
  destruct (Z.eq_dec (Zdigits2 lo) (Zdigits2 V)) as [Heq|Hne].
  - assert (Hce : cexp lo = cexp V) by (unfold cexp; rewrite Heq; reflexivity).
    rewrite Hce in Hrl. apply Z.mod_divide in Hrl; [|lia]. destruct Hrl as [l Hl].
    assert (l <= V / 2 ^ cexp V) by (apply Z.div_le_lower_bound; lia). nia.
  - pose proof (cexp_lt_digits V HV) as Hcd.
    assert (Hpw : 2 ^ (Zdigits2 V - 1) = 2 ^ (Zdigits2 V - 1 - cexp V) * 2 ^ cexp V).
    { rewrite <- Z.pow_add_r by lia. f_equal. lia. }
    assert (2 ^ (Zdigits2 V - 1 - cexp V) <= V / 2 ^ cexp V)
      by (apply Z.div_le_lower_bound; lia).
    assert (2 ^ Zdigits2 lo <= 2 ^ (Zdigits2 V - 1)) by (apply Z.pow_le_mono_r; lia).
    nia.
Qed.

Lemma val_finite (s : bool) (m : positive) (e : Z) :
  val (S754_finite s m e) = cond_Zopp s (mag m e).
Proof. reflexivity. Qed.

Lemma bounded_inv (m : positive) (e : Z) :
  bounded prec emax m e = true ->
  e = Z.max (digits m + e - 53) (-1074) /\ e <= 971.
Proof.
  rewrite bounded_eq. intros H. apply andb_prop in H as [H1 H2].
  apply Z.eqb_eq in H1. apply Z.leb_le in H2. lia.
Qed.

Lemma mag_bounds (m : positive) (e : Z) :
  bounded prec emax m e = true ->
  0 < mag m e < top /\ cexp (mag m e) = e + 1074 /\ repr (mag m e).
Proof.
  intros Hb. apply bounded_inv in Hb as [He1 He2].
  pose proof (digits_bounds m) as [Bl Bu]. pose proof (digits_pos m) as Hd.
  assert (Hp : 0 < 2 ^ (e + 1074)) by (apply pow2_pos; lia).
  assert (Hc : cexp (mag m e) = e + 1074).
  { unfold mag. rewrite cexp_mul_pow by lia. lia. }
  split; [|split; [exact Hc|]].
  - unfold mag. split; [nia|].
    assert (Zpos m * 2 ^ (e + 1074) < 2 ^ digits m * 2 ^ (e + 1074)) by nia.
    rewrite <- Z.pow_add_r in H by lia.
    assert (2 ^ (digits m + (e + 1074)) <= top) by (apply Z.pow_le_mono_r; lia).
    lia.
  - unfold repr. rewrite Hc. unfold mag. apply Z.mod_mul. lia.
Qed.

Lemma canonical_exp_lt (m1 : positive) (e1 : Z) (m2 : positive) (e2 : Z) :
  bounded prec emax m1 e1 = true -> bounded prec emax m2 e2 = true ->
  e1 < e2 -> mag m1 e1 < mag m2 e2.
Proof.
  intros H1 H2 Hlt. apply bounded_inv in H1 as [H1 _]. apply bounded_inv in H2 as [H2 _].
  pose proof (digits_bounds m1) as [_ Bu]. pose proof (digits_bounds m2) as [Bl _].
  assert (Hd2 : digits m2 = 53) by lia. rewrite Hd2 in Bl.
  assert (Hp1 : 0 < 2 ^ (e1 + 1074)) by (apply pow2_pos; lia).
  assert (Hp2 : 0 < 2 ^ (e2 + 1074)) by (apply pow2_pos; lia).
  assert (Hd1 : 2 ^ digits m1 <= 2 ^ 53) by (apply Z.pow_le_mono_r; lia).
  assert (Hs : 2 ^ 53 * 2 ^ (e1 + 1074) <= 2 ^ (53 - 1) * 2 ^ (e2 + 1074)).
  { rewrite <- !Z.pow_add_r by lia. apply Z.pow_le_mono_r; lia. }
  unfold mag. nia.
Qed.

Lemma mag_compare_same_exp (m1 m2 : positive) (e : Z) :
  -1074 <= e -> (mag m1 e ?= mag m2 e) = Pos.compare_cont Eq m1 m2.
Proof.
  intros He. unfold mag. fold (Pos.compare m1 m2).
  rewrite <- Zmult_compare_compat_r; [reflexivity|].
  pose proof (pow2_pos (e + 1074)). lia.
Qed.

Lemma compare_mag (m1 : positive) (e1 : Z) (m2 : positive) (e2 : Z) :
  bounded prec emax m1 e1 = true -> bounded prec emax m2 e2 = true ->
  match e1 ?= e2 with
  | Lt => Lt
  | Gt => Gt
  | Eq => Pos.compare_cont Eq m1 m2
  end = (mag m1 e1 ?= mag m2 e2).
Proof.
  intros H1 H2. destruct (Z.compare_spec e1 e2) as [Heq|Hlt|Hgt].
  - subst e2. symmetry. apply mag_compare_same_exp.
    apply bounded_inv in H1. lia.
  - symmetry. apply Z.compare_lt_iff. now apply canonical_exp_lt.
  - symmetry. apply Z.compare_gt_iff. now apply canonical_exp_lt.
Qed.

Lemma compare_val (x y : float) :
  valid x = true -> valid y = true -> isfinite x = true -> isfinite y = true ->
  SFcompare x y = Some (val x ?= val y).
Proof.
  intros Hvx Hvy Hfx Hfy.
  destruct x as [sx|sx| |sx mx ex]; try discriminate;
    destruct y as [sy|sy| |sy my ey]; try discriminate.
  - reflexivity.
  - destruct (mag_bounds my ey Hvy) as [[Hp _] _].
    unfold SFcompare. rewrite val_finite. f_equal. symmetry.
    destruct sy; unfold cond_Zopp, val; [apply Z.compare_gt_iff|apply Z.compare_lt_iff]; lia.
  - destruct (mag_bounds mx ex Hvx) as [[Hp _] _].
    unfold SFcompare. rewrite val_finite. f_equal. symmetry.
    destruct sx; unfold cond_Zopp, val; [apply Z.compare_lt_iff|apply Z.compare_gt_iff]; lia.
  - destruct (mag_bounds mx ex Hvx) as [[Hpx _] _].
    destruct (mag_bounds my ey Hvy) as [[Hpy _] _].
    unfold SFcompare. rewrite !val_finite. f_equal.
    destruct sx, sy; unfold cond_Zopp.
    + rewrite Z.compare_opp. rewrite <- (compare_mag my ey mx ex Hvy Hvx).
      rewrite (Z.compare_antisym ey ex).
      destruct (ey ?= ex); simpl; try reflexivity.
      fold (Pos.compare mx my). fold (Pos.compare my mx).
      now rewrite (Pos.compare_antisym mx my).
    + symmetry. apply Z.compare_lt_iff. lia.
    + symmetry. apply Z.compare_gt_iff. lia.
    + apply compare_mag; assumption.
Qed.

Lemma ltb_val (x y : float) :
  valid x = true -> valid y = true -> isfinite x = true -> isfinite y = true ->
  ltb x y = (val x <? val y).
Proof.
  intros. unfold ltb, SFltb. rewrite compare_val by assumption.
  unfold Z.ltb. now destruct (val x ?= val y).
Qed.

Lemma leb_val (x y : float) :
  valid x = true -> valid y = true -> isfinite x = true -> isfinite y = true ->
  leb x y = (val x <=? val y).
Proof.
  intros. unfold leb, SFleb. rewrite compare_val by assumption.
  unfold Z.leb. now destruct (val x ?= val y).
Qed.

Lemma top_pos : 0 < top.
Proof. apply pow2_pos. lia. Qed.

Lemma rounded_repr (V : Z) : repr V -> rounded V V.
Proof.
  unfold repr, rounded. intros HV. split; [left|reflexivity].
  pose proof (pow2_pos (cexp V) (cexp_nonneg V)) as Hp.
  assert (Hdm : V = 2 ^ cexp V * (V / 2 ^ cexp V) + V mod 2 ^ cexp V)
    by (apply Z.div_mod; lia).
  lia.
Qed.

Lemma sum_spec_zero (s : bool) : sum_spec 0 (S754_zero s).
Proof.
  exists 0. split; [apply rounded_repr; reflexivity|].
  left. pose proof top_pos. repeat split; lia.
Qed.

Lemma sum_spec_exact (s : bool) (m : positive) (e : Z) :
  bounded prec emax m e = true ->
  sum_spec (cond_Zopp s (mag m e)) (S754_finite s m e).
Proof.
  intros Hb. destruct (mag_bounds m e Hb) as [[Hp Ht] [_ Hr]].
  exists (mag m e). split.
  - replace (Z.abs (cond_Zopp s (mag m e))) with (mag m e)
      by (destruct s; unfold cond_Zopp; lia).
    now apply rounded_repr.
  - left. split; [exact Ht|]. split; [reflexivity|]. split; [exact Hb|].
    rewrite val_finite. unfold signed.
    destruct s; unfold cond_Zopp.
    + destruct (Z.ltb_spec (- mag m e) 0); lia.
    + destruct (Z.ltb_spec (mag m e) 0); lia.
Qed.

Lemma rounds_to_sum_spec (sx : bool) (V : Z) (r : float) :
  0 < V -> rounds_to sx V r -> sum_spec (cond_Zopp sx V) r.
Proof.
  intros HV [N [HR Hcase]]. exists N. split.
  - replace (Z.abs (cond_Zopp sx V)) with V by (destruct sx; unfold cond_Zopp; lia).
    exact HR.
  - destruct Hcase as [[Ht [m [e [-> [Hb HN]]]]]|[Ht ->]]; [left|right].
    + split; [exact Ht|]. split; [reflexivity|]. split; [exact Hb|].
      rewrite val_finite. unfold mag. rewrite HN. unfold signed.
      pose proof (rounded_nonneg V N (Z.lt_le_incl _ _ HV) HR).
      destruct sx; unfold cond_Zopp.
      * destruct (Z.ltb_spec (- V) 0); lia.
      * destruct (Z.ltb_spec V 0); lia.
    + split; [exact Ht|reflexivity].
Qed.

Lemma binary_normalize_spec (z e : Z) :
  -1074 <= e ->
  sum_spec (z * 2 ^ (e + 1074)) (binary_normalize prec emax z e false).
Proof.
  intros He. assert (Hp : 0 < 2 ^ (e + 1074)) by (apply pow2_pos; lia).
  destruct z as [|m|m]; simpl binary_normalize.
  - rewrite Z.mul_0_l. apply sum_spec_zero.
  - apply (rounds_to_sum_spec false (Zpos m * 2 ^ (e + 1074))); [nia|]. now apply binary_round_spec.
  - change (Zneg m) with (- Zpos m). rewrite Z.mul_opp_l.
    apply (rounds_to_sum_spec true (Zpos m * 2 ^ (e + 1074))); [nia|]. now apply binary_round_spec.
Qed.

Lemma shl_align_fst (mx : positive) (ex ez : Z) :
  ez <= ex -> -1074 <= ez ->
  Zpos (fst (shl_align mx ex ez)) * 2 ^ (ez + 1074) = mag mx ex.
Proof.
  intros Hle Hez. destruct (shl_align mx ex ez) as [mz e'] eqn:Hal.
  apply shl_align_spec in Hal as [He' Hmz]. simpl fst.
  assert (He'' : e' = ez) by lia. clear He'. subst e'.
  rewrite Hmz, <- Z.mul_assoc, <- Z.pow_add_r by lia. unfold mag.
  replace (ex - ez + (ez + 1074)) with (ex + 1074) by lia. reflexivity.
Qed.

Lemma cond_Zopp_mul (s : bool) (a b : Z) : cond_Zopp s a * b = cond_Zopp s (a * b).
Proof. destruct s; unfold cond_Zopp; lia. Qed.

Lemma add_spec (x y : float) :
  valid x = true -> valid y = true -> isfinite x = true -> isfinite y = true ->
  sum_spec (val x + val y) (add x y).
Proof.
  intros Hvx Hvy Hfx Hfy.
  destruct x as [sx|sx| |sx mx ex]; try discriminate;
    destruct y as [sy|sy| |sy my ey]; try discriminate.
  - destruct sx, sy; apply sum_spec_zero.
  - change (add (S754_zero sx) (S754_finite sy my ey)) with (S754_finite sy my ey).
    rewrite val_finite. apply sum_spec_exact. exact Hvy.
  - change (add (S754_finite sx mx ex) (S754_zero sy)) with (S754_finite sx mx ex).
    rewrite val_finite.
    replace (cond_Zopp sx (mag mx ex) + val (S754_zero sy)) with (cond_Zopp sx (mag mx ex))
      by (unfold val; lia).
    apply sum_spec_exact. exact Hvx.
  - pose proof (bounded_inv mx ex Hvx) as [Hex _].
    pose proof (bounded_inv my ey Hvy) as [Hey _].
    unfold add, SFadd. rewrite !val_finite.
    rewrite <- (shl_align_fst mx ex (Z.min ex ey)), <- (shl_align_fst my ey (Z.min ex ey)) by lia.
    rewrite <- !cond_Zopp_mul, <- Z.mul_add_distr_r.
    apply binary_normalize_spec. lia.
Qed.

Lemma sub_spec (x y : float) :
  valid x = true -> valid y = true -> isfinite x = true -> isfinite y = true ->
  sum_spec (val x - val y) (sub x y).
Proof.
  intros Hvx Hvy Hfx Hfy.
  destruct x as [sx|sx| |sx mx ex]; try discriminate;
    destruct y as [sy|sy| |sy my ey]; try discriminate.
  - destruct sx, sy; apply sum_spec_zero.
  - change (sub (S754_zero sx) (S754_finite sy my ey)) with (S754_finite (negb sy) my ey).
    rewrite val_finite.
    replace (val (S754_zero sx) - cond_Zopp sy (mag my ey))
      with (cond_Zopp (negb sy) (mag my ey))
      by (destruct sy; unfold val, cond_Zopp, negb; lia).
    apply sum_spec_exact. exact Hvy.
  - change (sub (S754_finite sx mx ex) (S754_zero sy)) with (S754_finite sx mx ex).
    rewrite val_finite.
    replace (cond_Zopp sx (mag mx ex) - val (S754_zero sy)) with (cond_Zopp sx (mag mx ex))
      by (unfold val; lia).
    apply sum_spec_exact. exact Hvx.
  - pose proof (bounded_inv mx ex Hvx) as [Hex _].
    pose proof (bounded_inv my ey Hvy) as [Hey _].
    unfold sub, SFsub. rewrite !val_finite.
    rewrite <- (shl_align_fst mx ex (Z.min ex ey)), <- (shl_align_fst my ey (Z.min ex ey)) by lia.
    rewrite <- !cond_Zopp_mul, <- Z.mul_sub_distr_r.
    apply binary_normalize_spec. lia.
Qed.

Lemma sum_spec_bounds (V : Z) (r : float) (lo hi : Z) :
  sum_spec V r -> lo <= V <= hi ->
  repr (Z.abs lo) -> repr (Z.abs hi) -> Z.abs lo < top -> Z.abs hi < top ->
  isfinite r = true /\ valid r = true /\ lo <= val r <= hi.
Proof.
  intros [N [HR Hcase]] [Hlo Hhi] Hrl Hrh Htl Hth.
  pose proof (rounded_nonneg _ _ (Z.abs_nonneg V) HR) as HN0.
  assert (Hb : lo <= signed V N <= hi /\ N < top).
  { unfold signed. destruct (Z.ltb_spec V 0) as [Hneg|Hnn].
    - rewrite Z.abs_neq in HR by lia.
      assert (N <= Z.abs lo) by (apply (rounded_le (- V)); [lia|exact HR|lia|exact Hrl]).
      split; [split; [lia|]|lia].
      destruct (Z_le_gt_dec 0 hi) as [?|Hh]; [lia|].
      assert (Z.abs hi <= N) by (apply (rounded_ge (- V)); [lia|exact HR|lia|exact Hrh]).
      lia.
    - rewrite Z.abs_eq in HR by lia.
      destruct (Z.eq_dec V 0) as [->|Hnz].
      + apply rounded_zero in HR. pose proof top_pos. lia.
      + assert (N <= Z.abs hi) by (apply (rounded_le V); [lia|exact HR|lia|exact Hrh]).
        split; [split; [|lia]|lia].
        destruct (Z_le_gt_dec lo 0) as [?|Hl]; [lia|].
        assert (Z.abs lo <= N) by (apply (rounded_ge V); [lia|exact HR|lia|exact Hrl]).
        lia. }
  destruct Hb as [Hb Ht].
  destruct Hcase as [[_ [Hf [Hv Hval]]]|[Ht' _]]; [|lia].
  rewrite Hval. tauto.
Qed.

End B64Facts.

(** ** The back-azimuth wrap (lines 80-84): facts *)

Module WrapFacts.
Import B64 Wrap B64Facts.

Lemma while_loop_S (fuel : nat) (cond : float -> bool) (body : float -> float)
    (x : float) :
  while_loop (S fuel) cond body x =
  if cond x then while_loop fuel cond body (body x) else Some x.
Proof. reflexivity. Qed.

Lemma val_f360 : val f360 = 45 * 2 ^ 1077.
Proof. vm_compute. reflexivity. Qed.

Lemma valid_f360 : valid f360 = true.
Proof. reflexivity. Qed.

Lemma SFcompare_antisym (x y : float) :
  SFcompare y x = option_map CompOpp (SFcompare x y).
Proof.
  destruct x as [sx|sx| |sx mx ex], y as [sy|sy| |sy my ey]; simpl;
    try reflexivity; try (destruct sx; reflexivity); try (destruct sy; reflexivity);
    try (destruct sx, sy; reflexivity).
  destruct sx, sy; simpl; try reflexivity; f_equal;
    rewrite (Z.compare_antisym ex ey); destruct (ex ?= ey); simpl; try reflexivity;
    fold (Pos.compare mx my); fold (Pos.compare my mx);
    rewrite (Pos.compare_antisym mx my); destruct (mx ?= my)%positive; reflexivity.
Qed.

Lemma wrap_fixed (x : float) (n : nat) :
  leb zero x = true -> ltb x f360 = true -> wrap_azimuth (S n) x = Some x.
Proof.
  intros H0 H360. unfold wrap_azimuth. simpl.
  assert (H1 : ltb x zero = false).
  { unfold ltb, leb, SFltb, SFleb in *. rewrite (SFcompare_antisym zero x).
    destruct (SFcompare zero x) as [[]|]; simpl; congruence. }
  assert (H2 : leb f360 x = false).
  { unfold ltb, leb, SFltb, SFleb in *. rewrite (SFcompare_antisym x f360).
    destruct (SFcompare x f360) as [[]|]; simpl; congruence. }
  rewrite H1. simpl. rewrite H2. reflexivity.
Qed.

Lemma huge_loops (fuel : nat) :
  while_loop fuel (fun x => leb f360 x) (fun x => sub x f360) huge = None.
Proof.
  induction fuel as [|fuel IH]; [reflexivity|].
  rewrite while_loop_S.
  replace (leb f360 huge) with true by (vm_compute; reflexivity).
  replace (sub huge f360) with huge by (vm_compute; reflexivity). exact IH.
Qed.

Lemma valid_zero : valid zero = true.
Proof. reflexivity. Qed.

Lemma val_zero : val zero = 0.
Proof. reflexivity. Qed.

Lemma lim_lt_top : lim < top.
Proof. apply Z.pow_lt_mono_r; lia. Qed.

Lemma lim_pos : 0 < lim.
Proof. apply pow2_pos. lia. Qed.

Lemma val360_pos : 0 < val f360 < lim.
Proof.
  rewrite val_f360. unfold lim. pose proof (pow2_pos 1077).
  replace 1130 with (53 + 1077) by lia. rewrite Z.pow_add_r by lia.
  change (2 ^ 53) with 9007199254740992. lia.
Qed.

Lemma repr_0 : repr 0.
Proof. reflexivity. Qed.

Lemma valid_repr (x : float) :
  valid x = true -> isfinite x = true -> repr (Z.abs (val x)) /\ Z.abs (val x) < top.
Proof.
  intros Hv Hf. destruct x as [s|s| |s m e]; try discriminate.
  - split; [exact repr_0|exact top_pos].
  - destruct (mag_bounds m e Hv) as [[Hp Ht] [_ Hr]]. rewrite val_finite.
    replace (Z.abs (cond_Zopp s (mag m e))) with (mag m e)
      by (destruct s; unfold cond_Zopp; lia).
    split; assumption.
Qed.

Lemma repr_lim : repr lim.
Proof.
  assert (H : lim = Zpos 1 * 2 ^ 1130) by (unfold lim; lia).
  unfold repr. rewrite H at 2. rewrite cexp_mul_pow by lia.
  change (digits 1) with 1. replace (Z.max (1 + 1130 - 53) 0) with 1078 by lia.
  unfold lim. replace 1130 with (52 + 1078) by lia. rewrite Z.pow_add_r by lia.
  apply Z.mod_mul. pose proof (pow2_pos 1078). lia.
Qed.

(** Below [lim], every multiple of [2^1077] that is also a multiple of the
    last-place unit of a larger representable value is representable. *)
Lemma repr_sub (X Y : Z) :
  repr X -> Y mod 2 ^ 1077 = 0 -> 0 <= X - Y -> 0 <= Y -> X - Y < lim ->
  repr (X - Y).
Proof.
  intros HX HY Hnn HY0 Hlt. unfold repr in *.
  destruct (Z.eq_dec (X - Y) 0) as [->|Hnz]; [reflexivity|].
  assert (HV : 0 < X - Y) by lia.
  pose proof (cexp_nonneg (X - Y)) as Hc0.
  assert (HcX : cexp (X - Y) <= cexp X) by (apply cexp_le; lia).
  assert (Hc77 : cexp (X - Y) <= 1077).
  { destruct (Zdigits2_bounds (X - Y) HV) as [[Hl _] Hd].
    unfold cexp, prec.
    destruct (Z_le_gt_dec (Zdigits2 (X - Y)) 1130) as [?|Hgt]; [lia|].
    assert (lim <= 2 ^ (Zdigits2 (X - Y) - 1)) by (apply Z.pow_le_mono_r; lia).
    lia. }
  apply (mod_pow2_le X (cexp (X - Y)) (cexp X)) in HX; [|lia].
  apply (mod_pow2_le Y (cexp (X - Y)) 1077) in HY; [|lia].
  pose proof (pow2_pos (cexp (X - Y)) Hc0) as Hp.
  apply Z.mod_divide in HX; [|lia]. apply Z.mod_divide in HY; [|lia].
  apply Z.mod_divide; [lia|]. now apply Z.divide_sub_r.
Qed.

Lemma val360_mod : val f360 mod 2 ^ 1077 = 0.
Proof. rewrite val_f360. apply Z.mod_mul. pose proof (pow2_pos 1077). lia. Qed.

Lemma sub360_exact (x : float) :
  valid x = true -> isfinite x = true -> val f360 <= val x <= lim ->
  valid (sub x f360) = true /\ isfinite (sub x f360) = true /\
  val (sub x f360) = val x - val f360.
Proof.
  intros Hv Hf [Hlo Hhi]. pose proof val360_pos as [H360 _].
  destruct (valid_repr x Hv Hf) as [Hr _]. rewrite Z.abs_eq in Hr by lia.
  assert (HR : repr (Z.abs (val x - val f360))).
  { rewrite Z.abs_eq by lia. apply repr_sub; [exact Hr|exact val360_mod|lia..]. }
  pose proof lim_lt_top.
  destruct (sum_spec_bounds (val x - val f360) (sub x f360)
              (val x - val f360) (val x - val f360)) as [Hf' [Hv' Hb]];
    [apply sub_spec; auto using valid_f360|lia|exact HR|exact HR|lia|lia|].
  repeat split; [exact Hv'|exact Hf'|lia].
Qed.

Lemma add360_exact (x : float) :
  valid x = true -> isfinite x = true -> - lim <= val x <= - val f360 ->
  valid (add x f360) = true /\ isfinite (add x f360) = true /\
  val (add x f360) = val x + val f360.
Proof.
  intros Hv Hf [Hlo Hhi]. pose proof val360_pos as [H360 _].
  destruct (valid_repr x Hv Hf) as [Hr _]. rewrite Z.abs_neq in Hr by lia.
  assert (HR : repr (Z.abs (val x + val f360))).
  { rewrite Z.abs_neq by lia.
    replace (- (val x + val f360)) with (- val x - val f360) by lia.
    apply repr_sub; [exact Hr|exact val360_mod|lia..]. }
  pose proof lim_lt_top.
  destruct (sum_spec_bounds (val x + val f360) (add x f360)
              (val x + val f360) (val x + val f360)) as [Hf' [Hv' Hb]];
    [apply add_spec; auto using valid_f360|lia|exact HR|exact HR|lia|lia|].
  repeat split; [exact Hv'|exact Hf'|lia].
Qed.

Lemma add360_small (x : float) :
  valid x = true -> isfinite x = true -> - val f360 < val x < 0 ->
  valid (add x f360) = true /\ isfinite (add x f360) = true /\
  0 <= val (add x f360) <= val f360.
Proof.
  intros Hv Hf [Hlo Hhi]. pose proof val360_pos as [H360 Hl360].
  destruct (valid_repr f360 valid_f360 eq_refl) as [Hr Ht].
  destruct (sum_spec_bounds (val x + val f360) (add x f360) 0 (val f360))
    as [Hf' [Hv' Hb]];
    [apply add_spec; auto using valid_f360|lia|exact repr_0|exact Hr
    |exact top_pos|exact Ht|].
  repeat split; [exact Hv'|exact Hf'|lia..].
Qed.

(** *** The two loops *)

Lemma loop_neg (n : nat) :
  forall (x : float) (fuel : nat),
    valid x = true -> isfinite x = true -> - lim <= val x <= lim ->
    - (Z.of_nat n * val f360) <= val x -> (n < fuel)%nat ->
    exists y,
      while_loop fuel (fun x => ltb x zero) (fun x => add x f360) x = Some y /\
      valid y = true /\ isfinite y = true /\ 0 <= val y <= lim /\
      (0 <= val x -> y = x) /\ (val x < 0 -> val y <= val f360).
Proof.
  pose proof val360_pos as [H360 Hl360].
  induction n as [|n IH]; intros x fuel Hv Hf Hb Hn Hfuel;
    (destruct fuel as [|fuel]; [lia|]); rewrite while_loop_S;
    rewrite (ltb_val x zero Hv valid_zero Hf eq_refl), val_zero;
    destruct (Z.ltb_spec (val x) 0) as [Hneg|Hnn];
    try (exists x; repeat split; (assumption || lia || reflexivity)).
  - destruct (Z_le_gt_dec (val x) (- val f360)) as [Hle|Hgt].
    + destruct (add360_exact x Hv Hf) as [Hv' [Hf' Hval]]; [lia|].
      destruct (IH (add x f360) fuel Hv' Hf') as [y [Hy [Hvy [Hfy [Hby [Hid Hsm]]]]]];
        [lia|lia|lia|].
      exists y. repeat split; try (assumption || lia).
      intros _. destruct (Z.eq_dec (val (add x f360)) 0) as [Hz|Hnz].
      * rewrite Hid by lia. lia.
      * apply Hsm. lia.
    + destruct (add360_small x Hv Hf) as [Hv' [Hf' Hval]]; [lia|].
      destruct (IH (add x f360) fuel Hv' Hf') as [y [Hy [Hvy [Hfy [Hby [Hid Hsm]]]]]];
        [lia|lia|lia|].
      exists y. repeat split; try (assumption || lia).
      intros _. rewrite Hid by lia. lia.
Qed.

Lemma loop_pos (n : nat) :
  forall (x : float) (fuel : nat),
    valid x = true -> isfinite x = true -> 0 <= val x <= lim ->
    val x < (Z.of_nat n + 1) * val f360 -> (n < fuel)%nat ->
    exists y,
      while_loop fuel (fun x => leb f360 x) (fun x => sub x f360) x = Some y /\
      valid y = true /\ isfinite y = true /\ 0 <= val y < val f360.
Proof.
  pose proof val360_pos as [H360 Hl360].
  induction n as [|n IH]; intros x fuel Hv Hf Hb Hn Hfuel;
    (destruct fuel as [|fuel]; [lia|]); rewrite while_loop_S;
    rewrite (leb_val f360 x valid_f360 Hv eq_refl Hf);
    destruct (Z.leb_spec (val f360) (val x)) as [Hge|Hlt];
    try (exists x; repeat split; (assumption || lia)).
  - destruct (sub360_exact x Hv Hf) as [Hv' [Hf' Hval]]; [lia|].
    destruct (IH (sub x f360) fuel Hv' Hf') as [y Hy]; [lia|lia|lia|].
    exists y. exact Hy.
Qed.

Lemma wrap_terminates (v : float) (fuel : nat) :
  valid v = true -> isfinite v = true -> Z.abs (val v) <= lim ->
  (wrap_fuel v <= fuel)%nat ->
  exists r, wrap_azimuth fuel v = Some r /\
            valid r = true /\ isfinite r = true /\ 0 <= val r < val f360.
Proof.
  intros Hv Hf Hb Hfuel. pose proof val360_pos as [H360 Hl360].
  unfold wrap_fuel in Hfuel.
  set (q := Z.abs (val v) / val f360) in *.
  assert (Hq0 : 0 <= q) by (apply Z.div_pos; lia).
  assert (Hdm : Z.abs (val v) = val f360 * q + Z.abs (val v) mod val f360)
    by (apply Z.div_mod; lia).
  pose proof (Z.mod_pos_bound (Z.abs (val v)) (val f360) H360) as Hmb.
  destruct (loop_neg (Z.to_nat q + 1) v fuel Hv Hf) as [y [Hy [Hvy [Hfy [Hby [Hid Hsm]]]]]];
    [lia|nia|lia|].
  unfold wrap_azimuth. rewrite Hy.
  destruct (Z_le_gt_dec 0 (val v)) as [Hnn|Hneg].
  - rewrite (Hid Hnn) in *.
    apply (loop_pos (Z.to_nat q)); [assumption|assumption|lia|nia|lia].
  - apply (loop_pos 1); [assumption|assumption|lia|lia|lia].
Qed.

Lemma in_band_inv (x : float) :
  valid x = true -> in_band x = true ->
  isfinite x = true /\ Z.abs (val x) <= 2 ^ 1129.
Proof.
  intros Hv Hb. unfold in_band in Hb. apply andb_prop in Hb as [H1 H2].
  assert (Hf : isfinite x = true).
  { destruct x as [s|[|]| |s m e]; try reflexivity; discriminate. }
  split; [exact Hf|].
  rewrite leb_val in H1, H2 by (reflexivity || assumption).
  apply Z.leb_le in H1, H2.
  change (val (SFopp band)) with (- (1 * 2 ^ 1129)) in H1.
  change (val band) with (1 * 2 ^ 1129) in H2. lia.
Qed.

Lemma add_in_band (b a : float) :
  valid b = true -> valid a = true -> in_band b = true -> in_band a = true ->
  valid (add b a) = true /\ isfinite (add b a) = true /\
  Z.abs (val (add b a)) <= lim.
Proof.
  intros Hvb Hva Hb Ha.
  destruct (in_band_inv b Hvb Hb) as [Hfb Hbb].
  destruct (in_band_inv a Hva Ha) as [Hfa Hba].
  assert (Hl : lim = 2 ^ 1129 + 2 ^ 1129).
  { unfold lim. replace 1130 with (Z.succ 1129) by lia. rewrite Z.pow_succ_r; lia. }
  pose proof lim_lt_top. pose proof lim_pos.
  assert (HR : repr (Z.abs lim)) by (rewrite Z.abs_eq by lia; exact repr_lim).
  assert (HR' : repr (Z.abs (- lim))) by (rewrite Z.abs_opp; exact HR).
  destruct (sum_spec_bounds (val b + val a) (add b a) (- lim) lim)
    as [Hf [Hv Hbd]];
    [now apply add_spec|lia|exact HR'|exact HR|lia|lia|].
  repeat split; [exact Hv|exact Hf|lia].
Qed.

Lemma wrap_in_range (v : float) (fuel : nat) :
  valid v = true -> isfinite v = true -> Z.abs (val v) <= lim ->
  (wrap_fuel v <= fuel)%nat ->
  exists r, wrap_azimuth fuel v = Some r /\ valid r = true /\
            leb zero r = true /\ ltb r f360 = true.
Proof.
  intros Hv Hf Hb Hfuel.
  destruct (wrap_terminates v fuel Hv Hf Hb Hfuel) as [r [Hr [Hvr [Hfr Hbr]]]].
  exists r. split; [exact Hr|]. split; [exact Hvr|].
  rewrite (leb_val zero r valid_zero Hvr eq_refl Hfr).
  rewrite (ltb_val r f360 Hvr valid_f360 Hfr eq_refl). rewrite val_zero.
  split; [apply Z.leb_le|apply Z.ltb_lt]; lia.
Qed.

Lemma rotate_in_range (b a : float) (fuel : nat) :
  valid b = true -> valid a = true -> in_band b = true -> in_band a = true ->
  (wrap_fuel (add b a) <= fuel)%nat ->
  exists r, rotate_azimuth fuel b a = Some r /\ valid r = true /\
            leb zero r = true /\ ltb r f360 = true.
Proof.
  intros Hvb Hva Hb Ha Hfuel.
  destruct (add_in_band b a Hvb Hva Hb Ha) as [Hv [Hf Hbd]].
  now apply wrap_in_range.
Qed.

Lemma huge_finite : valid huge = true /\ isfinite huge = true.
Proof. split; reflexivity. Qed.

Lemma wrap_huge_diverges (fuel : nat) : wrap_azimuth fuel huge = None.
Proof.
  unfold wrap_azimuth. destruct fuel as [|fuel]; [reflexivity|].
  rewrite (while_loop_S fuel (fun x => ltb x zero)).
  replace (ltb huge zero) with false by (vm_compute; reflexivity).
  apply huge_loops.
Qed.

Lemma while_loop_mono (cond : float -> bool) (body : float -> float) (fuel : nat) :
  forall (fuel' : nat) (x y : float),
    while_loop fuel cond body x = Some y -> (fuel <= fuel')%nat ->
    while_loop fuel' cond body x = Some y.
Proof.
  induction fuel as [|fuel IH]; intros fuel' x y Hrun Hle; [discriminate|].
  destruct fuel' as [|fuel']; [lia|]. simpl in *.
  destruct (cond x); [|exact Hrun]. apply IH; [exact Hrun|lia].
Qed.

Lemma wrap_azimuth_mono (fuel fuel' : nat) (v r : float) :
  wrap_azimuth fuel v = Some r -> (fuel <= fuel')%nat ->
  wrap_azimuth fuel' v = Some r.
Proof.
  unfold wrap_azimuth. intros Hrun Hle.
  destruct (while_loop fuel _ _ v) as [v1|] eqn:H1; [|discriminate].
  rewrite (while_loop_mono _ _ fuel fuel' v v1 H1 Hle).
  now apply (while_loop_mono _ _ fuel fuel').
Qed.

End WrapFacts.

(** ** The angle sweep over one station (lines 61-106): facts *)

Module SweepFacts.
Import B64 Wrap Sweep B64Facts WrapFacts.

(** *** Facts about the sweep *)

Section EvaluatorFacts.

Variable rf_trace : Type.

Variable config : Type.

Variable transform_stream_to_rf :
  evid -> stream -> config -> config -> option (list rf_trace).

Variable arrival_strength : list rf_trace -> float.

Lemma list_max_cons_le (n : nat) (l : list nat) (fuel : nat) :
  (list_max (n :: l) <= fuel)%nat -> (n <= fuel)%nat /\ (list_max l <= fuel)%nat.
Proof. simpl. lia. Qed.

Lemma rotate_trace_total (fuel : nat) (a : float) (tr : trace) :
  trace_ok tr = true -> angle_ok a = true ->
  (wrap_fuel (add (back_azimuth tr) a) <= fuel)%nat ->
  exists tr', rotate_trace fuel a tr = Some tr' /\ wrapped tr' /\
              starttime tr' = starttime tr /\ endtime tr' = endtime tr /\
              samples tr' = samples tr.
Proof.
  unfold trace_ok, angle_ok. intros Htr Ha Hfuel.
  apply andb_prop in Htr as [Hvb Hb]. apply andb_prop in Ha as [Hva Hab].
  destruct (rotate_in_range (back_azimuth tr) a fuel Hvb Hva Hb Hab Hfuel)
    as [r [Hr [_ [H0 H360]]]].
  exists (set_back_azimuth r tr). unfold rotate_trace. rewrite Hr.
  repeat split; assumption.
Qed.

Lemma rotate_stream_total (fuel : nat) (a : float) (s : stream) :
  forallb trace_ok s = true -> angle_ok a = true ->
  (stream_fuel a s <= fuel)%nat ->
  exists s', rotate_stream fuel a s = Some s' /\ Forall wrapped s' /\
             length s' = length s.
Proof.
  intros Hs Ha. unfold stream_fuel.
  induction s as [|tr s IH]; intros Hfuel.
  - exists []. repeat split. constructor.
  - simpl in Hs. apply andb_prop in Hs as [Htr Hs].
    simpl map in Hfuel. apply list_max_cons_le in Hfuel as [Hf1 Hf2].
    destruct (rotate_trace_total fuel a tr Htr Ha Hf1) as [tr' [Hr [Hw _]]].
    destruct (IH Hs Hf2) as [s' [Hs' [Hws Hlen]]].
    exists (tr' :: s'). simpl. rewrite Hr, Hs'.
    repeat split; [now constructor|simpl; now rewrite Hlen].
Qed.

Lemma rotate_db_total (fuel : nat) (a : float) (db_evid : event_db) :
  db_ok db_evid = true -> angle_ok a = true ->
  (sweep_fuel db_evid a <= fuel)%nat ->
  exists db_rot, rotate_db fuel a db_evid = Some db_rot /\
                 map fst db_rot = map fst db_evid /\
                 Forall (fun e => Forall wrapped (snd e)) db_rot.
Proof.
  intros Hdb Ha. unfold sweep_fuel, db_ok in *.
  induction db_evid as [|[ev s] db IH]; intros Hfuel.
  - exists []. repeat split. constructor.
  - simpl in Hdb. apply andb_prop in Hdb as [Hs Hdb].
    simpl map in Hfuel. apply list_max_cons_le in Hfuel as [Hf1 Hf2].
    destruct (rotate_stream_total fuel a s Hs Ha Hf1) as [s' [Hs' [Hw _]]].
    destruct (IH Hdb Hf2) as [db' [Hdb' [Hkeys Hwdb]]].
    exists ((ev, s') :: db'). simpl. rewrite Hs', Hdb'.
    repeat split; [simpl; now rewrite Hkeys|now constructor].
Qed.

Lemma collect_rf_spec (fuel : nat) (a : float) (cf cp : config)
    (db_evid : event_db) :
  forall acc : list rf_trace,
    collect_rf rf_trace config transform_stream_to_rf fuel a cf cp db_evid acc =
    match rotate_db fuel a db_evid with
    | None => None
    | Some db_rot => Some (acc ++ aggregate rf_trace config transform_stream_to_rf cf cp db_rot)
    end.
Proof.
  induction db_evid as [|[ev s] db IH]; intros acc; simpl.
  - now rewrite app_nil_r.
  - destruct (rotate_stream fuel a s) as [s'|]; [|reflexivity].
    destruct (transform_stream_to_rf ev s' cf cp) as [rf|] eqn:Htr; rewrite IH;
      destruct (rotate_db fuel a db) as [db'|]; try reflexivity;
      unfold aggregate; simpl flat_map; unfold contribution; cbn [fst snd];
      rewrite Htr.
    + now rewrite app_assoc.
    + reflexivity.
Qed.

Lemma sweep_angle_spec (fuel : nat) (db_evid : event_db) (cf cp : config)
    (a : float) :
  sweep_angle rf_trace config transform_stream_to_rf arrival_strength
              fuel db_evid cf cp a =
  match rotate_db fuel a db_evid with
  | None => None
  | Some db_rot =>
      Some (ampl_of rf_trace arrival_strength
              (aggregate rf_trace config transform_stream_to_rf cf cp db_rot))
  end.
Proof.
  unfold sweep_angle. rewrite collect_rf_spec.
  destruct (rotate_db fuel a db_evid); reflexivity.
Qed.

Lemma aggregate_all_none (cf cp : config) (db_rot : event_db) :
  Forall (fun e => transform_stream_to_rf (fst e) (snd e) cf cp = None) db_rot ->
  aggregate rf_trace config transform_stream_to_rf cf cp db_rot = [].
Proof.
  induction 1 as [|e db He _ IH]; [reflexivity|].
  unfold aggregate in *. simpl. unfold contribution at 1. now rewrite He, IH.
Qed.

Lemma run_single_station_total (fuel : nat) (db_evid : event_db)
    (angles : list float) (cf cp : config) :
  db_ok db_evid = true -> forallb angle_ok angles = true ->
  (job_fuel db_evid angles <= fuel)%nat ->
  exists ampls,
    run_single_station rf_trace config transform_stream_to_rf arrival_strength
                       fuel db_evid angles cf cp = Some ampls /\
    Forall2 (fun a ampl =>
               sweep_angle rf_trace config transform_stream_to_rf arrival_strength
                           fuel db_evid cf cp a = Some ampl) angles ampls.
Proof.
  intros Hdb. unfold job_fuel.
  induction angles as [|a angles IH]; intros Ha Hfuel.
  - exists []. split; [reflexivity|constructor].
  - simpl in Ha. apply andb_prop in Ha as [Ha Has].
    simpl map in Hfuel. apply list_max_cons_le in Hfuel as [Hf1 Hf2].
    destruct (rotate_db_total fuel a db_evid Hdb Ha Hf1) as [db' [Hrot _]].
    destruct (IH Has Hf2) as [ampls [Hrun Hall]].
    pose proof (sweep_angle_spec fuel db_evid cf cp a) as Hsw.
    rewrite Hrot in Hsw.
    eexists. simpl. rewrite Hsw, Hrun. split; [reflexivity|].
    constructor; assumption.
Qed.

End EvaluatorFacts.

End SweepFacts.

(** ** The angle sweep over a store of waveform records: facts *)

Module HeapFacts.
Import B64 Wrap Sweep Heap B64Facts WrapFacts SweepFacts.

(** *** Frame facts *)












Section StoreFacts.

Variable rf_trace : Type.

Variable config : Type.

Variable transform_stream_to_rf :
  evid -> stream -> config -> config -> option (list rf_trace).

Variable arrival_strength : list rf_trace -> float.






Lemma rotate_in_place_dom (fuel : nat) (a : float) (s : stream_ref) :
  forall h h' : heap,
    rotate_in_place fuel a s h = Some h' -> Forall (fun l => l ∈ dom h) s ->
    dom h' = dom h.
Proof.
  induction s as [|l rest IH]; intros h h' Hrun Hin; simpl in Hrun.
  - now injection Hrun as <-.
  - destruct (rotate_trace fuel a (h !!! l)) as [tr'|]; [|discriminate].
    inversion Hin as [|? ? Hl Hrest]; subst.
    assert (Hd : dom (<[l := tr']> h) = dom h).
    { rewrite dom_insert_L. apply elem_of_dom in Hl.
      apply set_eq. intros x. rewrite elem_of_union, elem_of_singleton.
      split; [intros [->|?]; [now apply elem_of_dom|assumption]|now right]. }
    rewrite (IH _ _ Hrun); [exact Hd|]. now rewrite Hd.
Qed.



End StoreFacts.

(** *** The job over values and over the store *)

Section JobFacts.
Variable rf_trace : Type.
Variable config : Type.
Variable transform_stream_to_rf :
  evid -> stream -> config -> config -> option (list rf_trace).
Variable arrival_strength : list rf_trace -> float.

Lemma run_single_station_inv (fuel : nat) (db_evid : event_db) (cf cp : config)
    (grid : list float) :
  forall ampls : list float,
    run_single_station rf_trace config transform_stream_to_rf arrival_strength
                       fuel db_evid grid cf cp = Some ampls ->
    Forall2 (fun a ampl =>
               sweep_angle rf_trace config transform_stream_to_rf arrival_strength
                           fuel db_evid cf cp a = Some ampl) grid ampls.
Proof.
  induction grid as [|a grid IH]; intros ampls Hrun; cbn [run_single_station] in Hrun.
  - injection Hrun as <-. constructor.
  - destruct (sweep_angle _ _ _ _ fuel db_evid cf cp a) as [ampl|] eqn:Ha;
      [|discriminate].
    destruct (run_single_station _ _ _ _ fuel db_evid grid cf cp) as [rest|];
      [|discriminate].
    injection Hrun as <-. constructor; [exact Ha|now apply IH].
Qed.


Lemma run_single_station_huge (fuel : nat) (ev : evid) (t0 t1 t2 : Z)
    (smp : list float) (rest : stream) (db : event_db) (cf cp : config)
    (a : float) (grid : list float) :
  add huge a = huge ->
  run_single_station rf_trace config transform_stream_to_rf arrival_strength
    fuel ((ev, mk_trace huge t0 t1 t2 smp :: rest) :: db) (a :: grid) cf cp = None.
Proof.
  intros Ha. cbn [run_single_station]. unfold sweep_angle.
  cbn [collect_rf rotate_stream]. unfold rotate_trace. cbn [back_azimuth].
  unfold rotate_azimuth. rewrite Ha, wrap_huge_diverges. reflexivity.
Qed.

End JobFacts.

End HeapFacts.

(** ** The orchestrator (lines 109-241): facts *)

Module OrientFacts.
Import B64 Wrap Sweep Heap Orient B64Facts WrapFacts SweepFacts HeapFacts.

Example angles_val : angles = map (fun i => of_Z (-180 + 18 * Z.of_nat i)) (seq 0 20).
Proof. vm_compute. reflexivity. Qed.

Example angles_fine_val : angles_fine = map (fun i => of_Z (-180 + Z.of_nat i)) (seq 0 361).
Proof. vm_compute. reflexivity. Qed.

Example x_grid_last : nth 20 x_grid nan = of_Z 180.
Proof. vm_compute. reflexivity. Qed.

Lemma append_inj_r (s t1 t2 : string) : s +:+ t1 = s +:+ t2 -> t1 = t2.
Proof.
  induction s as [|c s IH]; simpl; intros H; [exact H|].
  injection H as H. now apply IH.
Qed.

Lemma full_code_inj (net sta1 sta2 : string) :
  full_code net sta1 = full_code net sta2 -> sta1 = sta2.
Proof.
  unfold full_code. intros H. apply append_inj_r in H. now apply append_inj_r in H.
Qed.

Lemma field_empty (code key : string) : field ∅ code key = None.
Proof. unfold field. now rewrite lookup_empty. Qed.

Lemma field_set_eq (code key : string) (v : value)
    (res : gmap string (gmap string value)) :
  field (set_field code key v res) code key = Some v.
Proof. unfold field, set_field. now rewrite !lookup_insert_eq. Qed.

Lemma field_set_ne_code (code code' key key' : string) (v : value)
    (res : gmap string (gmap string value)) :
  code <> code' -> field (set_field code key v res) code' key' = field res code' key'.
Proof. intros Hne. unfold field, set_field. now rewrite lookup_insert_ne. Qed.

Lemma field_set_ne_key (code key key' : string) (v : value)
    (res : gmap string (gmap string value)) :
  key <> key' -> field (set_field code key v res) code key' = field res code key'.
Proof.
  intros Hne. unfold field, set_field. rewrite lookup_insert_eq.
  rewrite lookup_insert_ne by exact Hne.
  destruct (res !! code); [reflexivity|]. simpl. apply lookup_empty.
Qed.

Lemma field_set_other_key (code code' key key' : string) (v : value)
    (res : gmap string (gmap string value)) :
  key <> key' -> field (set_field code key v res) code' key' = field res code' key'.
Proof.
  intros Hne. destruct (decide (code = code')) as [->|Hc].
  - now apply field_set_ne_key.
  - now apply field_set_ne_code.
Qed.

Section AnalysisFacts.

Variable rf_trace : Type.

Variable config : Type.

Variable curation : Type.

Variable transform_stream_to_rf :
  evid -> stream -> config -> config -> option (list rf_trace).

Variable arrival_strength : list rf_trace -> float.

Variable utc_str : Z -> string.

Variable stream_trim : stream -> Z -> Z -> stream.

Variable downsample : stream -> stream.

Variable curate_seismograms :
  dataset -> curation -> gmap string event_db * list string.

Variable curve_fit : list float -> list float -> option (float * float * float).

Variable np_cos : float -> float.

Lemma date_ranges_spec (net : string) (stations : list (string * event_db)) :
  forall res res' : gmap string (gmap string value),
    NoDup (map fst stations) ->
    date_ranges utc_str net stations res = Ret res' ->
    (forall sta db, In (sta, db) stations ->
       exists sp, station_span db = Ret sp /\
                  field res' (full_code net sta) "date_range"
                    = Some (date_range_of utc_str sp)) /\
    (forall c k, k <> "date_range" -> field res' c k = field res c k) /\
    (forall c, (forall sta, In sta (map fst stations) -> c <> full_code net sta) ->
       field res' c "date_range" = field res c "date_range").
Proof.
  induction stations as [|[sta db] rest IH]; intros res res' Hnd Hrun; simpl in Hrun.
  - injection Hrun as <-. repeat split; intros; try reflexivity. contradiction.
  - destruct (station_span db) as [sp|e|] eqn:Hsp; simpl in Hrun; try discriminate.
    inversion Hnd as [|? ? Hnotin Hnd']; subst.
    destruct (IH _ _ Hnd' Hrun) as [Hin [Hother Hrest]].
    split; [|split].
    + intros sta' db' [Heq|Hin'].
      * injection Heq as <- <-. exists sp. split; [exact Hsp|].
        rewrite Hrest; [apply field_set_eq|].
        intros sta' Hsta' Heq. apply full_code_inj in Heq. subst sta'.
        apply Hnotin. now apply list_elem_of_In.
      * now apply Hin.
    + intros c k Hk. rewrite (Hother c k Hk).
      apply field_set_other_key. congruence.
    + intros c Hc. rewrite Hrest.
      * apply field_set_ne_code. intros Heq. apply (Hc sta); [now left|now symmetry].
      * intros sta' Hsta'. apply Hc. now right.
Qed.

Lemma estimate_station_spec (net : string)
    (st st' : gmap string (gmap string value) * list log_entry)
    (sta : string) (N : nat) (ampls : list float) :
  estimate_station curve_fit np_cos net st (sta, N, ampls) = Ret st' ->
  exists y, closed_curve ampls = Ret y /\
    if (n_valid y <? 5)%nat
    then fst st' = fst st /\ snd st' = snd st ++ [LogInsufficient sta (n_valid y)]
    else exists a ph_uncertainty,
           fitted_angle curve_fit np_cos y = Some a /\
           fst st' = set_field (full_code net sta) "azimuth_correction" (VFloat a) (fst st) /\
           snd st' = snd st ++ [LogEstimate sta a ph_uncertainty N].
Proof.
  unfold estimate_station, fitted_angle.
  destruct (closed_curve ampls) as [y|e|] eqn:Hy; cbn [bind]; try discriminate.
  intros Hrun. exists y. split; [reflexivity|].
  destruct (n_valid y <? 5)%nat.
  - injection Hrun as <-. split; reflexivity.
  - destruct (mask_select x_grid (map isfinite y)) as [xv|]; [|discriminate].
    destruct (mask_select y (map isfinite y)) as [yv|]; [|discriminate].
    destruct (curve_fit xv yv) as [[[A ph] cov]|]; [|discriminate].
    injection Hrun as <-. eexists _, _. repeat split.
Qed.

Lemma estimate_all_spec (net : string) (metrics : list (string * nat * list float)) :
  forall st st' : gmap string (gmap string value) * list log_entry,
    NoDup (map station_of metrics) ->
    estimate_all curve_fit np_cos net st metrics = Ret st' ->
    (forall c k, k <> "azimuth_correction" -> field (fst st') c k = field (fst st) c k) /\
    (forall c, (forall m, In m metrics -> c <> full_code net (station_of m)) ->
       field (fst st') c "azimuth_correction" = field (fst st) c "azimuth_correction") /\
    (forall e, In e (snd st) -> In e (snd st')) /\
    (forall sta N ampls, In (sta, N, ampls) metrics ->
       exists y, closed_curve ampls = Ret y /\
         if (n_valid y <? 5)%nat
         then field (fst st') (full_code net sta) "azimuth_correction"
                = field (fst st) (full_code net sta) "azimuth_correction" /\
              In (LogInsufficient sta (n_valid y)) (snd st')
         else exists a, fitted_angle curve_fit np_cos y = Some a /\
                field (fst st') (full_code net sta) "azimuth_correction"
                  = Some (VFloat a)).
Proof.
  induction metrics as [|[[sta N] ampls] rest IH]; intros st st' Hnd Hrun;
    cbn [estimate_all] in Hrun.
  - injection Hrun as <-. repeat split; intros; try reflexivity; try assumption.
    contradiction.
  - destruct (estimate_station curve_fit np_cos net st (sta, N, ampls))
      as [st1|e|] eqn:Hst; cbn [bind] in Hrun; try discriminate.
    inversion Hnd as [|? ? Hnotin Hnd']; subst. unfold station_of in Hnotin.
    cbn [fst] in Hnotin.
    destruct (IH _ _ Hnd' Hrun) as [Hkeys [Hcodes [Hlog Hin]]].
    destruct (estimate_station_spec net st st1 sta N ampls Hst) as [y [Hy Hcase]].
    assert (Hrestcode : forall m, In m rest ->
              full_code net sta <> full_code net (station_of m)).
    { intros m Hm Heq. apply full_code_inj in Heq. apply Hnotin.
      rewrite Heq. apply list_elem_of_In. now apply in_map. }
    assert (Hst1keys : forall c k, k <> "azimuth_correction" ->
              field (fst st1) c k = field (fst st) c k).
    { intros c k Hk. destruct (n_valid y <? 5)%nat.
      - destruct Hcase as [-> _]. reflexivity.
      - destruct Hcase as [a [u [_ [-> _]]]]. apply field_set_other_key. congruence. }
    assert (Hst1log : forall e, In e (snd st) -> In e (snd st1)).
    { intros e He. destruct (n_valid y <? 5)%nat.
      - destruct Hcase as [_ ->]. apply in_or_app. now left.
      - destruct Hcase as [a [u [_ [_ ->]]]]. apply in_or_app. now left. }
    split; [|split; [|split]].
    + intros c k Hk. rewrite (Hkeys c k Hk). now apply Hst1keys.
    + intros c Hc. rewrite Hcodes by (intros m Hm; apply Hc; now right).
      assert (Hne : full_code net sta <> c).
      { intros Heq. apply (Hc (sta, N, ampls)); [now left|now symmetry]. }
      destruct (n_valid y <? 5)%nat.
      * destruct Hcase as [-> _]. reflexivity.
      * destruct Hcase as [a [u [_ [-> _]]]]. now apply field_set_ne_code.
    + intros e He. apply Hlog. now apply Hst1log.
    + intros sta' N' ampls' [Heq|Hin'].
      * injection Heq as <- <- <-. exists y. split; [exact Hy|].
        rewrite (Hcodes _ Hrestcode).
        destruct (n_valid y <? 5)%nat.
        -- destruct Hcase as [Hres Hlg]. split; [now rewrite Hres|].
           apply Hlog. rewrite Hlg. apply in_or_app. right. now left.
        -- destruct Hcase as [a [u [Hfit [Hres _]]]]. exists a.
           split; [exact Hfit|]. rewrite Hres. apply field_set_eq.
      * destruct (Hin _ _ _ Hin') as [y' [Hy' Hcase']]. exists y'.
        split; [exact Hy'|].
        assert (Hne : full_code net sta <> full_code net sta').
        { apply (Hrestcode (sta', N', ampls') Hin'). }
        destruct (n_valid y' <? 5)%nat; [|exact Hcase'].
        destruct Hcase' as [Hf Hl]. split; [|exact Hl]. rewrite Hf.
        destruct (n_valid y <? 5)%nat.
        -- destruct Hcase as [-> _]. reflexivity.
        -- destruct Hcase as [a [u [_ [-> _]]]]. now apply field_set_ne_code.
Qed.

Lemma run_jobs_spec (fuel : nat) (cf cp : config) (jobs : list (string * event_db)) :
  forall sta_ampls : list (list float),
    run_jobs rf_trace config transform_stream_to_rf arrival_strength
             fuel cf cp jobs = Ret sta_ampls ->
    Forall2 (fun job ampls => job_curve rf_trace config transform_stream_to_rf arrival_strength fuel cf cp (snd job) = Some ampls)
            jobs sta_ampls.
Proof.
  unfold job_curve.
  induction jobs as [|[sta db] rest IH]; intros sta_ampls Hrun; cbn [run_jobs] in Hrun.
  - injection Hrun as <-. constructor.
  - destruct (run_single_station _ _ _ _ fuel db angles cf cp) as [ampls|] eqn:Hjob;
      [|discriminate].
    destruct (run_jobs _ _ _ _ fuel cf cp rest) as [r|e|]; cbn [bind] in Hrun;
      try discriminate.
    injection Hrun as <-. constructor; [exact Hjob|now apply IH].
Qed.

Lemma run_jobs_total (fuel : nat) (cf cp : config) (jobs : list (string * event_db)) :
  Forall (fun job => exists ampls, job_curve rf_trace config transform_stream_to_rf arrival_strength fuel cf cp (snd job) = Some ampls) jobs ->
  exists sta_ampls,
    run_jobs rf_trace config transform_stream_to_rf arrival_strength
             fuel cf cp jobs = Ret sta_ampls.
Proof.
  unfold job_curve. induction 1 as [|[sta db] rest [ampls Hjob] _ [r IH]].
  - exists []. reflexivity.
  - exists (ampls :: r). cbn [run_jobs]. cbn [snd] in Hjob. rewrite Hjob, IH.
    reflexivity.
Qed.

Lemma sta_metrics_stations (jobs : list (string * event_db))
    (sta_ampls : list (list float)) :
  length jobs = length sta_ampls ->
  map station_of (sta_metrics jobs sta_ampls) = map fst jobs.
Proof.
  revert sta_ampls. unfold sta_metrics.
  induction jobs as [|[sta db] rest IH]; intros [|ampls r] Hlen;
    try discriminate; [reflexivity|].
  cbn [combine map station_of fst snd]. f_equal. apply IH.
  simpl in Hlen. lia.
Qed.

Lemma sta_metrics_in (fuel : nat) (cf cp : config)
    (jobs : list (string * event_db)) (sta_ampls : list (list float)) :
  Forall2 (fun job ampls => job_curve rf_trace config transform_stream_to_rf arrival_strength fuel cf cp (snd job) = Some ampls)
          jobs sta_ampls ->
  forall sta db, In (sta, db) jobs ->
    exists ampls, job_curve rf_trace config transform_stream_to_rf arrival_strength fuel cf cp db = Some ampls /\
                  In (sta, length db, ampls) (sta_metrics jobs sta_ampls).
Proof.
  unfold sta_metrics.
  induction 1 as [|[sta0 db0] ampls0 rest r Hjob _ IH]; intros sta db Hin.
  - contradiction.
  - destruct Hin as [Heq|Hin].
    + injection Heq as <- <-. exists ampls0. split; [exact Hjob|now left].
    + destruct (IH sta db Hin) as [ampls [Hj Hm]]. exists ampls.
      split; [exact Hj|now right].
Qed.

Lemma analyze_inv (fuel : nat) (ned : dataset) (curation_opts : curation)
    (cf cp : config) (out : run) :
  analyze_station_orientations rf_trace config curation transform_stream_to_rf
    arrival_strength utc_str stream_trim downsample curate_seismograms
    curve_fit np_cos fuel ned curation_opts cf cp = Ret out ->
  ned_len ned <> 0%nat ->
  exists res ned1 sta_ampls lg,
    date_ranges utc_str (network ned) (by_station ned) ∅ = Ret res /\
    ned_apply (trim_window stream_trim) ned = Ret ned1 /\
    run_jobs rf_trace config transform_stream_to_rf arrival_strength fuel cf cp
             (by_station (curated curation downsample curate_seismograms ned1 curation_opts)) = Ret sta_ampls /\
    estimate_all curve_fit np_cos (network (curated curation downsample curate_seismograms ned1 curation_opts)) (res, lg)
      (sta_metrics (by_station (curated curation downsample curate_seismograms ned1 curation_opts)) sta_ampls)
      = Ret (results out, log out) /\
    ned_after out = curated curation downsample curate_seismograms ned1 curation_opts.
Proof.
  unfold analyze_station_orientations. intros Hrun Hlen.
  destruct (Nat.eqb_spec (ned_len ned) 0) as [?|_]; [contradiction|].
  destruct (date_ranges utc_str (network ned) (by_station ned) ∅) as [res|e|]
    eqn:Hdates; cbn [bind] in Hrun; try discriminate.
  destruct (ned_apply (trim_window stream_trim) ned) as [ned1|e|] eqn:Htrim;
    cbn [bind] in Hrun; try discriminate.
  fold (curated curation downsample curate_seismograms ned1 curation_opts) in Hrun.
  destruct (run_jobs _ _ _ _ fuel cf cp (by_station (curated curation downsample curate_seismograms ned1 curation_opts)))
    as [sta_ampls|e|] eqn:Hjobs; cbn [bind] in Hrun; try discriminate.
  destruct (estimate_all curve_fit np_cos _ _ _) as [[r l]|e|] eqn:Hest;
    cbn [bind] in Hrun; try discriminate.
  injection Hrun as <-. eexists _, _, _, _.
  split; [reflexivity|split; [reflexivity|split; [exact Hjobs|split;
    [exact Hest|reflexivity]]]].
Qed.

Lemma ned_apply_network (f : stream -> outcome stream) (ned ned1 : dataset) :
  ned_apply f ned = Ret ned1 -> network ned1 = network ned.
Proof.
  unfold ned_apply. destruct (find _ _) as [s|].
  - destruct (f s); discriminate.
  - intros [= <-]. reflexivity.
Qed.

End AnalysisFacts.

(** *** The first maximum *)

Lemma number_inv (v : float) :
  number v = true -> valid v = true /\ isfinite v = true /\ isnan v = false.
Proof.
  unfold number. intros H. apply andb_prop in H. destruct H as [Hv Hf].
  repeat split; try assumption. now destruct v.
Qed.

Lemma number_leb (x y : float) :
  number x = true -> number y = true -> leb x y = (val x <=? val y).
Proof.
  intros Hx Hy. destruct (number_inv x Hx) as [? [? _]].
  destruct (number_inv y Hy) as [? [? _]]. now apply leb_val.
Qed.

Lemma number_ltb (x y : float) :
  number x = true -> number y = true -> ltb x y = (val x <? val y).
Proof.
  intros Hx Hy. destruct (number_inv x Hx) as [? [? _]].
  destruct (number_inv y Hy) as [? [? _]]. now apply ltb_val.
Qed.

Lemma forallb_nth_number (l : list float) (j : nat) :
  forallb number l = true -> (j < length l)%nat -> number (nth j l nan) = true.
Proof.
  intros Hall Hj. rewrite forallb_forall in Hall. apply Hall. now apply nth_In.
Qed.

Lemma argmax_from_spec (rest : list float) :
  forall (pre : list float) (mp : float) (max_ind : nat),
    forallb number (pre ++ rest) = true ->
    (max_ind < length pre)%nat ->
    nth max_ind pre nan = mp ->
    (forall j, (j < length pre)%nat -> val (nth j pre nan) <= val mp) ->
    (forall j, (j < max_ind)%nat -> val (nth j pre nan) < val mp) ->
    let r := argmax_from mp max_ind (length pre) rest in
    (r < length (pre ++ rest))%nat /\
    (forall j, (j < length (pre ++ rest))%nat ->
       val (nth j (pre ++ rest) nan) <= val (nth r (pre ++ rest) nan)) /\
    (forall j, (j < r)%nat ->
       val (nth j (pre ++ rest) nan) < val (nth r (pre ++ rest) nan)).
Proof.
  induction rest as [|v rest IH]; intros pre mp max_ind Hall Hlt Hmp Hle Hfirst.
  - cbn [argmax_from]. rewrite app_nil_r. rewrite Hmp. repeat split; assumption.
  - assert (Hmpn : number mp = true).
    { rewrite <- Hmp. rewrite <- (app_nth1 pre (v :: rest) nan Hlt).
      apply forallb_nth_number; [exact Hall|]. rewrite length_app. lia. }
    assert (Hvn : number v = true).
    { rewrite forallb_app in Hall. apply andb_prop in Hall. destruct Hall as [_ H].
      cbn [forallb] in H. apply andb_prop in H. tauto. }
    assert (Hsplit : pre ++ v :: rest = (pre ++ [v]) ++ rest).
    { now rewrite <- app_assoc. }
    assert (Hlen : length (pre ++ [v]) = S (length pre)).
    { rewrite length_app. simpl. lia. }
    assert (Hold : forall j, (j < length pre)%nat ->
              nth j (pre ++ [v]) nan = nth j pre nan).
    { intros j Hj. now apply app_nth1. }
    assert (Hnew : nth (length pre) (pre ++ [v]) nan = v).
    { rewrite app_nth2 by lia. now rewrite Nat.sub_diag. }
    cbn [argmax_from]. rewrite (number_leb v mp Hvn Hmpn).
    rewrite Hsplit in *. rewrite <- Hlen.
    destruct (Z.leb_spec (val v) (val mp)) as [Hcmp|Hcmp]; cbn [negb].
    + apply (IH (pre ++ [v]) mp max_ind); try assumption.
      * lia.
      * rewrite Hold by exact Hlt. exact Hmp.
      * intros j Hj. rewrite Hlen in Hj.
        destruct (Nat.eq_dec j (length pre)) as [->|Hne].
        -- now rewrite Hnew.
        -- rewrite Hold by lia. apply Hle. lia.
      * intros j Hj. rewrite Hold by lia. now apply Hfirst.
    + destruct (number_inv v Hvn) as [_ [_ ->]].
      apply (IH (pre ++ [v]) v (length pre)); try assumption.
      * lia.
      * intros j Hj. rewrite Hlen in Hj.
        destruct (Nat.eq_dec j (length pre)) as [->|Hne].
        -- rewrite Hnew. lia.
        -- rewrite Hold by lia. specialize (Hle j). lia.
      * intros j Hj. rewrite Hold by lia. specialize (Hle j). lia.
Qed.

Lemma np_argmax_spec (l : list float) :
  l <> [] -> forallb number l = true ->
  (np_argmax l < length l)%nat /\
  (forall j, (j < length l)%nat ->
     leb (nth j l nan) (nth (np_argmax l) l nan) = true) /\
  (forall j, (j < np_argmax l)%nat ->
     ltb (nth j l nan) (nth (np_argmax l) l nan) = true).
Proof.
  intros Hne Hall. destruct l as [|v rest]; [contradiction|].
  assert (Hvn : number v = true).
  { cbn [forallb] in Hall. apply andb_prop in Hall. tauto. }
  unfold np_argmax. destruct (number_inv v Hvn) as [_ [_ ->]].
  destruct (argmax_from_spec rest [v] v 0 Hall) as [Hlt [Hmax Hfirst]].
  - simpl. lia.
  - reflexivity.
  - intros j Hj. simpl in Hj. assert (j = 0%nat) as -> by lia. simpl. lia.
  - intros j Hj. lia.
  - change (length [v]) with 1%nat in *. change ([v] ++ rest) with (v :: rest) in *.
    split; [exact Hlt|]. split.
    + intros j Hj. rewrite number_leb.
      * apply Z.leb_le. now apply Hmax.
      * now apply forallb_nth_number.
      * now apply forallb_nth_number.
    + intros j Hj. rewrite number_ltb.
      * apply Z.ltb_lt. now apply Hfirst.
      * apply forallb_nth_number; [exact Hall|lia].
      * now apply forallb_nth_number.
Qed.

Lemma np_argmax_lt (l : list float) : l <> [] -> (np_argmax l < length l)%nat.
Proof.
  destruct l as [|v rest]; [contradiction|]. intros _. unfold np_argmax.
  destruct (isnan v); [simpl; lia|].
  assert (H : forall r mp k i, (k < i)%nat ->
            (argmax_from mp k i r < i + length r)%nat).
  { induction r as [|w r IH]; intros mp k i Hk; cbn [argmax_from length].
    - lia.
    - destruct (negb (leb w mp)).
      + destruct (isnan w); [lia|]. specialize (IH w i (S i)). lia.
      + specialize (IH mp k (S i)). lia. }
  specialize (H rest v 0%nat 1%nat). simpl. lia.
Qed.

(** *** The reconstruction grid *)

Lemma angles_fine_length : length angles_fine = 361%nat.
Proof. vm_compute. reflexivity. Qed.

Lemma angles_length : length angles = 20%nat.
Proof. vm_compute. reflexivity. Qed.

Lemma x_grid_length : length x_grid = 21%nat.
Proof. vm_compute. reflexivity. Qed.

Lemma angles_ok : forallb angle_ok angles = true.
Proof. vm_compute. reflexivity. Qed.

Lemma angles_fine_range (a : float) :
  In a angles_fine -> leb (of_Z (-180)) a = true /\ leb a (of_Z 180) = true.
Proof.
  assert (H : forallb (fun a => leb (of_Z (-180)) a && leb a (of_Z 180)) angles_fine
              = true) by (vm_compute; reflexivity).
  rewrite forallb_forall in H. intros Hin. apply andb_prop. now apply H.
Qed.

Lemma y_fitted_length (np_cos : float -> float) (A_fit ph_fit : float) :
  length (y_fitted np_cos A_fit ph_fit) = 361%nat.
Proof. unfold y_fitted. rewrite length_map. apply angles_fine_length. Qed.

Lemma y_fitted_nth (np_cos : float -> float) (A_fit ph_fit : float) (j : nat) :
  (j < 361)%nat ->
  nth j (y_fitted np_cos A_fit ph_fit) nan =
  cosine_model np_cos A_fit ph_fit (nth j angles_fine nan).
Proof.
  intros Hj. unfold y_fitted.
  rewrite (nth_indep _ nan (cosine_model np_cos A_fit ph_fit nan))
    by (rewrite length_map, angles_fine_length; exact Hj).
  apply map_nth.
Qed.

Lemma y_fitted_nonempty (np_cos : float -> float) (A_fit ph_fit : float) :
  y_fitted np_cos A_fit ph_fit <> [].
Proof.
  intros H. apply (f_equal (@length float)) in H. rewrite y_fitted_length in H.
  discriminate.
Qed.

Lemma argmax_fitted_lt (np_cos : float -> float) (A_fit ph_fit : float) :
  (np_argmax (y_fitted np_cos A_fit ph_fit) < 361)%nat.
Proof.
  rewrite <- (y_fitted_length np_cos A_fit ph_fit). apply np_argmax_lt.
  apply y_fitted_nonempty.
Qed.

Lemma angle_max_in_grid (np_cos : float -> float) (A_fit ph_fit : float) :
  In (angle_max np_cos A_fit ph_fit) angles_fine.
Proof.
  unfold angle_max. apply nth_In. rewrite angles_fine_length.
  apply argmax_fitted_lt.
Qed.

Lemma angle_max_maximal (np_cos : float -> float) (A_fit ph_fit : float) :
  forallb number (y_fitted np_cos A_fit ph_fit) = true ->
  (forall j, (j < 361)%nat ->
     leb (cosine_model np_cos A_fit ph_fit (nth j angles_fine nan))
         (cosine_model np_cos A_fit ph_fit (angle_max np_cos A_fit ph_fit)) = true) /\
  (forall j, (j < np_argmax (y_fitted np_cos A_fit ph_fit))%nat ->
     ltb (cosine_model np_cos A_fit ph_fit (nth j angles_fine nan))
         (cosine_model np_cos A_fit ph_fit (angle_max np_cos A_fit ph_fit)) = true).
Proof.
  intros Hall.
  destruct (np_argmax_spec _ (y_fitted_nonempty np_cos A_fit ph_fit) Hall)
    as [Hlt [Hmax Hfirst]].
  rewrite y_fitted_length in Hlt, Hmax. unfold angle_max. split.
  - intros j Hj. rewrite <- !y_fitted_nth by assumption. now apply Hmax.
  - intros j Hj. rewrite <- !y_fitted_nth by lia. now apply Hfirst.
Qed.

(** *** The closed curve *)

Lemma closed_curve_spec (a0 : float) (rest : list float) :
  closed_curve (a0 :: rest) = Ret ((a0 :: rest) ++ [a0]).
Proof. reflexivity. Qed.

Lemma closed_curve_inv (ampls y : list float) :
  closed_curve ampls = Ret y ->
  y = ampls ++ [nth 0 ampls nan] /\ ampls <> [] /\
  length y = S (length ampls) /\
  nth (length ampls) y nan = nth 0 y nan.
Proof.
  destruct ampls as [|a0 rest]; [discriminate|]. intros [= <-].
  split; [reflexivity|]. split; [discriminate|].
  change (a0 :: rest ++ [a0]) with ((a0 :: rest) ++ [a0]). split.
  - rewrite length_app. simpl. lia.
  - rewrite app_nth2 by lia. now rewrite Nat.sub_diag.
Qed.

(** *** Date ranges *)

Lemma fold_min_spec (s : stream) :
  forall t0 : Z,
    fold_left (fun t tr => Z.min t (starttime tr)) s t0 <= t0 /\
    (forall tr, In tr s ->
       fold_left (fun t tr => Z.min t (starttime tr)) s t0 <= starttime tr).
Proof.
  induction s as [|tr0 s IH]; intros t0; cbn [fold_left].
  - split; [lia|contradiction].
  - destruct (IH (Z.min t0 (starttime tr0))) as [Hle Hall]. split; [lia|].
    intros tr [<-|Hin]; [lia|now apply Hall].
Qed.

Lemma fold_max_spec (s : stream) :
  forall t0 : Z,
    t0 <= fold_left (fun t tr => Z.max t (endtime tr)) s t0 /\
    (forall tr, In tr s ->
       endtime tr <= fold_left (fun t tr => Z.max t (endtime tr)) s t0).
Proof.
  induction s as [|tr0 s IH]; intros t0; cbn [fold_left].
  - split; [lia|contradiction].
  - destruct (IH (Z.max t0 (endtime tr0))) as [Hle Hall]. split; [lia|].
    intros tr [<-|Hin]; [lia|now apply Hall].
Qed.

(** [covers sp tr]: the span [sp] contains the time window of [tr]. *)
Lemma span_event_spec (sp sp' : option Z * option Z) (s : stream) :
  span_event sp s = Ret sp' ->
  exists lo hi, sp' = (Some lo, Some hi) /\
    (forall l0, fst sp = Some l0 -> lo <= l0) /\
    (forall h0, snd sp = Some h0 -> h0 <= hi) /\
    Forall (within sp') s.
Proof.
  unfold span_event. intros H.
  destruct (first_or (fst sp) s starttime) as [t0|e|] eqn:H0; cbn [bind] in H;
    try discriminate.
  destruct (first_or (snd sp) s endtime) as [t1|e|] eqn:H1; cbn [bind] in H;
    try discriminate.
  injection H as <-. eexists _, _. split; [reflexivity|].
  destruct (fold_min_spec s t0) as [Hlo Hlos].
  destruct (fold_max_spec s t1) as [Hhi Hhis].
  split; [|split].
  - intros l0 Hl0. rewrite Hl0 in H0. injection H0 as <-. exact Hlo.
  - intros h0 Hh0. rewrite Hh0 in H1. injection H1 as <-. exact Hhi.
  - apply List.Forall_forall. intros tr Hin. unfold within. cbn [fst snd].
    split; [now apply Hlos|now apply Hhis].
Qed.

Lemma within_mono (lo hi lo' hi' : Z) (tr : trace) :
  lo' <= lo -> hi <= hi' -> within (Some lo, Some hi) tr ->
  within (Some lo', Some hi') tr.
Proof. unfold within. cbn [fst snd]. lia. Qed.

Lemma span_events_spec (db : event_db) :
  forall sp sp' : option Z * option Z,
    span_events sp db = Ret sp' ->
    (forall l0, fst sp = Some l0 -> exists lo, fst sp' = Some lo /\ lo <= l0) /\
    (forall h0, snd sp = Some h0 -> exists hi, snd sp' = Some hi /\ h0 <= hi) /\
    Forall (fun e => Forall (within sp') (snd e)) db.
Proof.
  induction db as [|[ev s] rest IH]; intros sp sp' H; cbn [span_events] in H.
  - injection H as <-. split; [|split].
    + intros l0 Hl0. exists l0. split; [exact Hl0|lia].
    + intros h0 Hh0. exists h0. split; [exact Hh0|lia].
    + constructor.
  - destruct (span_event sp s) as [sp1|e|] eqn:H1; cbn [bind] in H; try discriminate.
    destruct (span_event_spec sp sp1 s H1) as [lo1 [hi1 [-> [Hlo1 [Hhi1 Hs]]]]].
    destruct (IH _ _ H) as [Hlo [Hhi Hrest]].
    destruct (Hlo lo1 eq_refl) as [lo [Hflo Hle]].
    destruct (Hhi hi1 eq_refl) as [hi [Hfhi Hge]].
    split; [|split].
    + intros l0 Hl0. exists lo. split; [exact Hflo|]. specialize (Hlo1 l0 Hl0). lia.
    + intros h0 Hh0. exists hi. split; [exact Hfhi|]. specialize (Hhi1 h0 Hh0). lia.
    + constructor; [|exact Hrest]. cbn [snd].
      destruct sp' as [slo shi]. cbn [fst snd] in Hflo, Hfhi. subst slo shi.
      eapply List.Forall_impl; [|exact Hs]. intros tr. now apply within_mono.
Qed.

Lemma station_span_spec (db : event_db) (sp : option Z * option Z) :
  station_span db = Ret sp ->
  Forall (fun e => Forall (within sp) (snd e)) db.
Proof. intros H. now destruct (span_events_spec db _ _ H) as [_ [_ ?]]. Qed.

Lemma by_station_in (ned : dataset) (sta : string) (db : event_db) :
  In (sta, db) (by_station ned) <-> db_sta ned !! sta = Some db.
Proof.
  unfold by_station. rewrite <- list_elem_of_In. apply elem_of_map_to_list.
Qed.

Lemma by_station_nodup (ned : dataset) : NoDup (map fst (by_station ned)).
Proof. unfold by_station. apply NoDup_fst_map_to_list. Qed.

Section PipelineFacts.
Variable rf_trace : Type.
Variable config : Type.
Variable curation : Type.
Variable transform_stream_to_rf :
  evid -> stream -> config -> config -> option (list rf_trace).
Variable arrival_strength : list rf_trace -> float.
Variable utc_str : Z -> string.
Variable stream_trim : stream -> Z -> Z -> stream.
Variable downsample : stream -> stream.
Variable curate_seismograms :
  dataset -> curation -> gmap string event_db * list string.
Variable curve_fit : list float -> list float -> option (float * float * float).
Variable np_cos : float -> float.

(** What a returned run has written for the stations. *)
Lemma analyze_entries (fuel : nat) (ned : dataset) (curation_opts : curation)
    (cf cp : config) (out : run) :
  analyze_station_orientations rf_trace config curation transform_stream_to_rf
    arrival_strength utc_str stream_trim downsample curate_seismograms
    curve_fit np_cos fuel ned curation_opts cf cp = Ret out ->
  ned_len ned <> 0%nat ->
  network (ned_after out) = network ned /\
  (forall sta db, db_sta ned !! sta = Some db ->
     exists sp, station_span db = Ret sp /\
       field (results out) (full_code (network ned) sta) "date_range"
         = Some (date_range_of utc_str sp)) /\
  (forall sta db, db_sta (ned_after out) !! sta = Some db ->
     exists ampls y,
       job_curve rf_trace config transform_stream_to_rf arrival_strength
                 fuel cf cp db = Some ampls /\
       closed_curve ampls = Ret y /\
       if (n_valid y <? 5)%nat
       then field (results out) (full_code (network ned) sta) "azimuth_correction"
              = None /\
            In (LogInsufficient sta (n_valid y)) (log out)
       else exists a, fitted_angle curve_fit np_cos y = Some a /\
              field (results out) (full_code (network ned) sta) "azimuth_correction"
                = Some (VFloat a)) /\
  (forall c, (forall sta, is_Some (db_sta (ned_after out) !! sta) ->
                c <> full_code (network ned) sta) ->
     field (results out) c "azimuth_correction" = None).
Proof.
  intros Hrun Hlen.
  destruct (analyze_inv _ _ _ _ _ _ _ _ _ _ _ _ _ _ _ _ _ Hrun Hlen)
    as [res [ned1 [sta_ampls [lg [Hdates [Htrim [Hjobs [Hest Hafter]]]]]]]].
  set (ned3 := curated curation downsample curate_seismograms ned1 curation_opts) in *.
  assert (Hnet : network ned3 = network ned).
  { unfold ned3, curated. cbn [network map_streams].
    now apply (ned_apply_network _ _ _ Htrim). }
  destruct (date_ranges_spec utc_str (network ned) (by_station ned) ∅ res
              (by_station_nodup ned) Hdates) as [Hdr [Hdkeys _]].
  pose proof (run_jobs_spec _ _ _ _ _ _ _ _ _ Hjobs) as Hcurves.
  assert (Hnd : NoDup (map station_of (sta_metrics (by_station ned3) sta_ampls))).
  { rewrite sta_metrics_stations by (now apply Forall2_length in Hcurves).
    apply by_station_nodup. }
  destruct (estimate_all_spec curve_fit np_cos _ _ _ _ Hnd Hest)
    as [Hkeys [Hcodes [Hlog Hsta]]].
  cbn [fst snd] in Hkeys, Hcodes, Hlog, Hsta. rewrite Hnet in Hcodes, Hsta.
  assert (Hnone : forall c, field res c "azimuth_correction" = None).
  { intros c. rewrite Hdkeys by discriminate. apply field_empty. }
  rewrite Hafter. split; [exact Hnet|]. split; [|split].
  - intros sta db Hsta'. apply by_station_in in Hsta'.
    destruct (Hdr sta db Hsta') as [sp [Hsp Hf]]. exists sp. split; [exact Hsp|].
    rewrite Hkeys by discriminate. exact Hf.
  - intros sta db Hsta'. apply by_station_in in Hsta'.
    destruct (sta_metrics_in _ _ _ _ _ _ _ _ _ Hcurves sta db Hsta')
      as [ampls [Hjob Hm]].
    destruct (Hsta _ _ _ Hm) as [y [Hy Hcase]]. exists ampls, y.
    split; [exact Hjob|]. split; [exact Hy|].
    destruct (n_valid y <? 5)%nat; [|exact Hcase].
    destruct Hcase as [Hf Hl]. split; [|exact Hl]. rewrite Hf. apply Hnone.
  - intros c Hc. rewrite Hcodes; [apply Hnone|].
    intros [[sta N] ampls] Hm. unfold station_of. cbn [fst]. apply Hc.
    assert (Hin : In sta (map fst (by_station ned3))).
    { rewrite <- (sta_metrics_stations (by_station ned3) sta_ampls)
        by (now apply Forall2_length in Hcurves).
      apply in_map_iff. exists (sta, N, ampls). split; [reflexivity|exact Hm]. }
    apply in_map_iff in Hin. destruct Hin as [[sta' db] [Heq Hin]]. cbn [fst] in Heq.
    subst sta'. exists db. now apply by_station_in.
Qed.

End PipelineFacts.

Lemma angles_fine_nth (k : nat) :
  (k <= 360)%nat -> nth k angles_fine nan = of_Z (-180 + Z.of_nat k).
Proof.
  intros Hk. rewrite angles_fine_val.
  rewrite (nth_indep _ nan ((fun i => of_Z (-180 + Z.of_nat i)) 0%nat))
    by (rewrite length_map, length_seq; lia).
  rewrite (map_nth (fun i => of_Z (-180 + Z.of_nat i))).
  rewrite seq_nth by lia. reflexivity.
Qed.

Section StationFacts.
Variable curve_fit : list float -> list float -> option (float * float * float).
Variable np_cos : float -> float.

Lemma estimate_station_skip (net : string)
    (st : gmap string (gmap string value) * list log_entry)
    (sta : string) (N : nat) (ampls y : list float) :
  closed_curve ampls = Ret y -> (n_valid y < 5)%nat ->
  estimate_station curve_fit np_cos net st (sta, N, ampls)
    = Ret (fst st, snd st ++ [LogInsufficient sta (n_valid y)]).
Proof.
  intros Hy Hn. unfold estimate_station. rewrite Hy. cbn [bind].
  apply Nat.ltb_lt in Hn. now rewrite Hn.
Qed.

Lemma estimate_station_emit (net : string)
    (st : gmap string (gmap string value) * list log_entry)
    (sta : string) (N : nat) (ampls y : list float) (a : float) :
  closed_curve ampls = Ret y -> (5 <= n_valid y)%nat ->
  fitted_angle curve_fit np_cos y = Some a ->
  exists ph_uncertainty,
    estimate_station curve_fit np_cos net st (sta, N, ampls)
      = Ret (set_field (full_code net sta) "azimuth_correction" (VFloat a) (fst st),
             snd st ++ [LogEstimate sta a ph_uncertainty N]).
Proof.
  intros Hy Hn Hfit. unfold estimate_station. rewrite Hy. cbn [bind].
  apply Nat.ltb_ge in Hn. rewrite Hn. unfold fitted_angle in Hfit.
  destruct (mask_select x_grid (map isfinite y)) as [xv|]; [|discriminate].
  destruct (mask_select y (map isfinite y)) as [yv|]; [|discriminate].
  destruct (curve_fit xv yv) as [[[A ph] cov]|]; [|discriminate].
  injection Hfit as <-. eexists. reflexivity.
Qed.

Lemma fitted_angle_inv (y : list float) (a : float) :
  fitted_angle curve_fit np_cos y = Some a ->
  exists x_valid y_valid A_fit ph_fit cov,
    mask_select x_grid (map isfinite y) = Some x_valid /\
    mask_select y (map isfinite y) = Some y_valid /\
    curve_fit x_valid y_valid = Some (A_fit, ph_fit, cov) /\
    a = angle_max np_cos A_fit ph_fit.
Proof.
  unfold fitted_angle. intros Hfit.
  destruct (mask_select x_grid (map isfinite y)) as [xv|]; [|discriminate].
  destruct (mask_select y (map isfinite y)) as [yv|]; [|discriminate].
  destruct (curve_fit xv yv) as [[[A ph] cov]|] eqn:Hcf; [|discriminate].
  injection Hfit as <-. now exists xv, yv, A, ph, cov.
Qed.

End StationFacts.

End OrientFacts.

(** ** Further facts *)

Module ExtraFacts.
Import B64 Wrap Sweep Heap Orient Terms.
Import B64Facts WrapFacts SweepFacts HeapFacts OrientFacts.

(** *** The wrap, value by value *)




Lemma wrap_nan (n : nat) : wrap_azimuth (S n) nan = Some nan.
Proof. unfold wrap_azimuth. rewrite !while_loop_S. reflexivity. Qed.

Lemma infinity_plus_loops (fuel : nat) :
  while_loop fuel (fun x => leb f360 x) (fun x => sub x f360) (S754_infinity false)
    = None.
Proof.
  induction fuel as [|fuel IH]; [reflexivity|]. rewrite while_loop_S.
  replace (leb f360 (S754_infinity false)) with true by (vm_compute; reflexivity).
  replace (sub (S754_infinity false) f360) with (S754_infinity false)
    by (vm_compute; reflexivity).
  exact IH.
Qed.

Lemma infinity_minus_loops (fuel : nat) :
  while_loop fuel (fun x => ltb x zero) (fun x => add x f360) (S754_infinity true)
    = None.
Proof.
  induction fuel as [|fuel IH]; [reflexivity|]. rewrite while_loop_S.
  replace (ltb (S754_infinity true) zero) with true by (vm_compute; reflexivity).
  replace (add (S754_infinity true) f360) with (S754_infinity true)
    by (vm_compute; reflexivity).
  exact IH.
Qed.

Lemma wrap_infinity (s : bool) (fuel : nat) :
  wrap_azimuth fuel (S754_infinity s) = None.
Proof.
  unfold wrap_azimuth. destruct s.
  - now rewrite infinity_minus_loops.
  - destruct fuel as [|fuel]; [reflexivity|].
    rewrite (while_loop_S fuel (fun x => ltb x zero)).
    replace (ltb (S754_infinity false) zero) with false by (vm_compute; reflexivity).
    apply infinity_plus_loops.
Qed.

Lemma add_nan_l (a : float) : add nan a = nan.
Proof. reflexivity. Qed.

Lemma add_infinity_l (s : bool) (a : float) :
  isfinite a = true -> add (S754_infinity s) a = S754_infinity s.
Proof. destruct a; try discriminate; reflexivity. Qed.

(** *** Counting finite samples *)

Lemma n_valid_app (l1 l2 : list float) :
  n_valid (l1 ++ l2) = (n_valid l1 + n_valid l2)%nat.
Proof.
  unfold n_valid. rewrite map_app, filter_app, length_app. reflexivity.
Qed.

Lemma n_valid_closed (ampls y : list float) :
  closed_curve ampls = Ret y ->
  n_valid y = (n_valid ampls + (if isfinite (nth 0 ampls nan) then 1 else 0))%nat.
Proof.
  intros Hy. destruct (closed_curve_inv ampls y Hy) as [-> _].
  rewrite n_valid_app. f_equal. unfold n_valid. cbn [map].
  destruct (isfinite (nth 0 ampls nan)); reflexivity.
Qed.

Lemma n_valid_le_length (l : list float) : (n_valid l <= length l)%nat.
Proof.
  unfold n_valid. induction l as [|v l IH]; [simpl; lia|].
  cbn [map]. destruct (isfinite v); cbn [filter length].
  - rewrite filter_cons_True by exact I. cbn [length]. lia.
  - rewrite filter_cons_False by (intros []). cbn [length]. lia.
Qed.


(** *** Boolean masks *)

Lemma mask_select_spec (xs : list float) :
  forall mask : list bool,
    length mask = length xs ->
    mask_select xs mask
      = Some (map fst (filter (fun p => Is_true (snd p)) (combine xs mask))).
Proof.
  induction xs as [|x xs IH]; intros [|b mask] Hlen; try discriminate.
  - reflexivity.
  - cbn [mask_select combine]. rewrite IH by (simpl in Hlen; lia).
    destruct b.
    + rewrite filter_cons_True by exact I. reflexivity.
    + rewrite filter_cons_False by (intros []). reflexivity.
Qed.

Lemma mask_select_length_mismatch (xs : list float) :
  forall mask : list bool,
    length mask <> length xs -> mask_select xs mask = None.
Proof.
  induction xs as [|x xs IH]; intros [|b mask] Hlen; try reflexivity.
  - contradiction.
  - cbn [mask_select]. rewrite IH by (simpl in Hlen; lia). reflexivity.
Qed.

Lemma masked_pairs (xs ys : list float) :
  length xs = length ys ->
  exists xv yv,
    mask_select xs (map isfinite ys) = Some xv /\
    mask_select ys (map isfinite ys) = Some yv /\
    length xv = n_valid ys /\ length yv = n_valid ys /\
    Forall (fun v => isfinite v = true) yv /\
    combine xv yv = filter (fun p => Is_true (isfinite (snd p))) (combine xs ys).
Proof.
  revert ys. induction xs as [|x xs IH]; intros [|y ys] Hlen; try discriminate.
  - exists [], []. repeat split; constructor.
  - destruct (IH ys) as [xv [yv [Hx [Hy [Hlx [Hly [Hfin Hpairs]]]]]]];
      [simpl in Hlen; lia|].
    cbn [map mask_select combine]. rewrite Hx, Hy. unfold n_valid in *.
    cbn [map snd]. destruct (isfinite y) eqn:Hfy.
    + exists (x :: xv), (y :: yv).
      rewrite !filter_cons_True by (cbn [snd]; rewrite ?Hfy; exact I).
      cbn [length combine]. rewrite Hlx, Hly, Hpairs.
      repeat split; try reflexivity. constructor; assumption.
    + exists xv, yv.
      rewrite !filter_cons_False by (cbn [snd]; rewrite ?Hfy; intros []).
      repeat split; assumption.
Qed.

Section QuietFacts.
Variable rf_trace : Type.
Variable config : Type.
Variable transform_stream_to_rf :
  evid -> stream -> config -> config -> option (list rf_trace).
Variable arrival_strength : list rf_trace -> float.




End QuietFacts.

(** *** Outcomes of the date-range loop *)

Lemma span_event_some (lo hi : Z) (s : stream) :
  exists lo' hi', span_event (Some lo, Some hi) s = Ret (Some lo', Some hi').
Proof. unfold span_event. cbn [fst snd first_or bind]. eexists _, _. reflexivity. Qed.

Lemma span_events_some (db : event_db) :
  forall lo hi : Z,
    exists lo' hi', span_events (Some lo, Some hi) db = Ret (Some lo', Some hi').
Proof.
  induction db as [|[ev s] db IH]; intros lo hi; cbn [span_events].
  - eexists _, _. reflexivity.
  - destruct (span_event_some lo hi s) as [lo1 [hi1 ->]]. cbn [bind]. apply IH.
Qed.

Lemma station_span_outcome (db : event_db) :
  match db with
  | [] => station_span db = Ret (None, None)
  | (_, []) :: _ => station_span db = Raise IndexError
  | (_, _ :: _) :: _ => exists lo hi, station_span db = Ret (Some lo, Some hi)
  end.
Proof.
  destruct db as [|[ev [|tr0 s]] db]; try reflexivity.
  unfold station_span. cbn [span_events]. unfold span_event at 1.
  cbn [fst snd first_or bind]. apply span_events_some.
Qed.

Lemma station_span_never_diverges (db : event_db) : station_span db <> Diverge.
Proof.
  pose proof (station_span_outcome db) as H.
  destruct db as [|[ev [|tr0 s]] db].
  - rewrite H. discriminate.
  - rewrite H. discriminate.
  - destruct H as [lo [hi ->]]. discriminate.
Qed.

Lemma station_span_raise (db : event_db) (e : exn) :
  station_span db = Raise e -> e = IndexError /\ exists ev rest, db = (ev, []) :: rest.
Proof.
  pose proof (station_span_outcome db) as H.
  destruct db as [|[ev [|tr0 s]] db].
  - rewrite H. discriminate.
  - rewrite H. intros [= <-]. split; [reflexivity|]. now exists ev, db.
  - destruct H as [lo [hi ->]]. discriminate.
Qed.

Lemma date_ranges_raise (utc_str : Z -> string) (net : string)
    (stations : list (string * event_db)) :
  forall res : gmap string (gmap string value),
    Exists (fun p => exists ev rest, snd p = (ev, []) :: rest) stations ->
    date_ranges utc_str net stations res = Raise IndexError.
Proof.
  induction stations as [|[sta db] stations IH]; intros res Hex.
  - inversion Hex.
  - cbn [date_ranges].
    destruct (station_span db) as [sp|e|] eqn:Hsp; cbn [bind].
    + apply IH. inversion Hex as [? ? [ev [rest Hdb]]|]; subst; [|assumption].
      cbn [snd] in Hdb. subst db.
      assert (H : station_span ((ev, []) :: rest) = Raise IndexError) by reflexivity.
      rewrite H in Hsp. discriminate.
    + now destruct (station_span_raise db e Hsp) as [-> _].
    + now destruct (station_span_never_diverges db).
Qed.

(** *** The bounds of a span are attained *)

Lemma fold_min_attained (s : stream) :
  forall t0 : Z,
    fold_left (fun t tr => Z.min t (starttime tr)) s t0 = t0 \/
    exists tr, In tr s /\
      fold_left (fun t tr => Z.min t (starttime tr)) s t0 = starttime tr.
Proof.
  induction s as [|tr0 s IH]; intros t0; cbn [fold_left]; [now left|].
  destruct (IH (Z.min t0 (starttime tr0))) as [->|[tr [Hin ->]]].
  - destruct (Z.min_spec t0 (starttime tr0)) as [[_ ->]|[_ ->]]; [now left|].
    right. exists tr0. split; [now left|reflexivity].
  - right. exists tr. split; [now right|reflexivity].
Qed.

Lemma fold_max_attained (s : stream) :
  forall t0 : Z,
    fold_left (fun t tr => Z.max t (endtime tr)) s t0 = t0 \/
    exists tr, In tr s /\
      fold_left (fun t tr => Z.max t (endtime tr)) s t0 = endtime tr.
Proof.
  induction s as [|tr0 s IH]; intros t0; cbn [fold_left]; [now left|].
  destruct (IH (Z.max t0 (endtime tr0))) as [->|[tr [Hin ->]]].
  - destruct (Z.max_spec t0 (endtime tr0)) as [[_ ->]|[_ ->]]; [|now left].
    right. exists tr0. split; [now left|reflexivity].
  - right. exists tr. split; [now right|reflexivity].
Qed.

(** [starts_in db t]: some trace of [db] starts at [t]. *)
Lemma span_events_attained (db : event_db) :
  forall (seen : event_db) (lo hi lo' hi' : Z),
    starts_in seen lo -> ends_in seen hi ->
    span_events (Some lo, Some hi) db = Ret (Some lo', Some hi') ->
    starts_in (seen ++ db) lo' /\ ends_in (seen ++ db) hi'.
Proof.
  induction db as [|[ev s] db IH]; intros seen lo hi lo' hi' Hlo Hhi H;
    cbn [span_events] in H.
  - injection H as <- <-. rewrite app_nil_r. split; assumption.
  - unfold span_event in H. cbn [fst snd first_or bind] in H.
    replace (seen ++ (ev, s) :: db) with ((seen ++ [(ev, s)]) ++ db)
      by (now rewrite <- app_assoc).
    apply (IH _ _ _ _ _) with (3 := H).
    + destruct (fold_min_attained s lo) as [->|[tr [Hin ->]]].
      * destruct Hlo as [e [tr [He [Htr Hst]]]]. exists e, tr.
        split; [apply in_or_app; now left|]. split; assumption.
      * exists (ev, s), tr. split; [apply in_or_app; right; now left|].
        split; [exact Hin|reflexivity].
    + destruct (fold_max_attained s hi) as [->|[tr [Hin ->]]].
      * destruct Hhi as [e [tr [He [Htr Hst]]]]. exists e, tr.
        split; [apply in_or_app; now left|]. split; assumption.
      * exists (ev, s), tr. split; [apply in_or_app; right; now left|].
        split; [exact Hin|reflexivity].
Qed.

Lemma station_span_attained (db : event_db) (lo hi : Z) :
  station_span db = Ret (Some lo, Some hi) ->
  starts_in db lo /\ ends_in db hi.
Proof.
  destruct db as [|[ev [|tr0 s]] db]; try discriminate.
  unfold station_span. cbn [span_events]. unfold span_event at 1.
  cbn [fst snd first_or bind]. intros H.
  set (lo1 := fold_left _ (tr0 :: s) (starttime tr0)) in H.
  set (hi1 := fold_left _ (tr0 :: s) (endtime tr0)) in H.
  apply (span_events_attained db [(ev, tr0 :: s)] lo1 hi1 lo hi) in H.
  - exact H.
  - subst lo1. destruct (fold_min_attained (tr0 :: s) (starttime tr0))
      as [->|[tr [Hin ->]]].
    + exists (ev, tr0 :: s), tr0. split; [now left|]. split; [now left|reflexivity].
    + exists (ev, tr0 :: s), tr. split; [now left|]. split; [exact Hin|reflexivity].
  - subst hi1. destruct (fold_max_attained (tr0 :: s) (endtime tr0))
      as [->|[tr [Hin ->]]].
    + exists (ev, tr0 :: s), tr0. split; [now left|]. split; [now left|reflexivity].
    + exists (ev, tr0 :: s), tr. split; [now left|]. split; [exact Hin|reflexivity].
Qed.

(** *** The keys and the fields of the mapping *)

Lemma set_field_lookup_ne (code c key : string) (v : value)
    (res : gmap string (gmap string value)) :
  code <> c -> set_field code key v res !! c = res !! c.
Proof. intros Hne. unfold set_field. now rewrite lookup_insert_ne. Qed.

Lemma field_set_inv (code key c k : string) (v w : value)
    (res : gmap string (gmap string value)) :
  field (set_field code key v res) c k = Some w ->
  (c = code /\ k = key /\ w = v) \/ field res c k = Some w.
Proof.
  intros H. destruct (decide (code = c)) as [->|Hc].
  - destruct (decide (key = k)) as [->|Hk].
    + rewrite field_set_eq in H. injection H as <-. now left.
    + rewrite field_set_ne_key in H by exact Hk. now right.
  - rewrite field_set_ne_code in H by exact Hc. now right.
Qed.

Section MappingFacts.
Variable utc_str : Z -> string.
Variable curve_fit : list float -> list float -> option (float * float * float).
Variable np_cos : float -> float.

Lemma date_ranges_lookup (net : string) (stations : list (string * event_db)) :
  forall res res' : gmap string (gmap string value),
    date_ranges utc_str net stations res = Ret res' ->
    forall c, (forall sta, In sta (map fst stations) -> c <> full_code net sta) ->
      res' !! c = res !! c.
Proof.
  induction stations as [|[sta db] rest IH]; intros res res' Hrun c Hc;
    cbn [date_ranges] in Hrun.
  - now injection Hrun as <-.
  - destruct (station_span db) as [sp|e|]; cbn [bind] in Hrun; try discriminate.
    rewrite (IH _ _ Hrun c) by (intros sta' Hin; apply Hc; now right).
    apply set_field_lookup_ne. intros Heq. apply (Hc sta); [now left|now symmetry].
Qed.

Lemma date_ranges_shape (net : string) (stations : list (string * event_db)) :
  forall res res' : gmap string (gmap string value),
    date_ranges utc_str net stations res = Ret res' ->
    forall c k w, field res' c k = Some w ->
      (k = "date_range" /\ exists sp, w = date_range_of utc_str sp) \/
      field res c k = Some w.
Proof.
  induction stations as [|[sta db] rest IH]; intros res res' Hrun c k w Hf;
    cbn [date_ranges] in Hrun.
  - injection Hrun as <-. now right.
  - destruct (station_span db) as [sp|e|]; cbn [bind] in Hrun; try discriminate.
    destruct (IH _ _ Hrun c k w Hf) as [Hl|Hr]; [now left|].
    apply field_set_inv in Hr. destruct Hr as [[_ [-> ->]]|Hr]; [|now right].
    left. split; [reflexivity|now exists sp].
Qed.

Lemma estimate_all_lookup (net : string) (metrics : list (string * nat * list float)) :
  forall st st' : gmap string (gmap string value) * list log_entry,
    estimate_all curve_fit np_cos net st metrics = Ret st' ->
    forall c, (forall m, In m metrics -> c <> full_code net (station_of m)) ->
      fst st' !! c = fst st !! c.
Proof.
  induction metrics as [|[[sta N] ampls] rest IH]; intros st st' Hrun c Hc;
    cbn [estimate_all] in Hrun.
  - now injection Hrun as <-.
  - destruct (estimate_station curve_fit np_cos net st (sta, N, ampls))
      as [st1|e|] eqn:Hst; cbn [bind] in Hrun; try discriminate.
    rewrite (IH _ _ Hrun c) by (intros m Hm; apply Hc; now right).
    destruct (estimate_station_spec curve_fit np_cos net st st1 sta N ampls Hst)
      as [y [_ Hcase]].
    destruct (n_valid y <? 5)%nat.
    + destruct Hcase as [-> _]. reflexivity.
    + destruct Hcase as [a [u [_ [-> _]]]]. apply set_field_lookup_ne.
      intros Heq. apply (Hc (sta, N, ampls)); [now left|now symmetry].
Qed.

Lemma estimate_all_shape (net : string) (metrics : list (string * nat * list float)) :
  forall st st' : gmap string (gmap string value) * list log_entry,
    estimate_all curve_fit np_cos net st metrics = Ret st' ->
    forall c k w, field (fst st') c k = Some w ->
      (k = "azimuth_correction" /\ exists a, w = VFloat a /\ In a angles_fine) \/
      field (fst st) c k = Some w.
Proof.
  induction metrics as [|[[sta N] ampls] rest IH]; intros st st' Hrun c k w Hf;
    cbn [estimate_all] in Hrun.
  - injection Hrun as <-. now right.
  - destruct (estimate_station curve_fit np_cos net st (sta, N, ampls))
      as [st1|e|] eqn:Hst; cbn [bind] in Hrun; try discriminate.
    destruct (IH _ _ Hrun c k w Hf) as [Hl|Hr]; [now left|].
    destruct (estimate_station_spec curve_fit np_cos net st st1 sta N ampls Hst)
      as [y [_ Hcase]].
    destruct (n_valid y <? 5)%nat.
    + destruct Hcase as [Heq _]. rewrite Heq in Hr. now right.
    + destruct Hcase as [a [u [Hfit [Heq _]]]]. rewrite Heq in Hr.
      apply field_set_inv in Hr. destruct Hr as [[_ [-> ->]]|Hr]; [|now right].
      left. split; [reflexivity|]. exists a. split; [reflexivity|].
      destruct (fitted_angle_inv curve_fit np_cos y a Hfit)
        as [xv [yv [A [ph [cov [_ [_ [_ ->]]]]]]]].
      apply angle_max_in_grid.
Qed.

(** *** The log *)

(** [station_line sta N e]: [e] is the line that the loop of lines
    191-238 logs for the station [sta] with [N] events. *)
Lemma estimate_all_log (net : string) (metrics : list (string * nat * list float)) :
  forall st st' : gmap string (gmap string value) * list log_entry,
    estimate_all curve_fit np_cos net st metrics = Ret st' ->
    exists entries,
      snd st' = snd st ++ entries /\
      Forall2 (fun m e => station_line (station_of m) (snd (fst m)) e) metrics entries.
Proof.
  induction metrics as [|[[sta N] ampls] rest IH]; intros st st' Hrun;
    cbn [estimate_all] in Hrun.
  - injection Hrun as <-. exists []. split; [now rewrite app_nil_r|constructor].
  - destruct (estimate_station curve_fit np_cos net st (sta, N, ampls))
      as [st1|e|] eqn:Hst; cbn [bind] in Hrun; try discriminate.
    destruct (IH _ _ Hrun) as [entries [Hlog Hall]].
    destruct (estimate_station_spec curve_fit np_cos net st st1 sta N ampls Hst)
      as [y [_ Hcase]].
    destruct (n_valid y <? 5)%nat eqn:Hn.
    + destruct Hcase as [_ Hl]. exists (LogInsufficient sta (n_valid y) :: entries).
      split; [rewrite Hlog, Hl, <- app_assoc; reflexivity|].
      constructor; [|exact Hall]. left. exists (n_valid y).
      split; [reflexivity|now apply Nat.ltb_lt].
    + destruct Hcase as [a [u [_ [_ Hl]]]].
      exists (LogEstimate sta a u N :: entries).
      split; [rewrite Hlog, Hl, <- app_assoc; reflexivity|].
      constructor; [|exact Hall]. right. now exists a, u.
Qed.

End MappingFacts.

Lemma sta_metrics_lines (jobs : list (string * event_db)) :
  forall (sta_ampls : list (list float)) (entries : list log_entry),
    length jobs = length sta_ampls ->
    Forall2 (fun m e => station_line (station_of m) (snd (fst m)) e)
            (sta_metrics jobs sta_ampls) entries ->
    Forall2 (fun job e => station_line (fst job) (length (snd job)) e) jobs entries.
Proof.
  unfold sta_metrics.
  induction jobs as [|[sta db] jobs IH]; intros [|ampls amps] entries Hlen H;
    try discriminate.
  - inversion H. constructor.
  - cbn [combine map] in H. inversion H as [|? ? ? ? Hhead Htail]; subst.
    constructor; [exact Hhead|]. apply (IH amps); [simpl in Hlen; lia|exact Htail].
Qed.

Lemma list_sum_in (A : Type) (f : A -> nat) (l : list A) (x : A) :
  In x l -> (f x <= list_sum (map f l))%nat.
Proof.
  induction l as [|y l IH]; [contradiction|]. simpl.
  intros [->|Hin]; [lia|]. specialize (IH Hin). simpl in IH. lia.
Qed.

Lemma station_events_counted (ned : dataset) (sta : string) (db : event_db) :
  db_sta ned !! sta = Some db -> (length db <= ned_len ned)%nat.
Proof.
  intros H. apply by_station_in in H. unfold ned_len.
  apply (list_sum_in _ (fun p => length (snd p)) _ (sta, db) H).
Qed.

Section RunFacts.
Variable rf_trace : Type.
Variable config : Type.
Variable curation : Type.
Variable transform_stream_to_rf :
  evid -> stream -> config -> config -> option (list rf_trace).
Variable arrival_strength : list rf_trace -> float.
Variable utc_str : Z -> string.
Variable stream_trim : stream -> Z -> Z -> stream.
Variable downsample : stream -> stream.
Variable curate_seismograms :
  dataset -> curation -> gmap string event_db * list string.
Variable curve_fit : list float -> list float -> option (float * float * float).
Variable np_cos : float -> float.

(** The state in which the loop over the stations starts. *)
Lemma analyze_stages (fuel : nat) (ned : dataset) (curation_opts : curation)
    (cf cp : config) (out : run) :
  analyze_station_orientations rf_trace config curation transform_stream_to_rf
    arrival_strength utc_str stream_trim downsample curate_seismograms
    curve_fit np_cos fuel ned curation_opts cf cp = Ret out ->
  ned_len ned <> 0%nat ->
  exists res sta_ampls,
    date_ranges utc_str (network ned) (by_station ned) ∅ = Ret res /\
    length sta_ampls = length (by_station (ned_after out)) /\
    network (ned_after out) = network ned /\
    (exists ned1,
       ned_apply (trim_window stream_trim) ned = Ret ned1 /\
       estimate_all curve_fit np_cos (network ned)
         (res, [LogTrimming; LogDownsampling; LogCurating]
               ++ map LogCuration
                      (snd (curate_seismograms (map_streams downsample ned1)
                                               curation_opts))
               ++ [LogDiscarded (size (ned_evids ned ∖ ned_evids (ned_after out)))
                                (size (ned_evids ned));
                   LogAnalysing])
         (sta_metrics (by_station (ned_after out)) sta_ampls)
         = Ret (results out, log out)).
Proof.
  unfold analyze_station_orientations. intros Hrun Hlen.
  destruct (Nat.eqb_spec (ned_len ned) 0) as [?|_]; [contradiction|].
  destruct (date_ranges utc_str (network ned) (by_station ned) ∅) as [res|e|]
    eqn:Hdates; cbn [bind] in Hrun; try discriminate.
  destruct (ned_apply (trim_window stream_trim) ned) as [ned1|e|] eqn:Htrim;
    cbn [bind] in Hrun; try discriminate.
  fold (curated curation downsample curate_seismograms ned1 curation_opts) in Hrun.
  set (ned3 := curated curation downsample curate_seismograms ned1 curation_opts) in *.
  destruct (run_jobs _ _ _ _ fuel cf cp (by_station ned3))
    as [sta_ampls|e|] eqn:Hjobs; cbn [bind] in Hrun; try discriminate.
  destruct (estimate_all curve_fit np_cos _ _ _) as [[r l]|e|] eqn:Hest;
    cbn [bind] in Hrun; try discriminate.
  injection Hrun as <-. cbn [results log ned_after fst snd].
  assert (Hnet : network ned3 = network ned).
  { unfold ned3, curated. cbn [network map_streams].
    apply (ned_apply_network _ _ _ Htrim). }
  exists res, sta_ampls. split; [reflexivity|]. split.
  - apply run_jobs_spec in Hjobs. apply Forall2_length in Hjobs. now symmetry.
  - split; [exact Hnet|]. exists ned1. split; [reflexivity|].
    rewrite <- Hnet. exact Hest.
Qed.

End RunFacts.

End ExtraFacts.

(** * Part III: the claims *)

Module Claims.
Import B64 Wrap Sweep Heap Orient Demo Terms Sample.
Import B64Facts WrapFacts SweepFacts HeapFacts OrientFacts ExtraFacts.

(** ** The back-azimuth wrap *)

(** C2 (as amended): for well-formed doubles [b] and [a] of magnitude at
    most 2^55, the wrap of [b + a] ends within [wrap_fuel (b + a)]
    iterations and yields a value in [0, 360), which a further wrap leaves
    unchanged; and the wrap leaves every value of [0, 360) unchanged. *)
Theorem C2_wrap_of_bounded_azimuth (b a : float) (fuel : nat) :
  valid b = true -> valid a = true -> in_band b = true -> in_band a = true ->
  (wrap_fuel (add b a) <= fuel)%nat ->
  (exists r, rotate_azimuth fuel b a = Some r /\
             leb zero r = true /\ ltb r f360 = true /\
             wrap_azimuth fuel r = Some r) /\
  (forall (x : float) (n : nat),
     leb zero x = true -> ltb x f360 = true -> wrap_azimuth (S n) x = Some x).
Proof.
  intros Hvb Hva Hb Ha Hfuel. split.
  - destruct (rotate_in_range b a fuel Hvb Hva Hb Ha Hfuel) as [r [Hr [_ [H0 H360]]]].
    exists r. split; [exact Hr|]. split; [exact H0|]. split; [exact H360|].
    destruct fuel as [|n]; [unfold wrap_fuel in Hfuel; lia|].
    now apply wrap_fixed.
  - intros x n. apply wrap_fixed.
Qed.

(** C2 on the back-azimuth 350 and the candidate angle 162. *)
Lemma C2_wrap_of_350_plus_162 :
  (exists r, rotate_azimuth 3 (of_Z 350) (of_Z 162) = Some r /\
             leb zero r = true /\ ltb r f360 = true /\
             wrap_azimuth 3 r = Some r) /\
  (forall (x : float) (n : nat),
     leb zero x = true -> ltb x f360 = true -> wrap_azimuth (S n) x = Some x).
Proof.
  apply (C2_wrap_of_bounded_azimuth (of_Z 350) (of_Z 162) 3);
    vm_compute; solve [reflexivity | intros; discriminate | lia].
Defined.

(** C2 does not hold for every finite back-azimuth: 1e300 absorbs every
    step of 360 ([1e300 - 360 = 1e300] in binary64), so with the first
    candidate angle, -180, the wrap is still running after any number of
    iterations. *)
Lemma C2_wrap_of_1e300_never_ends :
  isfinite huge = true /\ nth 0 angles nan = of_Z (-180) /\
  forall fuel : nat, rotate_azimuth fuel huge (of_Z (-180)) = None.
Proof.
  split; [reflexivity|]. split; [vm_compute; reflexivity|].
  intros fuel. unfold rotate_azimuth.
  replace (add huge (of_Z (-180))) with huge by (vm_compute; reflexivity).
  apply wrap_huge_diverges.
Qed.

(** ** The angle sweep *)

(** C5: at one candidate angle, once the back-azimuths of the copies are
    wrapped (which happens within [sweep_fuel] iterations for back-azimuths
    of magnitude at most 2^55), the sweep returns a metric and raises
    nothing: an event whose transform has no result adds nothing to the
    aggregate; the metric is NaN when the aggregate is empty, in
    particular when no event has a result, and the strength of the
    aggregate (the mean of the stacked radial component, computed by the
    external chain) otherwise. *)
Theorem C5_metric_of_one_angle
    (rf_trace config : Type)
    (transform_stream_to_rf : evid -> stream -> config -> config -> option (list rf_trace))
    (arrival_strength : list rf_trace -> float)
    (fuel : nat) (db_evid : event_db) (cf cp : config) (a : float) :
  (db_ok db_evid = true -> angle_ok a = true -> (sweep_fuel db_evid a <= fuel)%nat ->
   exists db_rot, rotate_db fuel a db_evid = Some db_rot /\
                  map fst db_rot = map fst db_evid) /\
  (forall db_rot, rotate_db fuel a db_evid = Some db_rot ->
     let rfs := aggregate rf_trace config transform_stream_to_rf cf cp db_rot in
     sweep_angle rf_trace config transform_stream_to_rf arrival_strength
                 fuel db_evid cf cp a
       = Some (if (0 <? length rfs)%nat then arrival_strength rfs else nan) /\
     (Forall (fun e => transform_stream_to_rf (fst e) (snd e) cf cp = None) db_rot ->
      sweep_angle rf_trace config transform_stream_to_rf arrival_strength
                  fuel db_evid cf cp a = Some nan)) /\
  (forall e, transform_stream_to_rf (fst e) (snd e) cf cp = None ->
     contribution rf_trace config transform_stream_to_rf cf cp e = []).
Proof.
  split; [|split].
  - intros Hok Ha Hfuel.
    destruct (rotate_db_total fuel a db_evid Hok Ha Hfuel) as [db_rot [Hrot [Hids _]]].
    now exists db_rot.
  - intros db_rot Hrot rfs.
    pose proof (sweep_angle_spec rf_trace config transform_stream_to_rf
                  arrival_strength fuel db_evid cf cp a) as Hspec.
    rewrite Hrot in Hspec. split; [exact Hspec|].
    intros Hnone. rewrite Hspec.
    rewrite (aggregate_all_none _ _ _ _ _ _ Hnone). reflexivity.
  - intros e He. unfold contribution. now rewrite He.
Qed.

(** C5 on two events, one of them without a receiver function, at the
    candidate angle 162. *)
Lemma C5_metric_at_162 :
  exists db_rot,
    rotate_db 4 (of_Z 162) [("ev1", [tr1]); ("quiet", [tr2])] = Some db_rot /\
    sweep_angle float unit demo_transform demo_strength 4
                [("ev1", [tr1]); ("quiet", [tr2])] tt tt (of_Z 162)
      = Some (of_Z 152) /\
    sweep_angle float unit demo_transform demo_strength 4
                [("quiet", [tr2])] tt tt (of_Z 162) = Some nan.
Proof.
  destruct (C5_metric_of_one_angle float unit demo_transform demo_strength 4
              [("ev1", [tr1]); ("quiet", [tr2])] tt tt (of_Z 162))
    as [Htotal [Hmetric _]].
  destruct Htotal as [db_rot [Hrot _]];
    [vm_compute; reflexivity|vm_compute; reflexivity|vm_compute; lia|].
  exists db_rot. split; [exact Hrot|]. split.
  - destruct (Hmetric db_rot Hrot) as [-> _]. revert Hrot. vm_compute.
    intros [= <-]. reflexivity.
  - destruct (C5_metric_of_one_angle float unit demo_transform demo_strength 4
                [("quiet", [tr2])] tt tt (of_Z 162)) as [_ [Hquiet _]].
    refine (proj2 (Hquiet [("quiet", [set_back_azimuth (of_Z 172) tr2])] _) _).
    + vm_compute. reflexivity.
    + repeat constructor.
Defined.

(** C6: the per-station job returns one metric per angle of the grid it
    is given, in the order of the grid (it does return, within [job_fuel]
    iterations of a wrap, when the back-azimuths and the angles have
    magnitude at most 2^55); the candidate grid of the orchestrator is
    -180, -162, ..., 162: 20 angles, 18 degrees apart. *)
Theorem C6_one_metric_per_angle
    (rf_trace config : Type)
    (transform_stream_to_rf : evid -> stream -> config -> config -> option (list rf_trace))
    (arrival_strength : list rf_trace -> float)
    (fuel : nat) (db_evid : event_db) (cf cp : config) (grid : list float) :
  (forall ampls,
     run_single_station rf_trace config transform_stream_to_rf arrival_strength
                        fuel db_evid grid cf cp = Some ampls ->
     length ampls = length grid /\
     Forall2 (fun a ampl =>
                sweep_angle rf_trace config transform_stream_to_rf arrival_strength
                            fuel db_evid cf cp a = Some ampl) grid ampls) /\
  (db_ok db_evid = true -> forallb angle_ok grid = true ->
   (job_fuel db_evid grid <= fuel)%nat ->
   exists ampls,
     run_single_station rf_trace config transform_stream_to_rf arrival_strength
                        fuel db_evid grid cf cp = Some ampls) /\
  angles = map (fun i => of_Z (-180 + 18 * Z.of_nat i)) (seq 0 20) /\
  forallb angle_ok angles = true.
Proof.
  split; [|split; [|split]].
  - intros ampls Hrun.
    pose proof (run_single_station_inv _ _ _ _ _ _ _ _ _ _ Hrun) as Hall.
    split; [|exact Hall]. symmetry. now apply Forall2_length in Hall.
  - intros Hok Hgrid Hfuel.
    destruct (run_single_station_total rf_trace config transform_stream_to_rf
                arrival_strength fuel db_evid grid cf cp Hok Hgrid Hfuel)
      as [ampls [Hrun _]].
    now exists ampls.
  - apply angles_val.
  - apply angles_ok.
Qed.

(** C6 on the first sample station and the candidate grid. *)
Lemma C6_curve_of_first_station :
  exists ampls,
    run_single_station float unit demo_transform demo_strength 4
                       [("ev1", [tr1])] angles tt tt = Some ampls /\
    length ampls = 20%nat /\
    nth 19 ampls nan = of_Z 152.
Proof.
  destruct (C6_one_metric_per_angle float unit demo_transform demo_strength 4
              [("ev1", [tr1])] tt tt angles) as [Hshape [Htotal _]].
  destruct Htotal as [ampls Hrun];
    [vm_compute; reflexivity|vm_compute; reflexivity|vm_compute; lia|].
  exists ampls. split; [exact Hrun|].
  destruct (Hshape ampls Hrun) as [Hlen _]. split.
  - rewrite Hlen. apply angles_length.
  - revert Hrun. vm_compute. intros [= <-]. reflexivity.
Defined.

(** C6 does not hold for every collection: on an event whose trace has
    the back-azimuth 1e300 the wrap of the first candidate angle never
    ends, so the job returns no curve, whatever the number of
    iterations allowed. *)
Lemma C6_job_on_1e300_never_returns :
  isfinite (back_azimuth tr_huge) = true /\
  forall fuel : nat,
    run_single_station float unit demo_transform demo_strength fuel
                       [("ev1", [tr_huge])] angles tt tt = None.
Proof.
  split; [reflexivity|]. intros fuel.
  assert (Ha : angles = of_Z (-180) :: tl angles) by (vm_compute; reflexivity).
  rewrite Ha. unfold tr_huge. apply run_single_station_huge.
  vm_compute. reflexivity.
Qed.



(** ** The orchestrator *)

(** C9: on a dataset without events the orchestrator returns the empty
    mapping, whatever the collaborators and whatever the fuel; the dataset
    is the one it was given and no stage has been logged. *)
Theorem C9_empty_dataset
    (rf_trace config curation : Type)
    (transform_stream_to_rf : evid -> stream -> config -> config -> option (list rf_trace))
    (arrival_strength : list rf_trace -> float)
    (utc_str : Z -> string) (stream_trim : stream -> Z -> Z -> stream)
    (downsample : stream -> stream)
    (curate_seismograms : dataset -> curation -> gmap string event_db * list string)
    (curve_fit : list float -> list float -> option (float * float * float))
    (np_cos : float -> float)
    (fuel : nat) (ned : dataset) (curation_opts : curation) (cf cp : config) :
  ned_len ned = 0%nat ->
  analyze_station_orientations rf_trace config curation transform_stream_to_rf
    arrival_strength utc_str stream_trim downsample curate_seismograms
    curve_fit np_cos fuel ned curation_opts cf cp
  = Ret {| results := ∅; ned_after := ned; log := [] |}.
Proof.
  intros Hlen. unfold analyze_station_orientations. rewrite Hlen. reflexivity.
Qed.

(** C9 on a dataset with one station and no event. *)
Lemma C9_station_without_events :
  demo_run empty_ned = Ret {| results := ∅; ned_after := empty_ned; log := [] |}.
Proof.
  apply (C9_empty_dataset float unit unit demo_transform demo_strength demo_utc
           demo_trim demo_downsample demo_curate demo_fit demo_cos 4 empty_ned
           tt tt tt).
  vm_compute. reflexivity.
Defined.

(** C4: the curve that the station step counts and fits is the job's
    curve followed by a copy of its first sample, so its last sample
    equals its first; the abscissa of that sample is [angles[0] + 360]. *)
Theorem C4_curve_closure
    (curve_fit : list float -> list float -> option (float * float * float))
    (np_cos : float -> float) (net : string)
    (st st' : gmap string (gmap string value) * list log_entry)
    (sta : string) (N : nat) (ampls : list float) :
  estimate_station curve_fit np_cos net st (sta, N, ampls) = Ret st' ->
  exists y,
    closed_curve ampls = Ret y /\
    y = ampls ++ [nth 0 ampls nan] /\
    length y = S (length ampls) /\
    nth (length ampls) y nan = nth 0 y nan /\
    x_grid = angles ++ [add (nth 0 angles nan) f360] /\
    nth (length angles) x_grid nan = of_Z 180 /\
    ((n_valid y < 5)%nat /\ fst st' = fst st \/
     (5 <= n_valid y)%nat /\
     exists a, fitted_angle curve_fit np_cos y = Some a /\
       fst st' = set_field (full_code net sta) "azimuth_correction" (VFloat a) (fst st)).
Proof.
  intros Hrun.
  destruct (estimate_station_spec curve_fit np_cos net st st' sta N ampls Hrun)
    as [y [Hy Hcase]].
  destruct (closed_curve_inv ampls y Hy) as [Hshape [_ [Hlen Hlast]]].
  exists y. split; [exact Hy|]. split; [exact Hshape|]. split; [exact Hlen|].
  split; [exact Hlast|]. split; [reflexivity|].
  split; [rewrite angles_length; apply x_grid_last|].
  destruct (n_valid y <? 5)%nat eqn:Hn.
  - left. apply Nat.ltb_lt in Hn. destruct Hcase as [Hres _].
    split; [exact Hn|exact Hres].
  - right. apply Nat.ltb_ge in Hn. split; [exact Hn|].
    destruct Hcase as [a [u [Hfit [Hres _]]]]. exists a. split; [exact Hfit|exact Hres].
Qed.

(** C4 on the curve of the first sample station. *)
Lemma C4_closure_of_sample_curve :
  exists y,
    closed_curve demo_ampls = Ret y /\
    length y = 21%nat /\
    nth 20 y nan = nth 0 y nan.
Proof.
  destruct (C4_curve_closure demo_fit demo_cos "AU" (∅, [])
              (get_ret (∅, []) (estimate_station demo_fit demo_cos "AU" (∅, [])
                                  ("STA1", 1%nat, demo_ampls)))
              "STA1" 1 demo_ampls)
    as [y [Hy [_ [Hlen [Hlast _]]]]]; [vm_compute; reflexivity|].
  exists y. split; [exact Hy|].
  assert (Hn : length demo_ampls = 20%nat) by (vm_compute; reflexivity).
  rewrite Hn in Hlen, Hlast. split; assumption.
Defined.

(** C1 (as amended): in a run that returns, every station of the curated
    dataset has a curve; when the closed curve has fewer than 5 finite
    samples the station step returns without raising, no
    [azimuth_correction] is written for the station, the shortage is
    logged, and the entry of the station with its [date_range] stays in
    the mapping; when it has at least 5, the fit has succeeded and the
    [azimuth_correction] of the station is the fitted angle. *)
Theorem C1_minimum_data_gate
    (rf_trace config curation : Type)
    (transform_stream_to_rf : evid -> stream -> config -> config -> option (list rf_trace))
    (arrival_strength : list rf_trace -> float)
    (utc_str : Z -> string) (stream_trim : stream -> Z -> Z -> stream)
    (downsample : stream -> stream)
    (curate_seismograms : dataset -> curation -> gmap string event_db * list string)
    (curve_fit : list float -> list float -> option (float * float * float))
    (np_cos : float -> float)
    (fuel : nat) (ned : dataset) (curation_opts : curation) (cf cp : config)
    (out : run) (sta : string) (db : event_db) :
  analyze_station_orientations rf_trace config curation transform_stream_to_rf
    arrival_strength utc_str stream_trim downsample curate_seismograms
    curve_fit np_cos fuel ned curation_opts cf cp = Ret out ->
  ned_len ned <> 0%nat ->
  db_sta (ned_after out) !! sta = Some db ->
  exists ampls y,
    job_curve rf_trace config transform_stream_to_rf arrival_strength
              fuel cf cp db = Some ampls /\
    closed_curve ampls = Ret y /\
    ((n_valid y < 5)%nat ->
       field (results out) (full_code (network ned) sta) "azimuth_correction" = None /\
       In (LogInsufficient sta (n_valid y)) (log out) /\
       (forall st N,
          estimate_station curve_fit np_cos (network ned) st (sta, N, ampls)
            = Ret (fst st, snd st ++ [LogInsufficient sta (n_valid y)])) /\
       (forall db0, db_sta ned !! sta = Some db0 ->
          exists sp, field (results out) (full_code (network ned) sta) "date_range"
                       = Some (date_range_of utc_str sp))) /\
    ((5 <= n_valid y)%nat ->
       exists a,
         fitted_angle curve_fit np_cos y = Some a /\
         field (results out) (full_code (network ned) sta) "azimuth_correction"
           = Some (VFloat a)).
Proof.
  intros Hrun Hlen Hsta.
  destruct (analyze_entries _ _ _ _ _ _ _ _ _ _ _ _ _ _ _ _ _ Hrun Hlen)
    as [_ [Hdates [Hstations _]]].
  destruct (Hstations sta db Hsta) as [ampls [y [Hjob [Hy Hcase]]]].
  exists ampls, y. split; [exact Hjob|]. split; [exact Hy|]. split.
  - intros Hn. pose proof Hn as Hb. apply Nat.ltb_lt in Hb. rewrite Hb in Hcase.
    destruct Hcase as [Hnone Hlog]. split; [exact Hnone|]. split; [exact Hlog|].
    split.
    + intros st N. apply estimate_station_skip; [exact Hy|exact Hn].
    + intros db0 Hdb0. destruct (Hdates sta db0 Hdb0) as [sp [_ Hf]]. exists sp.
      exact Hf.
  - intros Hn. apply Nat.ltb_ge in Hn. rewrite Hn in Hcase. exact Hcase.
Qed.

(** C1 on the second station of the sample run, which has no finite
    sample. *)
Lemma C1_gate_on_sample_run :
  exists ampls y,
    job_curve float unit demo_transform demo_strength 4 tt tt [("quiet", [tr2])]
      = Some ampls /\
    closed_curve ampls = Ret y /\
    n_valid y = 0%nat /\
    field (results demo_out) (full_code (network demo_ned) "STA2")
          "azimuth_correction" = None.
Proof.
  destruct (C1_minimum_data_gate float unit unit demo_transform demo_strength
              demo_utc demo_trim demo_downsample demo_curate demo_fit demo_cos
              4 demo_ned tt tt tt demo_out "STA2" [("quiet", [tr2])])
    as [ampls [y [Hjob [Hy [Hskip _]]]]];
    [vm_compute; reflexivity|vm_compute; discriminate|vm_compute; reflexivity|].
  exists ampls, y. split; [exact Hjob|]. split; [exact Hy|].
  assert (Hn : n_valid y = 0%nat).
  { revert Hjob Hy. vm_compute. intros [= <-] [= <-]. reflexivity. }
  split; [exact Hn|].
  assert (Hlt : (n_valid y < 5)%nat) by (rewrite Hn; lia).
  destruct (Hskip Hlt) as [Hnone _]. exact Hnone.
Defined.

(** C1, a skipped station is not removed from the mapping: the second
    station of the sample run has no finite sample and is skipped, and
    its entry is in the returned mapping all the same, holding its
    [date_range]. *)
Lemma C1_skipped_station_keeps_its_entry :
  demo_run demo_ned = Ret demo_out /\
  (exists ampls y,
     job_curve float unit demo_transform demo_strength 4 tt tt [("quiet", [tr2])]
       = Some ampls /\
     closed_curve ampls = Ret y /\ n_valid y = 0%nat) /\
  In (LogInsufficient "STA2" 0) (log demo_out) /\
  results demo_out !! "AU.STA2" <> None /\
  field (results demo_out) "AU.STA2" "date_range" = Some (VList ["5"; "70"]).
Proof.
  split; [vm_compute; reflexivity|]. split.
  - eexists _, _. split; [vm_compute; reflexivity|].
    split; vm_compute; reflexivity.
  - split; [vm_compute; tauto|]. split; [vm_compute; discriminate|].
    vm_compute. reflexivity.
Qed.

(** C10: in a run that returns, every station of the input dataset has
    an entry under the key [network.station], the network code, a dot
    and the station code. Its [date_range] is the pair of two [None]
    when the station has no event; otherwise it is the pair of the
    printed earliest start time and the printed latest end time of the
    traces of the station. The entry has no [azimuth_correction] when the
    station is skipped because the closed curve has fewer than 5 finite
    samples, or when the station is no longer in the curated dataset. *)
Theorem C10_date_range_of_every_station
    (rf_trace config curation : Type)
    (transform_stream_to_rf : evid -> stream -> config -> config -> option (list rf_trace))
    (arrival_strength : list rf_trace -> float)
    (utc_str : Z -> string) (stream_trim : stream -> Z -> Z -> stream)
    (downsample : stream -> stream)
    (curate_seismograms : dataset -> curation -> gmap string event_db * list string)
    (curve_fit : list float -> list float -> option (float * float * float))
    (np_cos : float -> float)
    (fuel : nat) (ned : dataset) (curation_opts : curation) (cf cp : config)
    (out : run) (sta : string) (db : event_db) :
  analyze_station_orientations rf_trace config curation transform_stream_to_rf
    arrival_strength utc_str stream_trim downsample curate_seismograms
    curve_fit np_cos fuel ned curation_opts cf cp = Ret out ->
  ned_len ned <> 0%nat ->
  db_sta ned !! sta = Some db ->
  exists entry : gmap string value,
    results out !! (network ned +:+ "." +:+ sta) = Some entry /\
    match db with
    | [] => entry !! "date_range" = Some (VList ["None"; "None"])
    | _ :: _ =>
        exists lo hi : Z,
          entry !! "date_range" = Some (VList [utc_str lo; utc_str hi]) /\
          (exists e tr, In e db /\ In tr (snd e) /\ starttime tr = lo) /\
          (exists e tr, In e db /\ In tr (snd e) /\ endtime tr = hi) /\
          (forall e tr, In e db -> In tr (snd e) ->
             lo <= starttime tr /\ endtime tr <= hi)
    end /\
    (forall db' ampls,
       db_sta (ned_after out) !! sta = Some db' ->
       run_single_station rf_trace config transform_stream_to_rf arrival_strength
                          fuel db' angles cf cp = Some ampls ->
       (length (filter (fun b : bool => b)
                       (map isfinite (ampls ++ [nth 0 ampls nan]))) < 5)%nat ->
       entry !! "azimuth_correction" = None) /\
    (db_sta (ned_after out) !! sta = None ->
       entry !! "azimuth_correction" = None).
Proof.
  intros Hrun Hlen Hsta.
  destruct (analyze_entries _ _ _ _ _ _ _ _ _ _ _ _ _ _ _ _ _ Hrun Hlen)
    as [_ [Hdates [Hstations Hothers]]].
  destruct (Hdates sta db Hsta) as [sp [Hsp Hf]].
  unfold full_code in *. unfold field in Hf.
  destruct (results out !! (network ned +:+ "." +:+ sta)) as [entry|] eqn:Hentry;
    [|discriminate].
  exists entry. split; [reflexivity|]. split; [|split].
  - pose proof (station_span_outcome db) as Hout.
    destruct db as [|[ev [|tr0 s]] rest].
    + rewrite Hout in Hsp. injection Hsp as <-. exact Hf.
    + rewrite Hout in Hsp. discriminate.
    + destruct Hout as [lo [hi Hlh]]. rewrite Hlh in Hsp. injection Hsp as <-.
      exists lo, hi. split; [exact Hf|].
      destruct (station_span_attained _ lo hi Hlh) as [Hlo Hhi].
      split; [exact Hlo|]. split; [exact Hhi|].
      intros e tr He Htr. pose proof (station_span_spec _ _ Hlh) as Hall.
      rewrite List.Forall_forall in Hall. specialize (Hall e He).
      rewrite List.Forall_forall in Hall. exact (Hall tr Htr).
  - intros db' ampls Hdb' Hjob Hn.
    destruct (Hstations sta db' Hdb') as [ampls' [y [Hjob' [Hy Hcase]]]].
    unfold job_curve in Hjob'. rewrite Hjob in Hjob'. injection Hjob' as <-.
    destruct (closed_curve_inv ampls y Hy) as [-> _].
    assert (Hb : (n_valid (ampls ++ [nth 0 ampls nan]) <? 5)%nat = true).
    { apply Nat.ltb_lt. exact Hn. }
    rewrite Hb in Hcase. destruct Hcase as [Hnone _].
    unfold field in Hnone. rewrite Hentry in Hnone. exact Hnone.
  - intros Hgone.
    assert (Hnone : field (results out) (network ned +:+ "." +:+ sta)
                          "azimuth_correction" = None).
    { apply Hothers. intros sta' [db' Hdb'] Heq.
      apply (full_code_inj (network ned)) in Heq. subst sta'.
      rewrite Hgone in Hdb'. discriminate. }
    unfold field in Hnone. rewrite Hentry in Hnone. exact Hnone.
Qed.

(** C10 on the second station of the sample run, which is skipped. *)
Lemma C10_entry_of_skipped_station :
  exists entry : gmap string value,
    results demo_out !! "AU.STA2" = Some entry /\
    entry !! "date_range" = Some (VList ["5"; "70"]) /\
    entry !! "azimuth_correction" = None.
Proof.
  destruct (C10_date_range_of_every_station float unit unit demo_transform
              demo_strength demo_utc demo_trim demo_downsample demo_curate
              demo_fit demo_cos 4 demo_ned tt tt tt demo_out "STA2"
              [("quiet", [tr2])])
    as [entry [Hentry [Hdr [Hskip _]]]];
    [vm_compute; reflexivity|vm_compute; discriminate|vm_compute; reflexivity|].
  exists entry. split; [exact Hentry|]. split.
  - destruct Hdr as [lo [hi [Hdr [[e [tr [He [Htr Hlo]]]] [[e' [tr' [He' [Htr' Hhi]]]] _]]]]].
    destruct He as [<-|[]]. destruct Htr as [<-|[]].
    destruct He' as [<-|[]]. destruct Htr' as [<-|[]].
    rewrite Hdr, <- Hlo, <- Hhi. vm_compute. reflexivity.
  - apply (Hskip [("quiet", [tr2])] (repeat nan 20)).
    + vm_compute. reflexivity.
    + vm_compute. reflexivity.
    + vm_compute. lia.
Defined.

(** C3 (as amended): for a station with at least 5 finite samples the
    [azimuth_correction] written is the grid angle [-180 + k] with [k]
    the index [np.argmax] returns on the fitted model, over the 361
    angles -180, -179, ..., 180, both ends included; so it lies in
    [-180, 180], and when the model values are finite numbers no grid
    angle has a larger model value and every earlier grid angle has a
    smaller one. *)
Theorem C3_correction_is_first_grid_maximum
    (curve_fit : list float -> list float -> option (float * float * float))
    (np_cos : float -> float) (net : string)
    (st st' : gmap string (gmap string value) * list log_entry)
    (sta : string) (N : nat) (ampls y : list float) :
  closed_curve ampls = Ret y -> (5 <= n_valid y)%nat ->
  estimate_station curve_fit np_cos net st (sta, N, ampls) = Ret st' ->
  exists A_fit ph_fit k,
    (exists x_valid y_valid cov,
       mask_select x_grid (map isfinite y) = Some x_valid /\
       mask_select y (map isfinite y) = Some y_valid /\
       curve_fit x_valid y_valid = Some (A_fit, ph_fit, cov)) /\
    k = np_argmax (y_fitted np_cos A_fit ph_fit) /\ (k <= 360)%nat /\
    field (fst st') (full_code net sta) "azimuth_correction"
      = Some (VFloat (nth k angles_fine nan)) /\
    nth k angles_fine nan = of_Z (-180 + Z.of_nat k) /\
    leb (of_Z (-180)) (nth k angles_fine nan) = true /\
    leb (nth k angles_fine nan) (of_Z 180) = true /\
    (forallb number (y_fitted np_cos A_fit ph_fit) = true ->
     (forall j, (j <= 360)%nat ->
        leb (cosine_model np_cos A_fit ph_fit (nth j angles_fine nan))
            (cosine_model np_cos A_fit ph_fit (nth k angles_fine nan)) = true) /\
     (forall j, (j < k)%nat ->
        ltb (cosine_model np_cos A_fit ph_fit (nth j angles_fine nan))
            (cosine_model np_cos A_fit ph_fit (nth k angles_fine nan)) = true)).
Proof.
  intros Hy Hn Hrun.
  destruct (estimate_station_spec curve_fit np_cos net st st' sta N ampls Hrun)
    as [y' [Hy' Hcase]].
  rewrite Hy in Hy'. injection Hy' as <-.
  apply Nat.ltb_ge in Hn. rewrite Hn in Hcase.
  destruct Hcase as [a [u [Hfit [Hres _]]]].
  destruct (fitted_angle_inv curve_fit np_cos y a Hfit)
    as [xv [yv [A_fit [ph_fit [cov [Hx [Hyv [Hcf Ha]]]]]]]].
  pose proof (argmax_fitted_lt np_cos A_fit ph_fit) as Hk.
  exists A_fit, ph_fit, (np_argmax (y_fitted np_cos A_fit ph_fit)).
  split; [exists xv, yv, cov; split; [exact Hx|split; [exact Hyv|exact Hcf]]|].
  split; [reflexivity|]. split; [lia|]. split.
  { rewrite Hres, Ha. apply field_set_eq. }
  split; [apply angles_fine_nth; lia|].
  destruct (angles_fine_range (angle_max np_cos A_fit ph_fit)
              (angle_max_in_grid np_cos A_fit ph_fit)) as [Hlo Hhi].
  split; [exact Hlo|]. split; [exact Hhi|].
  intros Hnum. destruct (angle_max_maximal np_cos A_fit ph_fit Hnum) as [Hmax Hfirst].
  split.
  - intros j Hj. apply Hmax. lia.
  - intros j Hj. apply Hfirst. exact Hj.
Qed.

(** C3 on the curve of the first sample station. *)
Lemma C3_correction_of_sample_curve :
  exists A_fit ph_fit k,
    (k <= 360)%nat /\
    field (fst (get_ret (∅, []) (estimate_station demo_fit demo_cos "AU" (∅, [])
                                   ("STA1", 1%nat, demo_ampls))))
          (full_code "AU" "STA1") "azimuth_correction"
      = Some (VFloat (nth k angles_fine nan)) /\
    leb (of_Z (-180)) (nth k angles_fine nan) = true /\
    leb (nth k angles_fine nan) (of_Z 180) = true /\
    (forallb number (y_fitted demo_cos A_fit ph_fit) = true ->
     forall j, (j <= 360)%nat ->
       leb (cosine_model demo_cos A_fit ph_fit (nth j angles_fine nan))
           (cosine_model demo_cos A_fit ph_fit (nth k angles_fine nan)) = true).
Proof.
  destruct (C3_correction_is_first_grid_maximum demo_fit demo_cos "AU" (∅, [])
              (get_ret (∅, []) (estimate_station demo_fit demo_cos "AU" (∅, [])
                                  ("STA1", 1%nat, demo_ampls)))
              "STA1" 1 demo_ampls demo_y)
    as [A_fit [ph_fit [k [_ [_ [Hk [Hf [_ [Hlo [Hhi Hmax]]]]]]]]]];
    [vm_compute; reflexivity|vm_compute; lia|vm_compute; reflexivity|].
  exists A_fit, ph_fit, k. split; [exact Hk|]. split; [exact Hf|].
  split; [exact Hlo|]. split; [exact Hhi|].
  intros Hnum. destruct (Hmax Hnum) as [Hall _]. exact Hall.
Defined.

(** C3, the correction is not confined to the half-open range: the
    reconstruction grid ends with 180, and in the sample run, whose fit
    returns the amplitude -0.5 and the phase 0.074, the model value at
    180 is the first maximum of the grid (it exceeds the value at -180
    by one unit in the last place), so the correction written for the
    first station is 180. 180 is not below 180. *)
Lemma C3_correction_of_180_degrees :
  length angles_fine = 361%nat /\
  nth 360 angles_fine nan = of_Z 180 /\
  np_argmax (y_fitted demo_cos fit_A fit_ph) = 360%nat /\
  ltb (cosine_model demo_cos fit_A fit_ph (of_Z (-180)))
      (cosine_model demo_cos fit_A fit_ph (of_Z 180)) = true /\
  demo_run demo_ned = Ret demo_out /\
  db_sta (ned_after demo_out) !! "STA1" = Some [("ev1", [tr1])] /\
  n_valid demo_y = 21%nat /\
  field (results demo_out) "AU.STA1" "azimuth_correction" = Some (VFloat (of_Z 180)) /\
  ltb (of_Z 180) (of_Z 180) = false.
Proof.
  split; [apply angles_fine_length|].
  repeat split; vm_compute; reflexivity.
Qed.

End Claims.

(** * Part IV: further properties of the code *)

Module Extras.
Import B64 Wrap Sweep Heap Orient Demo Terms Sample.
Import B64Facts WrapFacts SweepFacts HeapFacts OrientFacts ExtraFacts.

(** ** The wrap (lines 80-84) *)



(** X2: a NaN back-azimuth stays NaN, since both loop conditions are
    false on it, and an infinite one is never brought into range: the
    wrap does not end. *)
Theorem wrap_of_nonfinite_back_azimuth (a : float) :
  isfinite a = true ->
  (forall n, rotate_azimuth (S n) nan a = Some nan) /\
  (forall s fuel, rotate_azimuth fuel (S754_infinity s) a = None).
Proof.
  intros Ha. split.
  - intros n. unfold rotate_azimuth. rewrite add_nan_l. apply wrap_nan.
  - intros s fuel. unfold rotate_azimuth. rewrite (add_infinity_l s a Ha).
    apply wrap_infinity.
Qed.

(** X2 with the candidate angle 18. *)
Lemma wrap_of_nonfinite_plus_18 :
  (forall n, rotate_azimuth (S n) nan (of_Z 18) = Some nan) /\
  (forall s fuel, rotate_azimuth fuel (S754_infinity s) (of_Z 18) = None).
Proof.
  apply (wrap_of_nonfinite_back_azimuth (of_Z 18)). vm_compute. reflexivity.
Defined.

(** ** The sweep (lines 61-106) *)



(** ** The date ranges (lines 139-156) *)

(** X5: the loop over the events of a station raises [IndexError]
    exactly when the first event has an empty stream; an empty stream of
    a later event is passed over. A station without events gets the
    range of two [None]. Otherwise both ends of the range are times. *)
Theorem date_range_loop_outcome (utc_str : Z -> string) (db : event_db) :
  match db with
  | [] => station_span db = Ret (None, None) /\
          date_range_of utc_str (None, None) = VList ["None"; "None"]
  | (_, []) :: _ => station_span db = Raise IndexError
  | (_, _ :: _) :: _ =>
      exists lo hi, station_span db = Ret (Some lo, Some hi) /\
        date_range_of utc_str (Some lo, Some hi) = VList [utc_str lo; utc_str hi]
  end.
Proof.
  pose proof (station_span_outcome db) as H.
  destruct db as [|[ev [|tr0 s]] db].
  - split; [exact H|reflexivity].
  - exact H.
  - destruct H as [lo [hi H]]. exists lo, hi. split; [exact H|reflexivity].
Qed.

(** X6: a station whose first event has an empty stream makes the run
    raise [IndexError], before any stream is trimmed. *)
Theorem empty_first_stream_ends_the_run
    (rf_trace config curation : Type)
    (transform_stream_to_rf : evid -> stream -> config -> config -> option (list rf_trace))
    (arrival_strength : list rf_trace -> float)
    (utc_str : Z -> string) (stream_trim : stream -> Z -> Z -> stream)
    (downsample : stream -> stream)
    (curate_seismograms : dataset -> curation -> gmap string event_db * list string)
    (curve_fit : list float -> list float -> option (float * float * float))
    (np_cos : float -> float)
    (fuel : nat) (ned : dataset) (curation_opts : curation) (cf cp : config)
    (sta : string) (ev : evid) (rest : event_db) :
  db_sta ned !! sta = Some ((ev, []) :: rest) ->
  date_ranges utc_str (network ned) (by_station ned) ∅ = Raise IndexError /\
  analyze_station_orientations rf_trace config curation transform_stream_to_rf
    arrival_strength utc_str stream_trim downsample curate_seismograms
    curve_fit np_cos fuel ned curation_opts cf cp = Raise IndexError.
Proof.
  intros Hsta.
  assert (Hraise : date_ranges utc_str (network ned) (by_station ned) ∅
                   = Raise IndexError).
  { apply date_ranges_raise. apply List.Exists_exists.
    exists (sta, (ev, []) :: rest). split; [now apply by_station_in|].
    now exists ev, rest. }
  split; [exact Hraise|].
  pose proof (station_events_counted ned sta _ Hsta) as Hlen. cbn [length] in Hlen.
  unfold analyze_station_orientations.
  destruct (Nat.eqb_spec (ned_len ned) 0) as [Hz|_]; [lia|].
  rewrite Hraise. reflexivity.
Qed.

(** X6 on a station whose first event has no trace. *)
Lemma broken_dataset_raises :
  date_ranges demo_utc (network broken_ned) (by_station broken_ned) ∅
    = Raise IndexError /\
  analyze_station_orientations float unit unit demo_transform demo_strength
    demo_utc demo_trim demo_downsample demo_curate demo_fit demo_cos
    4 broken_ned tt tt tt = Raise IndexError.
Proof.
  apply (empty_first_stream_ends_the_run float unit unit demo_transform
           demo_strength demo_utc demo_trim demo_downsample demo_curate demo_fit
           demo_cos 4 broken_ned tt tt tt "STA1" "ev0" [("ev1", [tr1])]).
  vm_compute. reflexivity.
Defined.

(** X7: the two ends of a date range are attained: some trace of the
    station starts at the reported start and none starts earlier, some
    trace ends at the reported end and none ends later. *)
Theorem date_range_is_earliest_start_and_latest_end (db : event_db) (lo hi : Z) :
  station_span db = Ret (Some lo, Some hi) ->
  starts_in db lo /\ ends_in db hi /\
  (forall e tr, In e db -> In tr (snd e) ->
     lo <= starttime tr /\ endtime tr <= hi).
Proof.
  intros H. destruct (station_span_attained db lo hi H) as [Hlo Hhi].
  split; [exact Hlo|]. split; [exact Hhi|].
  intros e tr He Htr. pose proof (station_span_spec db _ H) as Hall.
  rewrite List.Forall_forall in Hall. specialize (Hall e He).
  rewrite List.Forall_forall in Hall. exact (Hall tr Htr).
Qed.

(** X7 on two events with three traces. *)
Lemma date_range_of_three_traces :
  starts_in three_traces 3 /\ ends_in three_traces 90 /\
  (forall e tr, In e three_traces -> In tr (snd e) ->
     3 <= starttime tr /\ endtime tr <= 90).
Proof.
  apply (date_range_is_earliest_start_and_latest_end three_traces 3 90).
  vm_compute. reflexivity.
Defined.

(** ** The station loop (lines 189-219) *)

(** X8: the count of valid samples counts the first amplitude twice when
    it is finite, since the closing sample is a copy of it: a curve with
    four finite amplitudes, the first among them, passes the cutoff of
    five. *)
Theorem closing_sample_is_counted (ampls y : list float) :
  closed_curve ampls = Ret y ->
  n_valid y = (n_valid ampls + (if isfinite (nth 0 ampls nan) then 1 else 0))%nat /\
  (n_valid y <= S (length ampls))%nat.
Proof.
  intros Hy. split; [now apply n_valid_closed|].
  destruct (closed_curve_inv ampls y Hy) as [_ [_ [Hlen _]]].
  rewrite <- Hlen. apply n_valid_le_length.
Qed.

(** X8 on a curve with four finite amplitudes. *)
Lemma four_finite_amplitudes_pass :
  n_valid (four_finite ++ [of_Z 1]) = 5%nat /\
  (n_valid (four_finite ++ [of_Z 1]) <= 21)%nat.
Proof.
  destruct (closing_sample_is_counted four_finite (four_finite ++ [of_Z 1]))
    as [Hn Hle]; [reflexivity|].
  split; [rewrite Hn; vm_compute; reflexivity|exact Hle].
Defined.

(** X9: for a curve with one amplitude per candidate angle, the two
    arrays passed to the fit are the abscissae and the amplitudes of
    exactly the finite samples, position by position; both have
    [n_valid] entries and every amplitude passed is finite. *)
Theorem fit_gets_the_finite_samples (ampls y : list float) :
  length ampls = length angles -> closed_curve ampls = Ret y ->
  exists x_valid y_valid,
    mask_select x_grid (map isfinite y) = Some x_valid /\
    mask_select y (map isfinite y) = Some y_valid /\
    length x_valid = n_valid y /\ length y_valid = n_valid y /\
    Forall (fun v => isfinite v = true) y_valid /\
    combine x_valid y_valid
      = filter (fun p => Is_true (isfinite (snd p))) (combine x_grid y).
Proof.
  intros Hlen Hy. apply masked_pairs.
  destruct (closed_curve_inv ampls y Hy) as [_ [_ [Hly _]]].
  rewrite Hly, Hlen, x_grid_length, angles_length. reflexivity.
Qed.

(** X9 on a curve with four finite amplitudes. *)
Lemma fit_inputs_of_four_finite :
  exists x_valid y_valid,
    mask_select x_grid (map isfinite (four_finite ++ [of_Z 1])) = Some x_valid /\
    mask_select (four_finite ++ [of_Z 1]) (map isfinite (four_finite ++ [of_Z 1]))
      = Some y_valid /\
    length x_valid = n_valid (four_finite ++ [of_Z 1]) /\
    length y_valid = n_valid (four_finite ++ [of_Z 1]) /\
    Forall (fun v => isfinite v = true) y_valid /\
    combine x_valid y_valid
      = filter (fun p => Is_true (isfinite (snd p)))
               (combine x_grid (four_finite ++ [of_Z 1])).
Proof.
  apply (fit_gets_the_finite_samples four_finite).
  - vm_compute. reflexivity.
  - reflexivity.
Defined.

(** ** The returned mapping and the log (lines 138-239) *)

(** X10: the mapping of a run that returns has no key besides the codes
    [network.station] of the stations of the input and of the curated
    dataset, and an entry has no field besides [date_range], a pair of
    printed times, and [azimuth_correction], an angle of the
    reconstruction grid. *)
Theorem mapping_holds_station_entries_only
    (rf_trace config curation : Type)
    (transform_stream_to_rf : evid -> stream -> config -> config -> option (list rf_trace))
    (arrival_strength : list rf_trace -> float)
    (utc_str : Z -> string) (stream_trim : stream -> Z -> Z -> stream)
    (downsample : stream -> stream)
    (curate_seismograms : dataset -> curation -> gmap string event_db * list string)
    (curve_fit : list float -> list float -> option (float * float * float))
    (np_cos : float -> float)
    (fuel : nat) (ned : dataset) (curation_opts : curation) (cf cp : config)
    (out : run) :
  analyze_station_orientations rf_trace config curation transform_stream_to_rf
    arrival_strength utc_str stream_trim downsample curate_seismograms
    curve_fit np_cos fuel ned curation_opts cf cp = Ret out ->
  ned_len ned <> 0%nat ->
  (forall c,
     (forall sta, is_Some (db_sta ned !! sta) \/
                  is_Some (db_sta (ned_after out) !! sta) ->
                  c <> full_code (network ned) sta) ->
     results out !! c = None) /\
  (forall c k w, field (results out) c k = Some w ->
     (k = "date_range" /\ exists sp, w = date_range_of utc_str sp) \/
     (k = "azimuth_correction" /\ exists a, w = VFloat a /\ In a angles_fine)).
Proof.
  intros Hrun Hlen.
  destruct (analyze_stages _ _ _ _ _ _ _ _ _ _ _ _ _ _ _ _ _ Hrun Hlen)
    as [res [sta_ampls [Hdates [Hlens [Hnet [ned1 [_ Hest]]]]]]].
  split.
  - intros c Hc.
    pose proof (estimate_all_lookup curve_fit np_cos _ _ _ _ Hest c) as Hl.
    cbn [fst] in Hl. rewrite Hl.
    + rewrite (date_ranges_lookup utc_str _ _ _ _ Hdates c); [apply lookup_empty|].
      intros sta Hin. apply Hc. left.
      apply in_map_iff in Hin. destruct Hin as [[sta' db] [Heq Hin]].
      cbn [fst] in Heq. subst sta'. exists db. now apply by_station_in.
    + intros m Hm. apply Hc. right.
      assert (Hin : In (station_of m) (map fst (by_station (ned_after out)))).
      { rewrite <- (sta_metrics_stations _ sta_ampls) by (now symmetry).
        now apply in_map. }
      apply in_map_iff in Hin. destruct Hin as [[sta' db] [Heq Hin]].
      cbn [fst] in Heq. rewrite <- Heq. exists db. now apply by_station_in.
  - intros c k w Hf.
    destruct (estimate_all_shape curve_fit np_cos _ _ _ _ Hest c k w Hf) as [Ha|Hr];
      [now right|].
    cbn [fst] in Hr.
    destruct (date_ranges_shape utc_str _ _ _ _ Hdates c k w Hr) as [Hd|He];
      [now left|].
    rewrite field_empty in He. discriminate.
Qed.

(** X10 on the sample run. *)
Lemma mapping_of_sample_run :
  (forall c,
     (forall sta, is_Some (db_sta demo_ned !! sta) \/
                  is_Some (db_sta (ned_after demo_out) !! sta) ->
                  c <> full_code (network demo_ned) sta) ->
     results demo_out !! c = None) /\
  (forall c k w, field (results demo_out) c k = Some w ->
     (k = "date_range" /\ exists sp, w = date_range_of demo_utc sp) \/
     (k = "azimuth_correction" /\ exists a, w = VFloat a /\ In a angles_fine)).
Proof.
  apply (mapping_holds_station_entries_only float unit unit demo_transform
           demo_strength demo_utc demo_trim demo_downsample demo_curate demo_fit
           demo_cos 4 demo_ned tt tt tt demo_out).
  - vm_compute. reflexivity.
  - vm_compute. discriminate.
Defined.

(** X11: the log of a run that returns holds, in this order: the lines
    of the trimming, the downsampling and the curation stage; the lines
    that [curate_seismograms], which is handed the logger, logs on the
    trimmed and downsampled dataset; the count of discarded events, at
    most the count of events of the input; the line of the analysis
    stage; and one line per station of the curated dataset, in the order
    of the stations: the shortage of finite samples, or the estimate
    with the number of events of the station. *)
Theorem log_has_one_line_per_station
    (rf_trace config curation : Type)
    (transform_stream_to_rf : evid -> stream -> config -> config -> option (list rf_trace))
    (arrival_strength : list rf_trace -> float)
    (utc_str : Z -> string) (stream_trim : stream -> Z -> Z -> stream)
    (downsample : stream -> stream)
    (curate_seismograms : dataset -> curation -> gmap string event_db * list string)
    (curve_fit : list float -> list float -> option (float * float * float))
    (np_cos : float -> float)
    (fuel : nat) (ned : dataset) (curation_opts : curation) (cf cp : config)
    (out : run) :
  analyze_station_orientations rf_trace config curation transform_stream_to_rf
    arrival_strength utc_str stream_trim downsample curate_seismograms
    curve_fit np_cos fuel ned curation_opts cf cp = Ret out ->
  ned_len ned <> 0%nat ->
  exists ned1 discarded entries,
    ned_apply (trim_window stream_trim) ned = Ret ned1 /\
    log out = [LogTrimming; LogDownsampling; LogCurating]
              ++ map LogCuration
                     (snd (curate_seismograms (map_streams downsample ned1)
                                              curation_opts))
              ++ [LogDiscarded discarded (size (ned_evids ned)); LogAnalysing]
              ++ entries /\
    (discarded <= size (ned_evids ned))%nat /\
    Forall2 (fun job e => station_line (fst job) (length (snd job)) e)
            (by_station (ned_after out)) entries.
Proof.
  intros Hrun Hlen.
  destruct (analyze_stages _ _ _ _ _ _ _ _ _ _ _ _ _ _ _ _ _ Hrun Hlen)
    as [res [sta_ampls [_ [Hlens [_ [ned1 [Htrim Hest]]]]]]].
  destruct (estimate_all_log curve_fit np_cos _ _ _ _ Hest) as [entries [Hlog Hall]].
  cbn [snd] in Hlog.
  exists ned1, (size (ned_evids ned ∖ ned_evids (ned_after out))), entries.
  split; [exact Htrim|]. split.
  - rewrite Hlog. rewrite <- !app_assoc. reflexivity.
  - split.
    + apply subseteq_size. intros x Hx. apply elem_of_difference in Hx. tauto.
    + apply (sta_metrics_lines _ sta_ampls); [now symmetry|exact Hall].
Qed.

(** X11 on the sample run. *)
Lemma log_of_sample_run :
  exists ned1 discarded entries,
    ned_apply (trim_window demo_trim) demo_ned = Ret ned1 /\
    log demo_out = [LogTrimming; LogDownsampling; LogCurating]
                   ++ map LogCuration
                          (snd (demo_curate (map_streams demo_downsample ned1) tt))
                   ++ [LogDiscarded discarded (size (ned_evids demo_ned)); LogAnalysing]
                   ++ entries /\
    (discarded <= size (ned_evids demo_ned))%nat /\
    Forall2 (fun job e => station_line (fst job) (length (snd job)) e)
            (by_station (ned_after demo_out)) entries.
Proof.
  apply (log_has_one_line_per_station float unit unit demo_transform
           demo_strength demo_utc demo_trim demo_downsample demo_curate demo_fit
           demo_cos 4 demo_ned tt tt tt demo_out).
  - vm_compute. reflexivity.
  - vm_compute. discriminate.
Defined.

End Extras.
